(** * LoCoPilot agent runtime: a shallow embedding and its properties

    The development follows three source units of the repository:

    - [Provider]: [locopilotLanguageModelProvider.ts], the OpenAI-compatible
      streaming adapter ([_callOpenAI], whose [onEnd] handler is repeated
      verbatim in [_callLocalModel]) and the one-shot completion of the event
      stream in [_doSendChatRequest];
    - [Agent]: the [UnifiedAgent] class (constructor clamp and the agentic
      loop of [run]);
    - [Compactor]: the token accounting and the auto-summarizer of
      [LoCoPilotBuiltInAgent] ([computeTotalTokenCount],
      [summarizeHistoryEntries], [getHistoryWithSummarizationIfNeeded] and
      the part of [invoke] that calls them).

    Further modules cover what surrounds these units: the agent loop seen
    from outside ([Gateway]), the API error messages ([ApiErrors]), the
    Anthropic stream ([Anthropic]), the status test of the two cloud
    adapters ([Calls]), the iteration setting and its editor
    ([Settings]), the provider's token count and OpenAI messages ([Wire]),
    the thinking shown to the user ([Display]), the schema sanitizer of the
    Google adapter ([GoogleSchema]) and the Anthropic messages
    ([AnthropicWire]).

    Part I holds the definitions, Part II the lemmas and theorems.

    Conventions.  JavaScript strings are Rocq [string]s (the texts that
    matter here are ASCII, where bytes and UTF-16 code units coincide).  An
    optional field ([undefined] allowed) is an [option].  A value that can be
    thrown is a [Thrown].  Logging calls have no functional effect and are
    left out.  Everything the code obtains from outside (the HTTP stream, the
    language model, the tools, the clock, the cancellation token) is an
    explicit input of the function that reads it. *)

From Stdlib Require QArith Qround DecimalString.
From stdpp Require Import gmap strings list sorting.

#[local] Open Scope Z_scope.

(* ===================================================================== *)
(** * Part I: the embedding                                               *)
(* ===================================================================== *)

(** ** JavaScript primitives used by the three units *)

Module Js.

(** [JSON.parse], [JSON.stringify], the literal [{}] and [ToBoolean] on
    parsed values.  [JSON_parse s = None] stands for a thrown [SyntaxError]. *)
Class JsonValue (Json : Type) := {
  JSON_parse : string → option Json;
  JSON_stringify : Json → string;
  emptyObject : Json;
  truthy : Json → bool
}.

(** A thrown value [e]: [message] is [e.message] when that is a string,
    [asString] is [String(e)]. *)
Record Thrown := mkThrown { message : option string; asString : string }.

(** [new Error(msg)] *)
Definition newError (msg : string) : Thrown :=
  {| message := Some msg; asString := "Error: " +:+ msg |}.

(** Truthiness of a string: the empty string is falsy. *)
Definition nonEmpty (s : string) : bool :=
  match s with EmptyString => false | String _ _ => true end.

(** Truthiness of an optional string field: [undefined] and [''] are falsy. *)
Definition truthyField (o : option string) : bool :=
  match o with Some s => nonEmpty s | None => false end.

(** [hay.includes(needle)] *)
Fixpoint includes (needle hay : string) : bool :=
  String.prefix needle hay ||
  match hay with
  | EmptyString => false
  | String _ rest => includes needle rest
  end.

(** [s.slice(n)] for [0 <= n] *)
Fixpoint slice (n : nat) (s : string) : string :=
  match n, s with
  | O, _ => s
  | S n', String _ rest => slice n' rest
  | S _, EmptyString => EmptyString
  end.

(** ASCII lower-casing of one character; a regular expression with the [i]
    flag (and no [u] flag) never identifies an ASCII letter with a non-ASCII
    character. *)
Definition lowerAscii (c : Ascii.ascii) : Ascii.ascii :=
  let n := Ascii.nat_of_ascii c in
  if ((65 <=? n) && (n <=? 90))%nat then Ascii.ascii_of_nat (n + 32) else c.

Fixpoint toLowerAscii (s : string) : string :=
  match s with
  | EmptyString => EmptyString
  | String c rest => String (lowerAscii c) (toLowerAscii rest)
  end.

(** White space as matched by [\s] and removed by [trim], on ASCII. *)
Definition isWhiteSpace (c : Ascii.ascii) : bool :=
  let n := Ascii.nat_of_ascii c in
  ((n =? 32) || ((9 <=? n) && (n <=? 13)))%nat.

Fixpoint trimStart (s : string) : string :=
  match s with
  | EmptyString => EmptyString
  | String c rest => if isWhiteSpace c then trimStart rest else s
  end.

(** [trimEnd]: a character is kept when it is not white space or when
    something remains after it. *)
Fixpoint trimEnd (s : string) : string :=
  match s with
  | EmptyString => EmptyString
  | String c rest =>
      match trimEnd rest with
      | EmptyString => if isWhiteSpace c then EmptyString else String c EmptyString
      | kept => String c kept
      end
  end.

Definition trim (s : string) : string := trimEnd (trimStart s).

End Js.

Import Js.

(** ** Canonical chat data shared by the adapter and the agent *)

(** [IChatResponseToolUsePart] *)
Record ToolUse (Json : Type) := mkToolUse {
  name : string;
  toolCallId : string;
  parameters : Json
}.
Arguments mkToolUse {Json}.
Arguments name {Json}.
Arguments toolCallId {Json}.
Arguments parameters {Json}.

(** The [value] of a thinking part: a string or an array of strings. *)
Inductive ThinkingValue :=
| ThinkingText (text : string)
| ThinkingArray (chunks : list string).

(** [IChatResponsePart]: the parts a response stream carries.  [PartOther]
    is any part whose [type] is none of the three the agent reads. *)
Inductive ResponsePart (Json : Type) :=
| PartText (value : string)
| PartThinking (value : ThinkingValue)
| PartToolUse (tu : ToolUse Json)
| PartOther.
Arguments PartText {Json}.
Arguments PartThinking {Json}.
Arguments PartToolUse {Json}.
Arguments PartOther {Json}.

Definition isToolUse {Json} (p : ResponsePart Json) : bool :=
  match p with PartToolUse _ => true | _ => false end.

(* ===================================================================== *)
(** ** [locopilotLanguageModelProvider.ts]                                *)
(* ===================================================================== *)

Module Provider.

(** [_getCanceledMessage] *)
Definition _getCanceledMessage : string :=
  "Request was canceled. You can start a new request anytime.".

(** [_isCanceledError]: [/canceled|cancellation/i.test(errMsg)] *)
Definition _isCanceledError (errMsg : string) : bool :=
  let lower := toLowerAscii errMsg in
  includes "canceled" lower || includes "cancellation" lower.

(** *** The server-sent lines of an OpenAI-style stream

    [onData] splits the buffered text into lines, keeps those that start
    with [data: ], skips [[DONE]] and parses the rest with [JSON.parse]; a
    line that does not parse is ignored, and text after the last line break
    waits in the buffer for the next chunk.  The embedding starts after that
    framing: a line is a complete line that reached line 271, as the decoded
    [json.choices?.[0]?.delta], or nothing. *)

(** One element of [delta.tool_calls]. *)
Record ToolCallDelta := mkToolCallDelta {
  tc_index : option Z;              (* tc.index *)
  tc_id : option string;            (* tc.id *)
  tc_name : option string;          (* tc.function?.name *)
  tc_arguments : option string      (* tc.function?.arguments *)
}.

Record ChoiceDelta := mkChoiceDelta {
  content : option string;
  reasoning_content : option string;
  tool_calls : option (list ToolCallDelta)
}.

Inductive SseLine :=
| LineIgnored                       (* no [data: ] prefix, [[DONE]], parse error, no choice *)
| LineDelta (d : ChoiceDelta).

(** How the HTTP response stream finishes: [onEnd] or [onError]. *)
Inductive StreamClose :=
| CloseEnd
| CloseError (error : Thrown).

(** A value of [accumulatedToolCalls]: [{ id?; name?; args }]. *)
Record Accumulated := mkAccumulated {
  acc_id : option string;
  acc_name : option string;
  acc_args : string
}.

(** The index a fragment is filed under: [tc.index ?? 0]. *)
Definition indexOf (tc : ToolCallDelta) : Z := default 0 (tc_index tc).

(** One pass of the inner loop over [delta.tool_calls] (lines 281-291).  The
    source mutates the object held by the map; here the updated object is
    stored back under the same index. *)
Definition accumulate (m : gmap Z Accumulated) (tc : ToolCallDelta)
  : gmap Z Accumulated :=
  let idx := indexOf tc in
  let acc := default (mkAccumulated None None "") (m !! idx) in
  let id' := if truthyField (tc_id tc) then tc_id tc else acc_id acc in
  let name' := if truthyField (tc_name tc) then tc_name tc else acc_name acc in
  let args' := match tc_arguments tc with
               | Some fragment => acc_args acc +:+ fragment
               | None => acc_args acc
               end in
  <[idx := mkAccumulated id' name' args']> m.

Section Adapter.
Context {Json : Type} `{!JsonValue Json}.

(** The parts [onData] emits for one decoded line (lines 273-278). *)
Definition emitDelta (d : ChoiceDelta) : list (ResponsePart Json) :=
  (if truthyField (content d)
   then [PartText (default "" (content d))] else []) ++
  (if truthyField (reasoning_content d)
   then [PartThinking (ThinkingText (default "" (reasoning_content d)))] else []).

(** What one line does to the accumulator and to the event stream. *)
Definition onLine (m : gmap Z Accumulated) (l : SseLine)
  : gmap Z Accumulated * list (ResponsePart Json) :=
  match l with
  | LineIgnored => (m, [])
  | LineDelta d =>
      (match tool_calls d with
       | Some tcs => foldl accumulate m tcs
       | None => m
       end, emitDelta d)
  end.

(** [onData] over all lines of the stream, in arrival order. *)
Fixpoint onData (m : gmap Z Accumulated) (lines : list SseLine)
  : gmap Z Accumulated * list (ResponsePart Json) :=
  match lines with
  | [] => (m, [])
  | l :: rest =>
      let '(m1, out1) := onLine m l in
      let '(m2, out2) := onData m1 rest in
      (m2, out1 ++ out2)
  end.

(** [acc.args ? JSON.parse(acc.args) : {}], with the [catch] branch that
    emits [parameters: {}] when the text does not parse (lines 306-322). *)
Definition parametersOf (args : string) : Json :=
  if nonEmpty args
  then match JSON_parse args with
       | Some parsed => parsed
       | None => emptyObject
       end
  else emptyObject.

(** The body of the [for (const idx of indices)] loop of [onEnd]: nothing is
    emitted unless [acc.id && acc.name]. *)
Definition finalize (acc : Accumulated) : option (ResponsePart Json) :=
  match acc_id acc, acc_name acc with
  | Some id, Some nm =>
      if nonEmpty id && nonEmpty nm
      then Some (PartToolUse (mkToolUse nm id (parametersOf (acc_args acc))))
      else None
  | _, _ => None
  end.

(** [Array.from(accumulatedToolCalls.keys()).sort((a, b) => a - b)] *)
Definition sortedIndices (m : gmap Z Accumulated) : list Z :=
  merge_sort Z.le (map fst (map_to_list m)).

(** [onEnd] (lines 300-326; the same text is the [onEnd] of
    [_callLocalModel], lines 764-788). *)
Definition onEnd (m : gmap Z Accumulated) : list (ResponsePart Json) :=
  omap (λ idx, m !! idx ≫= finalize) (sortedIndices m).

(** What a call of an adapter did by the time its promise settled: the parts
    it put on the event stream with [emitOne], and whether it returned or
    threw.  No adapter calls [stream.resolve] or [stream.reject]. *)
Record AdapterRun := mkAdapterRun {
  emitted : list (ResponsePart Json);
  thrown : option Thrown
}.

(** The promise built at line 254 of [_callOpenAI]: the listener applied to
    the whole response stream. *)
Definition listenOpenAI (lines : list SseLine) (close : StreamClose) : AdapterRun :=
  let '(m, out) := onData ∅ lines in
  match close with
  | CloseEnd => mkAdapterRun (out ++ onEnd m) None
  | CloseError error => mkAdapterRun out (Some error)
  end.

(** *** [_doSendChatRequest] *)

(** The operations performed on the [AsyncIterableSource] of one request. *)
Inductive StreamOp :=
| OpEmit (part : ResponsePart Json)
| OpResolve
| OpReject (error : Thrown).



(** The providers the [if] chain of lines 180-191 knows. *)
Definition supportedProvider (provider : string) : bool :=
  bool_decide (provider ∈ ["openai"; "anthropic"; "google"; "huggingface";
                            "ollama"; "localhost"]).

(** The [try] block: the adapter chosen by [model.provider], or the thrown
    [Unsupported provider] error. *)
Definition dispatch (adapters : string → AdapterRun) (provider : string) : AdapterRun :=
  if supportedProvider provider
  then adapters provider
  else mkAdapterRun [] (Some (newError ("Unsupported provider: " +:+ provider))).

(** [errMsg] and [toThrow] of the [catch] block (lines 197-198). *)
Definition errMsgOf (e : Thrown) : string :=
  match message e with Some m => m | None => asString e end.

Definition toThrow (e : Thrown) : Thrown :=
  if _isCanceledError (errMsgOf e) then newError _getCanceledMessage else e.

(** [_doSendChatRequest]: the operations on the stream, in order, and the
    outcome of the returned promise ([None]: fulfilled). *)
Definition _doSendChatRequest (adapters : string → AdapterRun) (provider : string)
  : list StreamOp * option Thrown :=
  let rejected := false in
  let call := dispatch adapters provider in
  let ops := map OpEmit (emitted call) in
  match thrown call with
  | Some e =>
      (* catch *)
      let rejected := true in
      let ops := ops ++ [OpReject (toThrow e)] in
      (* finally *)
      (if negb rejected then ops ++ [OpResolve] else ops, Some (toThrow e))
  | None =>
      (* finally *)
      (if negb rejected then ops ++ [OpResolve] else ops, None)
  end.

End Adapter.

Arguments AdapterRun : clear implicits.
Arguments StreamOp : clear implicits.

End Provider.

(* ===================================================================== *)
(** ** [UnifiedAgent]                                                     *)
(* ===================================================================== *)

Module Agent.

(** [TASK_COMPLETE_SIGNAL] of [agentPrompts] *)
Definition TASK_COMPLETE_SIGNAL : string := "[TASK_COMPLETE]".

(** Max times the same tool+args can be called before the loop is stopped. *)
Definition REPEATED_TOOL_CALL_THRESHOLD : nat := 3.

(** Sliding window size for detecting repeated tool calls. *)
Definition REPEATED_TOOL_CALL_WINDOW : nat := 6.

Definition DEFAULT_MAX_ITERATIONS : Z := 25.

(** [PROGRESS_UPDATE_INTERVAL], in milliseconds. *)
Definition PROGRESS_UPDATE_INTERVAL : Z := 100.

(** The constructor: [Math.min(100, Math.max(1, maxIterations))], where a
    missing argument takes the default. *)
Definition MAX_ITERATIONS (maxIterations : option Z) : nat :=
  Z.to_nat (Z.min 100 (Z.max 1 (default DEFAULT_MAX_ITERATIONS maxIterations))).

(** *** Display text *)

(** One attempt of [/\s*\[TASK_COMPLETE\]\s*/] at the head of [s]: the text
    after the match.  The marker starts with a character that is not white
    space, so the greedy [\s*] never has to give anything back. *)
Definition matchSignalAt (s : string) : option string :=
  let afterSpace := trimStart s in
  if String.prefix TASK_COMPLETE_SIGNAL afterSpace
  then Some (trimStart (slice (String.length TASK_COMPLETE_SIGNAL) afterSpace))
  else None.

(** [s.replace(/\s*\[TASK_COMPLETE\]\s*/g, '')]: leftmost matches are removed
    one after the other.  Every step consumes a character, so [fuel] at least
    the length of [s] is enough. *)
Fixpoint removeSignal (fuel : nat) (s : string) : string :=
  match fuel with
  | O => s
  | S fuel' =>
      match matchSignalAt s with
      | Some rest => removeSignal fuel' rest
      | None =>
          match s with
          | EmptyString => EmptyString
          | String c rest => String c (removeSignal fuel' rest)
          end
      end
  end.

(** [fullText.replace(/\s*\[TASK_COMPLETE\]\s*/g, '').trim()] *)
Definition stripSignal (fullText : string) : string :=
  trim (removeSignal (String.length fullText) fullText).

(** *** Messages, progress and the outside world *)

Inductive ChatMessageRole := System | User | Assistant.

(** The content parts of an [IChatMessage] that the loop builds. *)
Inductive MessagePart (Json : Type) :=
| MsgText (value : string)
| MsgToolUse (tu : ToolUse Json)
| MsgToolResult (toolCallId : string) (value : list string) (isError : bool)
| MsgImage (mimeType : string) (data : string).
Arguments MsgText {Json}.
Arguments MsgToolUse {Json}.
Arguments MsgToolResult {Json}.
Arguments MsgImage {Json}.

Record ChatMessage (Json : Type) := mkChatMessage {
  role : ChatMessageRole;
  content : list (MessagePart Json)
}.
Arguments mkChatMessage {Json}.
Arguments role {Json}.
Arguments content {Json}.

(** [IChatProgress], as passed to [progress] and as found in a history
    entry's [response]. *)
Inductive ChatProgress :=
| markdownContent (value : string)
| thinking (value : string)
| progressMessage (content : string)
| otherProgress.

(** What the run does to the outside, in order. *)
Inductive Event (Json : Type) :=
| EvRequest (messages : list (ChatMessage Json))  (* languageModelsService.sendChatRequest *)
| EvProgress (part : ChatProgress)                (* progress([part]) *)
| EvInvokeTool (call : ToolUse Json).             (* toolsService.invokeTool *)
Arguments EvRequest {Json}.
Arguments EvProgress {Json}.
Arguments EvInvokeTool {Json}.

Definition isRequest {Json} (e : Event Json) : bool :=
  match e with EvRequest _ => true | _ => false end.
Definition isInvokeTool {Json} (e : Event Json) : bool :=
  match e with EvInvokeTool _ => true | _ => false end.

(** One value yielded by [response.stream] (a part or an array of parts),
    with what the loop reads from outside while handling it: the token at
    line 113 and [Date.now()] for each part. *)
Record Arrival (Json : Type) := mkArrival {
  cancelSeen : bool;
  parts : list (ResponsePart Json * Z)
}.
Arguments mkArrival {Json}.
Arguments cancelSeen {Json}.
Arguments parts {Json}.

(** One chat response: the two clock readings of lines 105-106, the values
    the stream yields, the error the stream ends with (if it is rejected) and
    the error [response.result] rejects with (if it does). *)
Record Response (Json : Type) := mkResponse {
  progressClock : Z;
  thinkingClock : Z;
  stream : list (Arrival Json);
  streamError : option Thrown;
  result : option Thrown
}.
Arguments mkResponse {Json}.
Arguments progressClock {Json}.
Arguments thinkingClock {Json}.
Arguments stream {Json}.
Arguments streamError {Json}.
Arguments result {Json}.

Inductive RequestOutcome (Json : Type) :=
| RequestThrew (e : Thrown)
| RequestSent (r : Response Json).
Arguments RequestThrew {Json}.
Arguments RequestSent {Json}.

(** An item of [result.content] of a tool. *)
Inductive ToolItem :=
| ItemText (value : string)
| ItemData (mimeType : option string) (data : string)
| ItemOther.

Inductive ToolOutcome :=
| ToolReturned (content : option (list ToolItem))
| ToolThrew (error : Thrown).

(** The collaborators of one [run].  Each answers as a function of what the
    run has done so far, so a model or a tool may answer differently each
    time it is asked. *)
Record Env (Json : Type) := mkEnv {
  maxIterations : option Z;
  isCancellationRequested : list (Event Json) → bool;
  sendChatRequest : list (Event Json) → list (ChatMessage Json) → RequestOutcome Json;
  invokeTool : list (Event Json) → ToolUse Json → ToolOutcome
}.
Arguments mkEnv {Json}.
Arguments maxIterations {Json}.
Arguments isCancellationRequested {Json}.
Arguments sendChatRequest {Json}.
Arguments invokeTool {Json}.

(** The variables of [run] that live across iterations, and the events. *)
Record LoopState (Json : Type) := mkLoopState {
  iterationCount : nat;
  consecutiveNoCompleteCount : nat;
  hasEverEmitted : bool;
  conversationMessages : list (ChatMessage Json);
  recentToolKeys : list string;
  events : list (Event Json)
}.
Arguments mkLoopState {Json}.
Arguments iterationCount {Json}.
Arguments consecutiveNoCompleteCount {Json}.
Arguments hasEverEmitted {Json}.
Arguments conversationMessages {Json}.
Arguments recentToolKeys {Json}.
Arguments events {Json}.

(** The variables of one iteration while the stream is read. *)
Record Streaming (Json : Type) := mkStreaming {
  fullText : string;
  fullThinking : string;
  toolCalls : list (ToolUse Json);
  lastProgressUpdate : Z;
  lastThinkingUpdate : Z;
  lastEmittedDisplayLength : nat;
  lastEmittedThinkingLength : nat;
  emittedAny : bool;                      (* hasEverEmitted *)
  shown : list ChatProgress               (* progress calls, in order *)
}.
Arguments mkStreaming {Json}.
Arguments fullText {Json}.
Arguments fullThinking {Json}.
Arguments toolCalls {Json}.
Arguments lastProgressUpdate {Json}.
Arguments lastThinkingUpdate {Json}.
Arguments lastEmittedDisplayLength {Json}.
Arguments lastEmittedThinkingLength {Json}.
Arguments emittedAny {Json}.
Arguments shown {Json}.

(** The three [break] statements of the loop. *)
Inductive BreakReason := Completed | Silence | Repetition.

(** How one pass through the loop body ends. *)
Inductive Step (Json : Type) :=
| Continue (st : LoopState Json)
| Break (reason : BreakReason) (st : LoopState Json)
| Throw (e : Thrown) (st : LoopState Json).
Arguments Continue {Json}.
Arguments Break {Json}.
Arguments Throw {Json}.

Definition stateOf {Json} (step : Step Json) : LoopState Json :=
  match step with
  | Continue st => st
  | Break _ st => st
  | Throw _ st => st
  end.

(** How [run] ends: the [while] condition became false, a [break] was
    taken, or an exception left the function. *)
Inductive Exit :=
| ExitCondition
| ExitBreak (reason : BreakReason)
| ExitThrow (e : Thrown).

Record RunResult (Json : Type) := mkRunResult {
  exit : Exit;
  final : LoopState Json
}.
Arguments mkRunResult {Json}.
Arguments exit {Json}.
Arguments final {Json}.

(** The texts of the loop. *)
Definition nudgeText : string :=
  "Use the available tools to complete the task, or if you have given your final answer, end your next message with "
  +:+ TASK_COMPLETE_SIGNAL +:+ ".".

Definition newline : string := String (Ascii.ascii_of_nat 10) EmptyString.

Definition repetitionNote : string :=
  newline
  +:+ "*Stopped: the same tool was called repeatedly with no progress. If the task is done, you can start a new message.*"
  +:+ newline.

Definition noResponseNote : string :=
  "The model did not return a response. Please try again or try with another model.".

Definition iterationLimitNote : string :=
  newline +:+ newline
  +:+ "*Note: Reached maximum number of iterations. The task may be incomplete.*".

Definition nudgeMessage {Json} : ChatMessage Json :=
  mkChatMessage User [MsgText nudgeText].

Section Loop.
Context {Json : Type} `{!JsonValue Json}.

(** *** Reading the stream (lines 102-155) *)

Definition startStreaming (r : Response Json) (hasEverEmitted0 : bool) : Streaming Json :=
  mkStreaming "" "" [] (progressClock r) (thinkingClock r) 0 0 hasEverEmitted0 [].

(** [p.value] of a thinking part is truthy unless it is the empty string. *)
Definition thinkingTruthy (v : ThinkingValue) : bool :=
  match v with ThinkingText s => nonEmpty s | ThinkingArray _ => true end.

(** [Array.isArray(p.value) ? p.value.join('') : p.value] *)
Definition thinkingChunk (v : ThinkingValue) : string :=
  match v with ThinkingText s => s | ThinkingArray l => fold_right String.append "" l end.

(** The body of [for (const p of parts)], with [now] the reading of
    [Date.now()] taken for [p]. *)
Definition onPart (s : Streaming Json) (timed : ResponsePart Json * Z) : Streaming Json :=
  let '(p, now) := timed in
  match p with
  | PartText value =>
      let fullText' := fullText s +:+ value in
      let displaySoFar := stripSignal fullText' in
      let delta := slice (lastEmittedDisplayLength s) displaySoFar in
      let throttleElapsed := PROGRESS_UPDATE_INTERVAL <? now - lastProgressUpdate s in
      if nonEmpty delta && (throttleElapsed || (lastEmittedDisplayLength s =? 0)%nat)
      then mkStreaming fullText' (fullThinking s) (toolCalls s)
             (if throttleElapsed then now else lastProgressUpdate s)
             (lastThinkingUpdate s)
             (String.length displaySoFar) (lastEmittedThinkingLength s)
             true (shown s ++ [markdownContent delta])
      else mkStreaming fullText' (fullThinking s) (toolCalls s)
             (lastProgressUpdate s) (lastThinkingUpdate s)
             (lastEmittedDisplayLength s) (lastEmittedThinkingLength s)
             (emittedAny s) (shown s)
  | PartThinking value =>
      if thinkingTruthy value
      then
        let fullThinking' := fullThinking s +:+ thinkingChunk value in
        let thinkingDelta := slice (lastEmittedThinkingLength s) fullThinking' in
        if nonEmpty thinkingDelta
           && ((PROGRESS_UPDATE_INTERVAL <? now - lastThinkingUpdate s)
               || (lastEmittedThinkingLength s =? 0)%nat)
        then mkStreaming (fullText s) fullThinking' (toolCalls s)
               (lastProgressUpdate s) now
               (lastEmittedDisplayLength s) (String.length fullThinking')
               (emittedAny s) (shown s ++ [thinking thinkingDelta])
        else mkStreaming (fullText s) fullThinking' (toolCalls s)
               (lastProgressUpdate s) (lastThinkingUpdate s)
               (lastEmittedDisplayLength s) (lastEmittedThinkingLength s)
               (emittedAny s) (shown s)
      else s
  | PartToolUse tu =>
      mkStreaming (fullText s) (fullThinking s) (toolCalls s ++ [tu])
        (lastProgressUpdate s) (lastThinkingUpdate s)
        (lastEmittedDisplayLength s) (lastEmittedThinkingLength s)
        (emittedAny s) (shown s)
  | PartOther => s
  end.

(** [for await (const part of response.stream)]: the second component tells
    whether the loop was left through the [break] of line 114. *)
Fixpoint consume (s : Streaming Json) (arrivals : list (Arrival Json))
  : Streaming Json * bool :=
  match arrivals with
  | [] => (s, false)
  | a :: rest =>
      if cancelSeen a then (s, true)
      else consume (foldl onPart s (parts a)) rest
  end.

(** Lines 157-183: the last thinking delta and the last display delta. *)
Definition flush (s : Streaming Json) : Streaming Json :=
  let finalThinkingDelta := slice (lastEmittedThinkingLength s) (fullThinking s) in
  let shown1 := if nonEmpty finalThinkingDelta
                then shown s ++ [thinking finalThinkingDelta] else shown s in
  let displayText := if includes TASK_COMPLETE_SIGNAL (fullText s)
                     then stripSignal (fullText s) else fullText s in
  let finalDelta := slice (lastEmittedDisplayLength s) displayText in
  if nonEmpty finalDelta
  then mkStreaming (fullText s) (fullThinking s) (toolCalls s)
         (lastProgressUpdate s) (lastThinkingUpdate s)
         (lastEmittedDisplayLength s) (lastEmittedThinkingLength s)
         true (shown1 ++ [markdownContent finalDelta])
  else if (0 <? String.length displayText)%nat && (lastEmittedDisplayLength s =? 0)%nat
  then mkStreaming (fullText s) (fullThinking s) (toolCalls s)
         (lastProgressUpdate s) (lastThinkingUpdate s)
         (lastEmittedDisplayLength s) (lastEmittedThinkingLength s)
         true (shown1 ++ [markdownContent displayText])
  else mkStreaming (fullText s) (fullThinking s) (toolCalls s)
         (lastProgressUpdate s) (lastThinkingUpdate s)
         (lastEmittedDisplayLength s) (lastEmittedThinkingLength s)
         (emittedAny s) shown1.

(** What the loop has gathered from a response once the stream is over (or
    was left): lines 102-183. *)
Definition gather (r : Response Json) (hasEverEmitted0 : bool) : Streaming Json * bool :=
  consume (startStreaming r hasEverEmitted0) (stream r).

(** *** After the response (lines 187-254) *)

(** [assistantMessageContent] and the push of lines 200-205. *)
Definition assistantMessages (s : Streaming Json) : list (ChatMessage Json) :=
  let assistantMessageContent :=
    (if nonEmpty (fullText s) then [MsgText (fullText s)] else [])
    ++ map MsgToolUse (toolCalls s) in
  match assistantMessageContent with
  | [] => []
  | _ => [mkChatMessage Assistant assistantMessageContent]
  end.

(** [`${tc.name}:${JSON.stringify(tc.parameters || {})}`] *)
Definition paramsKey (tc : ToolUse Json) : string :=
  JSON_stringify (if truthy (parameters tc) then parameters tc else emptyObject).

Definition toolKey (tc : ToolUse Json) : string :=
  name tc +:+ ":" +:+ paramsKey tc.

(** Lines 239-242: push this round's keys, keep the last
    [REPEATED_TOOL_CALL_WINDOW]. *)
Definition slideWindow (recent thisRoundKeys : list string) : list string :=
  let pushed := recent ++ thisRoundKeys in
  if (REPEATED_TOOL_CALL_WINDOW <? length pushed)%nat
  then drop (length pushed - REPEATED_TOOL_CALL_WINDOW) pushed
  else pushed.

(** Lines 243-245. *)
Definition sameKeyCount (window thisRoundKeys : list string) : nat :=
  match thisRoundKeys with
  | first :: _ => length (filter (λ k, k = first) window)
  | [] => 0%nat
  end.

(** *** Executing the tools (lines 259-360) *)

(** [item.value?.mimeType?.startsWith('image/')] *)
Definition isImageMime (mimeType : option string) : bool :=
  match mimeType with Some m => String.prefix "image/" m | None => false end.

Definition imagePlaceholder : string :=
  "Image file — see the image in the next user message for vision.".

(** The text parts and the images that one item of a tool result adds. *)
Definition formatItem (item : ToolItem) : list string * list (MessagePart Json) :=
  match item with
  | ItemText value => ([value], [])
  | ItemData mimeType data =>
      if isImageMime mimeType
      then ([imagePlaceholder], [MsgImage (default "" mimeType) data])
      else ([], [])
  | ItemOther => ([], [])
  end.

Definition formatContent (items : list ToolItem) : list string * list (MessagePart Json) :=
  (flat_map (λ i, fst (formatItem i)) items, flat_map (λ i, snd (formatItem i)) items).

(** [`Error executing tool: ${error.message || error}`] *)
Definition toolErrorText (error : Thrown) : string :=
  "Error executing tool: " +:+
  (if truthyField (message error) then default "" (message error) else asString error).

(** The [tool_result] part and the images one tool call yields. *)
Definition toolResultOf (toolCall : ToolUse Json) (o : ToolOutcome)
  : MessagePart Json * list (MessagePart Json) :=
  match o with
  | ToolReturned content =>
      let '(texts, images) := formatContent (default [] content) in
      let resultContent :=
        match texts with
        | [] => ["Tool executed successfully (no output)"]
        | _ => texts
        end in
      (MsgToolResult (toolCallId toolCall) resultContent false, images)
  | ToolThrew error =>
      (MsgToolResult (toolCallId toolCall) [toolErrorText error] true, [])
  end.

(** [for (const toolCall of toolCalls)]: the calls are made one after the
    other; each sees the events up to its own dispatch. *)
Fixpoint executeTools (env : Env Json) (evs : list (Event Json))
    (calls : list (ToolUse Json))
  : list (Event Json) * list (MessagePart Json) * list (MessagePart Json) :=
  match calls with
  | [] => (evs, [], [])
  | toolCall :: rest =>
      let evs1 := evs ++ [EvInvokeTool toolCall] in
      let '(toolResult, images) := toolResultOf toolCall (invokeTool env evs toolCall) in
      let '(evs2, toolResults, imagePartsForVision) := executeTools env evs1 rest in
      (evs2, toolResult :: toolResults, images ++ imagePartsForVision)
  end.

(** Lines 343-360: the messages pushed after the tools have run. *)
Definition toolMessages (toolResults imagePartsForVision : list (MessagePart Json))
  : list (ChatMessage Json) :=
  (match toolResults with
   | [] => []
   | _ => [mkChatMessage User toolResults]
   end) ++
  (match imagePartsForVision with
   | [] => []
   | _ => [mkChatMessage User
             (MsgText "Image(s) from readFile — view below for vision:"
              :: imagePartsForVision)]
   end).

(** *** The loop *)

Definition progressEvents (l : list ChatProgress) : list (Event Json) :=
  map EvProgress l.

(** The [while] condition of line 80. *)
Definition loopCondition (env : Env Json) (st : LoopState Json) : bool :=
  (iterationCount st <? MAX_ITERATIONS (maxIterations env))%nat
  && negb (isCancellationRequested env (events st)).

(** Lines 187-362, once the response has been read and [response.result]
    has resolved. *)
Definition afterResponse (env : Env Json) (st : LoopState Json) (n : nat)
    (evs : list (Event Json)) (s : Streaming Json) : Step Json :=
  let conversation := conversationMessages st ++ assistantMessages s in
  match toolCalls s with
  | [] =>
      if includes TASK_COMPLETE_SIGNAL (fullText s)
      then Break Completed
             (mkLoopState n (consecutiveNoCompleteCount st) (emittedAny s)
                conversation (recentToolKeys st) evs)
      else
        let count := S (consecutiveNoCompleteCount st) in
        if (2 <=? count)%nat
        then Break Silence
               (mkLoopState n count (emittedAny s) conversation (recentToolKeys st) evs)
        else Continue
               (mkLoopState n count (emittedAny s)
                  (conversation ++ [nudgeMessage]) (recentToolKeys st) evs)
  | _ :: _ =>
      let thisRoundKeys := map toolKey (toolCalls s) in
      let window := slideWindow (recentToolKeys st) thisRoundKeys in
      if (REPEATED_TOOL_CALL_THRESHOLD <=? sameKeyCount window thisRoundKeys)%nat
      then Break Repetition
             (mkLoopState n 0 (emittedAny s) conversation window
                (evs ++ [EvProgress (markdownContent repetitionNote)]))
      else
        let '(evs', toolResults, imagePartsForVision) :=
          executeTools env evs (toolCalls s) in
        Continue
          (mkLoopState n 0 (emittedAny s)
             (conversation ++ toolMessages toolResults imagePartsForVision)
             window evs')
  end.

(** One pass through the body of the [while] loop (lines 81-362). *)
Definition iteration (env : Env Json) (st : LoopState Json) : Step Json :=
  let n := S (iterationCount st) in
  let evs := events st ++ [EvRequest (conversationMessages st)] in
  let failed e evs' emitted' :=
    Throw e (mkLoopState n (consecutiveNoCompleteCount st) emitted'
               (conversationMessages st) (recentToolKeys st) evs') in
  match sendChatRequest env (events st) (conversationMessages st) with
  | RequestThrew e => failed e evs (hasEverEmitted st)
  | RequestSent r =>
      let '(s, leftEarly) := gather r (hasEverEmitted st) in
      match (if leftEarly then None else streamError r) with
      | Some e => failed e (evs ++ progressEvents (shown s)) (emittedAny s)
      | None =>
          let s' := flush s in
          let evs' := evs ++ progressEvents (shown s') in
          match result r with
          | Some e => failed e evs' (emittedAny s')
          | None => afterResponse env st n evs' s'
          end
      end
  end.

(** Lines 365-381: the notes after the loop. *)
Definition epilogue (env : Env Json) (st : LoopState Json) : LoopState Json :=
  let limit := (MAX_ITERATIONS (maxIterations env) <=? iterationCount st)%nat in
  let silent := (2 <=? consecutiveNoCompleteCount st)%nat in
  let note :=
    if limit || silent
    then if silent && negb (hasEverEmitted st)
         then [EvProgress (markdownContent noResponseNote)]
         else if limit
              then [EvProgress (markdownContent iterationLimitNote)]
              else []
    else [] in
  mkLoopState (iterationCount st) (consecutiveNoCompleteCount st) (hasEverEmitted st)
    (conversationMessages st) (recentToolKeys st) (events st ++ note).

(** The [while] loop followed by the epilogue.  [fuel] bounds the number of
    passes; [None] means the bound was too small. *)
Fixpoint loop (env : Env Json) (fuel : nat) (st : LoopState Json)
  : option (RunResult Json) :=
  if loopCondition env st
  then match fuel with
       | O => None
       | S fuel' =>
           match iteration env st with
           | Continue st' => loop env fuel' st'
           | Break reason st' => Some (mkRunResult (ExitBreak reason) (epilogue env st'))
           | Throw e st' => Some (mkRunResult (ExitThrow e) st')
           end
       end
  else Some (mkRunResult ExitCondition (epilogue env st)).

(** The state at line 69. *)
Definition initialState (messages : list (ChatMessage Json)) : LoopState Json :=
  mkLoopState 0 0 false messages [] [].

(** [UnifiedAgent.run] *)
Definition run (env : Env Json) (messages : list (ChatMessage Json))
  : option (RunResult Json) :=
  loop env (MAX_ITERATIONS (maxIterations env)) (initialState messages).

(** Counting what a run did. *)
Definition requestCount (evs : list (Event Json)) : nat :=
  length (filter (λ e : Event Json, isRequest e = true) evs).

Definition invocationCount (evs : list (Event Json)) : nat :=
  length (filter (λ e : Event Json, isInvokeTool e = true) evs).

End Loop.

End Agent.

(* ===================================================================== *)
(** ** The auto-summarizer of [LoCoPilotBuiltInAgent]                     *)
(* ===================================================================== *)

Module Compactor.
Import Agent.

(** The three fractions are decimal literals in the source.  They are read
    as exact rationals here.  The products and quotients the code rounds are
    those of an integer below 2^40 with [0.1] or [0.9], or an integer divided
    by [4]: in double precision [n * 0.1] is the integer [n / 10] whenever
    [10] divides [n], [n * 0.9] is the integer [9 * (n / 10)] in that case,
    and otherwise the product is at least [1/10] away from every integer; so
    [Math.ceil], [Math.floor] and [>=] against an integer give the same
    answer on the double as on the rational. *)

(** Threshold: trigger summarization when conversation tokens >= this
    fraction of max input tokens. *)
Definition AUTO_SUMMARIZE_THRESHOLD : QArith_base.Q := QArith_base.Qmake 9 10.

(** Fraction of history entries to keep as recent (not summarized). *)
Definition RECENT_HISTORY_FRACTION : QArith_base.Q := QArith_base.Qmake 1 10.

(** Target summary length as fraction of max input tokens. *)
Definition SUMMARY_LENGTH_FRACTION : QArith_base.Q := QArith_base.Qmake 1 10.

(** [Math.ceil] and [Math.floor] *)
Definition Math_ceil (x : QArith_base.Q) : Z := Qround.Qceiling x.
Definition Math_floor (x : QArith_base.Q) : Z := Qround.Qfloor x.

(** The fields of [IChatAgentRequest] the summarizer touches; [req_rest]
    stands for all the others, which the spread copies. *)
Record AgentRequest := mkAgentRequest {
  req_message : option string;
  req_variables : list string;
  req_rest : string
}.

(** [IChatAgentHistoryEntry]; [h_result = None] is the empty result [{}]. *)
Record HistoryEntry := mkHistoryEntry {
  h_request : AgentRequest;
  h_response : list ChatProgress;
  h_result : option string
}.

Definition summaryMessage : string := "[Earlier conversation summary]".

(** [lines.join(sep)] *)
Fixpoint join (sep : string) (lines : list string) : string :=
  match lines with
  | [] => ""
  | [l] => l
  | l :: rest => l +:+ sep +:+ join sep rest
  end.

(** [historyEntriesToTranscript] *)
Definition assistantPartsOf (response : list ChatProgress) : list string :=
  flat_map (λ r, match r with
                 | markdownContent value => [value]
                 | progressMessage content => [content]
                 | _ => []
                 end) response.

Definition historyEntriesToTranscript (entries : list HistoryEntry) : string :=
  join (newline +:+ newline)
    (flat_map (λ h,
       ("User: " +:+ default "" (req_message (h_request h)))
       :: match assistantPartsOf (h_response h) with
          | [] => []
          | assistantParts =>
              ["Assistant: " +:+ join (newline +:+ newline) assistantParts]
          end) entries).

Section Summarizer.
Context {Json : Type} `{!JsonValue Json}.

(** The collaborators of one turn: the provider's token counter, the chat
    request the summarizer sends (as a function of the transcript and of the
    token cap that its prompt is built from), the token as read at line 1120,
    the message builder and the agent loop. *)
Record Env := mkEnv {
  computeTokenLength : ChatMessage Json → Thrown + Z;
  sendSummaryRequest : string → Z → RequestOutcome Json;
  cancelledAfterSummary : bool;
  buildMessages : list HistoryEntry → list (ChatMessage Json);
  unifiedAgent_run : list (ChatMessage Json) → option Thrown
}.

(** *** [computeTotalTokenCount] *)

(** The [try] block: the running [total], and where it stood if
    [computeTokenLength] threw. *)
Fixpoint countWithProvider (env : Env) (total : Z) (messages : list (ChatMessage Json))
  : Thrown * Z + Z :=
  match messages with
  | [] => inr total
  | msg :: rest =>
      match computeTokenLength env msg with
      | inr n => countWithProvider env (total + n) rest
      | inl e => inl (e, total)
      end
  end.

(** [msg.content.map(p => p.type === 'text' ? p.value : '').join('')] *)
Definition textOf (msg : ChatMessage Json) : string :=
  fold_right String.append ""
    (map (λ p, match p with MsgText value => value | _ => "" end) (content msg)).

(** [Math.ceil(text.length / 4)] *)
Definition charEstimate (msg : ChatMessage Json) : Z :=
  Math_ceil (QArith_base.Qmake (Z.of_nat (String.length (textOf msg))) 4).

(** The [catch] block: the estimate of every message is added to [total]. *)
Definition addCharEstimates (total : Z) (messages : list (ChatMessage Json)) : Z :=
  foldl (λ t msg, t + charEstimate msg) total messages.

Definition computeTotalTokenCount (env : Env) (messages : list (ChatMessage Json)) : Z :=
  let total := 0 in
  match countWithProvider env total messages with
  | inr total' => total'
  | inl (_, total') => addCharEstimates total' messages
  end.

(** *** [summarizeHistoryEntries] *)

(** The text parts of everything the stream yields, concatenated. *)
Definition summaryOf (r : Response Json) : string :=
  fold_right String.append ""
    (flat_map (λ a, flat_map (λ timed, match fst timed with
                                       | PartText value => [value]
                                       | _ => []
                                       end) (parts a)) (stream r)).

Definition summarizeHistoryEntries (env : Env) (oldEntries : list HistoryEntry)
    (maxSummaryTokens : Z) : Thrown + string :=
  match sendSummaryRequest env (historyEntriesToTranscript oldEntries) maxSummaryTokens with
  | RequestThrew e => inl e
  | RequestSent r =>
      match streamError r with
      | Some e => inl e
      | None =>
          match result r with
          | Some e => inl e
          | None => inr (trim (summaryOf r))
          end
      end
  end.

(** *** [getHistoryWithSummarizationIfNeeded] *)

(** [history.slice(-keepCount)] for [0 < keepCount] *)
Definition lastEntries (keepCount : nat) (history : list HistoryEntry) : list HistoryEntry :=
  drop (length history - keepCount) history.

Definition keepCountOf (history : list HistoryEntry) : nat :=
  Z.to_nat (Z.max 1 (Math_ceil (QArith_base.Qmult (QArith_base.inject_Z (Z.of_nat (length history)))
                                      RECENT_HISTORY_FRACTION))).

(** [history.slice(0, history.length - keepCount)] *)
Definition oldEntriesOf (history : list HistoryEntry) : list HistoryEntry :=
  take (length history - keepCountOf history) history.

(** [Math.max(100, Math.floor(maxInputTokens * SUMMARY_LENGTH_FRACTION))] *)
Definition maxSummaryTokensOf (maxInputTokens : Z) : Z :=
  Z.max 100 (Math_floor (QArith_base.Qmult (QArith_base.inject_Z maxInputTokens)
                           SUMMARY_LENGTH_FRACTION)).

Definition summaryEntryOf (firstRequest : AgentRequest) (summaryText : string)
  : HistoryEntry :=
  mkHistoryEntry
    (mkAgentRequest (Some summaryMessage) [] (req_rest firstRequest))
    [markdownContent summaryText]
    None.

Definition getHistoryWithSummarizationIfNeeded (env : Env)
    (history : list HistoryEntry) (maxInputTokens : Z)
  : Thrown + list HistoryEntry :=
  if (length history <=? 1)%nat then inr history
  else
    let keepCount := keepCountOf history in
    let recent := lastEntries keepCount history in
    let oldEntries := oldEntriesOf history in
    match oldEntries with
    | [] => inr history
    | first :: _ =>
        let maxSummaryTokens := maxSummaryTokensOf maxInputTokens in
        match summarizeHistoryEntries env oldEntries maxSummaryTokens with
        | inl e => inl e
        | inr summaryText =>
            if negb (nonEmpty summaryText) || cancelledAfterSummary env
            then inr history
            else inr (summaryEntryOf (h_request first) summaryText :: recent)
        end
    end.

(** *** The part of [invoke] around the summarizer (lines 1828-1850) *)

(** [totalTokens >= AUTO_SUMMARIZE_THRESHOLD * maxInputTokens && history.length > 1] *)
Definition summarizeNeeded (totalTokens maxInputTokens : Z) (history : list HistoryEntry)
  : bool :=
  QArith_base.Qle_bool (QArith_base.Qmult AUTO_SUMMARIZE_THRESHOLD (QArith_base.inject_Z maxInputTokens)) (QArith_base.inject_Z totalTokens)
  && (1 <? length history)%nat.

(** The compaction step as [invoke] performs it: the history the turn goes
    on with, or the exception that leaves the step. *)
Definition maybeCompact (env : Env) (history : list HistoryEntry) (maxInputTokens : Z)
  : Thrown + list HistoryEntry :=
  let messages := buildMessages env history in
  let totalTokens := computeTotalTokenCount env messages in
  if summarizeNeeded totalTokens maxInputTokens history
  then getHistoryWithSummarizationIfNeeded env history maxInputTokens
  else inr history.

(** What a turn came to: the messages the agent loop was started with (if
    it was started), the error that the [catch] block of [invoke] showed as
    [**Error calling model:** ...] before returning [{}] (if it ran), and the
    error the promise of [invoke] rejects with (if it does). *)
Record TurnResult := mkTurnResult {
  agentStartedWith : option (list (ChatMessage Json));
  errorShown : option Thrown;
  rejectedWith : option Thrown
}.

(** [modelMetadata?.maxInputTokens ?? 128000] and the [try]/[catch] around
    compaction and the start of the agent loop.  The promise of
    [unifiedAgent.run] is returned without being awaited, so the [catch]
    block sees what compaction throws but not what the agent loop throws. *)
Definition invokeTurn (env : Env) (history : list HistoryEntry)
    (metadataMaxInputTokens : option Z) : TurnResult :=
  let maxInputTokens := default 128000 metadataMaxInputTokens in
  match maybeCompact env history maxInputTokens with
  | inl e => mkTurnResult None (Some e) None
  | inr historyToUse =>
      let messages := buildMessages env historyToUse in
      mkTurnResult (Some messages) None (unifiedAgent_run env messages)
  end.

End Summarizer.

Arguments Env : clear implicits.
Arguments TurnResult : clear implicits.

End Compactor.

(* ===================================================================== *)
(** ** What the properties talk about                                     *)
(* ===================================================================== *)

(** The fragments of a tool call as they arrive, read off the stream
    itself rather than off the accumulator. *)
Module Fragments.
Import Provider.

(** Every element of every [delta.tool_calls], in arrival order. *)
Definition deltasOf (lines : list SseLine) : list ToolCallDelta :=
  flat_map (λ l, match l with
                 | LineDelta d => default [] (tool_calls d)
                 | LineIgnored => []
                 end) lines.

(** The argument fragments filed under [idx], in arrival order. *)
Definition fragmentsFor (idx : Z) (tcs : list ToolCallDelta) : list string :=
  flat_map (λ tc, if bool_decide (indexOf tc = idx)
                  then match tc_arguments tc with Some f => [f] | None => [] end
                  else []) tcs.

Definition concatFragments (idx : Z) (lines : list SseLine) : string :=
  fold_right String.append "" (fragmentsFor idx (deltasOf lines)).

(** Whether some fragment filed under [idx] carries a call id, or a
    function name. *)
Definition suppliesId (idx : Z) (lines : list SseLine) : bool :=
  existsb (λ tc, bool_decide (indexOf tc = idx) && truthyField (tc_id tc)) (deltasOf lines).

Definition suppliesName (idx : Z) (lines : list SseLine) : bool :=
  existsb (λ tc, bool_decide (indexOf tc = idx) && truthyField (tc_name tc)) (deltasOf lines).

(** What an accumulator holds under an index. *)
Definition argsAt (m : gmap Z Accumulated) (idx : Z) : string :=
  default "" (acc_args <$> m !! idx).
Definition idAt (m : gmap Z Accumulated) (idx : Z) : option string :=
  m !! idx ≫= acc_id.
Definition nameAt (m : gmap Z Accumulated) (idx : Z) : option string :=
  m !! idx ≫= acc_name.

Section Finalized.
Context {Json : Type} `{!JsonValue Json}.

(** The accumulator when the stream ends. *)
Definition accumulatedAtEnd (lines : list SseLine) : gmap Z Accumulated :=
  fst (onData (Json := Json) ∅ lines).

(** What the loop of [onEnd] emits when it reaches [idx]. *)
Definition finalizedAt (lines : list SseLine) (idx : Z) : option (ResponsePart Json) :=
  accumulatedAtEnd lines !! idx ≫= finalize.

End Finalized.
End Fragments.

(** The complete response an iteration of the agent loop works with. *)
Module Responses.
Import Agent.

Section Responds.
Context {Json : Type} `{!JsonValue Json}.

(** The request sent from [st] is answered, its stream is read to the end
    (or left on cancellation) without an error, [response.result] resolves,
    and [s] holds what lines 102-183 gathered. *)
Definition responds (env : Env Json) (st : LoopState Json) (s : Streaming Json) : Prop :=
  ∃ r, sendChatRequest env (events st) (conversationMessages st) = RequestSent r
       ∧ (if snd (gather r (hasEverEmitted st)) then None else streamError r) = None
       ∧ result r = None
       ∧ s = flush (fst (gather r (hasEverEmitted st))).

(** A response of plain text: no tool call and no completion marker. *)
Definition plainText (s : Streaming Json) : Prop :=
  toolCalls s = [] ∧ includes TASK_COMPLETE_SIGNAL (fullText s) = false.

(** A model that answers every request, without an error, with at least
    one tool call. *)
Definition alwaysCallsTool (env : Env Json) : Prop :=
  ∀ evs conversation, ∃ r,
    sendChatRequest env evs conversation = RequestSent r
    ∧ streamError r = None ∧ result r = None
    ∧ ∀ emitted0, toolCalls (fst (gather r emitted0)) ≠ [].

(** A model that never writes the completion marker. *)
Definition neverCompletes (env : Env Json) : Prop :=
  ∀ evs conversation r emitted0,
    sendChatRequest env evs conversation = RequestSent r →
    includes TASK_COMPLETE_SIGNAL (fullText (fst (gather r emitted0))) = false.

Definition neverCancelled (env : Env Json) : Prop :=
  ∀ evs, isCancellationRequested env evs = false.

End Responds.
End Responses.

(** What the [catch] block of [_doSendChatRequest] is meant to recognise. *)
Module Cancellation.




End Cancellation.

(* ===================================================================== *)
(** ** Sample inputs                                                      *)
(* ===================================================================== *)

Module Samples.
Import Provider Agent Compactor Fragments.

(** Flat objects with string fields are all the examples need. *)
Inductive SampleJson := SampleObject (fields : list (string * string)).

Definition quote : string := String (Ascii.ascii_of_nat 34) EmptyString.

(** The JSON text of the object whose field [path] is the string [.] *)
Definition pathDotText : string :=
  "{" +:+ quote +:+ "path" +:+ quote +:+ ":" +:+ quote +:+ "." +:+ quote +:+ "}".

(** Its first six characters: not valid JSON. *)
Definition partialText : string := "{" +:+ quote +:+ "path".

Definition stringifyField (kv : string * string) : string :=
  quote +:+ fst kv +:+ quote +:+ ":" +:+ quote +:+ snd kv +:+ quote.

(** [JSON.parse] on the texts the examples use, [JSON.stringify] on flat
    objects whose strings need no escaping. *)
#[export] Instance sampleJson : JsonValue SampleJson := {|
  JSON_parse s :=
    if String.eqb s "{}" then Some (SampleObject [])
    else if String.eqb s pathDotText then Some (SampleObject [("path", ".")])
    else None;
  JSON_stringify v :=
    match v with
    | SampleObject fields => "{" +:+ Compactor.join "," (map stringifyField fields) +:+ "}"
    end;
  emptyObject := SampleObject [];
  truthy _ := true
|}.

(** *** Streams for the adapter *)

Definition fragment (idx : Z) (id nm : option string) (args : string) : SseLine :=
  LineDelta (mkChoiceDelta None None
               (Some [mkToolCallDelta (Some idx) id nm (Some args)])).

(** A call whose arguments arrive in three fragments. *)
Definition splitCall : list SseLine :=
  [ fragment 0 (Some "call_1") (Some "listDirectory") ("{" +:+ quote +:+ "pa");
    LineDelta (mkChoiceDelta (Some "Looking") None None);
    fragment 0 None None ("th" +:+ quote +:+ ":");
    fragment 0 None None (quote +:+ "." +:+ quote +:+ "}") ].

(** A call whose arguments stop in the middle of a key. *)
Definition truncatedCall : list SseLine :=
  [ fragment 0 (Some "call_1") (Some "readFile") partialText ].

(** A call that never gets its function name, next to a complete one. *)
Definition namelessCall : list SseLine :=
  [ fragment 0 (Some "call_1") None pathDotText;
    fragment 1 (Some "call_2") (Some "listDirectory") pathDotText ].

(** *** Models and tools for the agent loop *)

Definition okTool : list (Event SampleJson) → ToolUse SampleJson → ToolOutcome :=
  λ _ _, ToolReturned (Some [ItemText "ok"]).

Definition never : list (Event SampleJson) → bool := λ _, false.

Definition respondWith (ps : list (ResponsePart SampleJson)) : RequestOutcome SampleJson :=
  RequestSent (mkResponse 0 0 [mkArrival false (map (λ p, (p, 0)) ps)] None None).

Definition listDot : ToolUse SampleJson :=
  mkToolUse "listDirectory" "call_1" (SampleObject [("path", ".")]).

(** A model that asks for the same call every time. *)
Definition stubbornEnv : Agent.Env SampleJson :=
  Agent.mkEnv None never (λ _ _, respondWith [PartToolUse listDot]) okTool.

(** A model that asks for a different call every time: the tool name grows
    with the conversation. *)
Definition tally (n : nat) : string :=
  fold_right String.append "" (replicate n "t").

Definition busyEnv (maxIterations : option Z) : Agent.Env SampleJson :=
  Agent.mkEnv maxIterations never
    (λ _ conversation,
       respondWith [PartToolUse (mkToolUse (tally (length conversation)) "call"
                                   (SampleObject []))])
    okTool.

(** A model that only ever writes plain text. *)
Definition chattyEnv : Agent.Env SampleJson :=
  Agent.mkEnv None never (λ _ _, respondWith [PartText "Let me think."]) okTool.

(** A model that lists the directory once and then finishes. *)
Definition finishingEnv : Agent.Env SampleJson :=
  Agent.mkEnv None never
    (λ evs _, if bool_decide (invocationCount evs = 0%nat)
              then respondWith [PartToolUse listDot]
              else respondWith [PartText "Done. [TASK_COMPLETE]"])
    okTool.

Definition userSays (text : string) : ChatMessage SampleJson :=
  mkChatMessage User [MsgText text].

Definition listFiles : list (ChatMessage SampleJson) :=
  [mkChatMessage System [MsgText "You are an agent."]; userSays "list files"].

(** The state one pass of the loop body leads to, and what that pass
    gathered from the model's answer. *)
Definition next (env : Agent.Env SampleJson) (st : LoopState SampleJson)
  : LoopState SampleJson :=
  stateOf (iteration env st).

Definition responseOf (o : RequestOutcome SampleJson) : Response SampleJson :=
  match o with
  | RequestSent r => r
  | RequestThrew _ => mkResponse 0 0 [] None None
  end.

Definition gathered (env : Agent.Env SampleJson) (st : LoopState SampleJson)
  : Streaming SampleJson :=
  let r := responseOf (sendChatRequest env (events st) (conversationMessages st)) in
  flush (fst (gather r (hasEverEmitted st))).

(** *** Histories and summarizers *)

Definition entry (question answer : string) : HistoryEntry :=
  mkHistoryEntry (mkAgentRequest (Some question) ["file.ts"] "request")
    [markdownContent answer] (Some "done").

Definition threeEntries : list HistoryEntry :=
  [entry "q1" "a1"; entry "q2" "a2"; entry "q3" "a3"].

Definition twelveEntries : list HistoryEntry :=
  threeEntries ++ threeEntries ++ threeEntries ++ threeEntries.

(** One message for each entry; the provider counts 1000 tokens for each. *)
Definition messagesOf (history : list HistoryEntry) : list (ChatMessage SampleJson) :=
  map (λ h, userSays (default "" (req_message (h_request h)))) history.

Definition summarizerEnv (summary : RequestOutcome SampleJson) (cancelled : bool)
  : Compactor.Env SampleJson :=
  Compactor.mkEnv (λ _, inr 1000) (λ _ _, summary) cancelled messagesOf (λ _, None).

Definition rateLimited : Thrown :=
  newError "Rate limit exceeded for OpenAI. Please try again in a few moments.".

(** A provider whose token counter works for the first message only. *)
Definition firstOnlyEnv : Compactor.Env SampleJson :=
  Compactor.mkEnv
    (λ msg, if bool_decide (textOf msg = "abcd") then inr 100 else inl rateLimited)
    (λ _ _, respondWith []) false messagesOf (λ _, None).

End Samples.

(* ===================================================================== *)
(** ** Further units                                                    *)
(* ===================================================================== *)

(** ** What the further properties of the agent loop talk about *)

Module Gateway.
Import Agent.

(** Whether a tool call ended in an exception. *)
Definition threw (o : ToolOutcome) : bool :=
  match o with ToolThrew _ => true | ToolReturned _ => false end.

(** The [toolCallId] of a [tool_result] part, of a [tool_use] part. *)
Definition resultIdOf {Json} (p : MessagePart Json) : option string :=
  match p with MsgToolResult id _ _ => Some id | _ => None end.

Definition useIdOf {Json} (p : MessagePart Json) : option string :=
  match p with MsgToolUse tu => Some (toolCallId tu) | _ => None end.

(** The ids of the tool calls a run dispatched, in order. *)
Definition invokedIds {Json} (evs : list (Event Json)) : list string :=
  omap (λ e, match e with EvInvokeTool call => Some (toolCallId call) | _ => None end) evs.

(** The ids of the [tool_result] parts of a conversation, in order. *)
Definition resultIds {Json} (conversation : list (ChatMessage Json)) : list string :=
  flat_map (λ m, omap resultIdOf (content m)) conversation.

(** The events a run has when the [i]-th call of a round is dispatched. *)
Definition eventsBefore {Json} (evs : list (Event Json)) (calls : list (ToolUse Json))
    (i : nat) : list (Event Json) :=
  evs ++ map EvInvokeTool (take i calls).

(** A model that is cancelled from the start. *)
Definition cancelledEnv : Env Samples.SampleJson :=
  Agent.mkEnv None (λ _, true)
    (λ _ _, Samples.respondWith [PartToolUse Samples.listDot]) Samples.okTool.

(** A tool service whose [readFile] fails. *)
Definition brokenReadEnv : Env Samples.SampleJson :=
  Agent.mkEnv None Samples.never
    (λ _ _, Samples.respondWith [PartToolUse Samples.listDot])
    (λ _ call, if String.eqb (name call) "readFile"
               then ToolThrew (newError "ENOENT")
               else ToolReturned (Some [])).

Definition readMissing : ToolUse Samples.SampleJson :=
  mkToolUse "readFile" "call_7" (Samples.SampleObject [("path", "missing.txt")]).

(** A model that finishes at once. *)
Definition doneEnv (maxIterations : option Z) : Env Samples.SampleJson :=
  Agent.mkEnv maxIterations Samples.never
    (λ _ _, Samples.respondWith [PartText "Done. [TASK_COMPLETE]"]) Samples.okTool.

(** A response whose second arrival finds the token cancelled. *)
Definition interrupted : Response Samples.SampleJson :=
  mkResponse 0 0
    [mkArrival false [(PartToolUse Samples.listDot, 0)];
     mkArrival true [(PartToolUse readMissing, 0)]]
    None None.

Definition interruptedEnv : Env Samples.SampleJson :=
  Agent.mkEnv None Samples.never (λ _ _, RequestSent interrupted) Samples.okTool.

(** Two complete calls whose fragments arrive with the higher index first. *)
Definition readAll : ToolUse Samples.SampleJson :=
  mkToolUse "readFile" "call_2" (Samples.SampleObject []).

Definition twoCalls : list Provider.SseLine :=
  [ Samples.fragment 1 (Some "call_2") (Some "readFile") "{}";
    Samples.fragment 0 (Some "call_1") (Some "listDirectory") Samples.pathDotText ].

End Gateway.

(** ** More JavaScript primitives *)

Module JsNumber.

(** [String(n)] for an integer [n]. *)
Definition toString (n : Z) : string :=
  DecimalString.NilZero.string_of_int (Z.to_int n).

(** The value of a decimal digit. *)
Definition digitValue (c : Ascii.ascii) : option Z :=
  let n := Ascii.nat_of_ascii c in
  if ((48 <=? n) && (n <=? 57))%nat then Some (Z.of_nat n - 48) else None.

(** The digits at the head of [s], read as a number continuing [acc];
    [None] when [s] does not start with a digit and [seen] is false. *)
Fixpoint readDigits (seen : bool) (acc : Z) (s : string) : option Z :=
  match s with
  | EmptyString => if seen then Some acc else None
  | String c rest =>
      match digitValue c with
      | Some d => readDigits true (10 * acc + d) rest
      | None => if seen then Some acc else None
      end
  end.

(** [parseInt(s, 10)]: leading white space is skipped, a sign may follow,
    then the longest run of digits is read; [None] is [NaN]. *)
Definition parseInt (s : string) : option Z :=
  match trimStart s with
  | String c rest =>
      if Ascii.eqb c (Ascii.ascii_of_nat 45) then Z.opp <$> readDigits false 0 rest
      else if Ascii.eqb c (Ascii.ascii_of_nat 43) then readDigits false 0 rest
      else readDigits false 0 (String c rest)
  | EmptyString => None
  end.

End JsNumber.

(** ** [locopilotLanguageModelProvider.ts], continued *)

Module ApiErrors.
Import JsNumber.

(** [_getApiErrorMessage] *)
Definition _getApiErrorMessage (provider : string) (statusCode : Z) : string :=
  if statusCode =? 400 then
    let example :=
      if String.eqb provider "Google" then "gemini-2.0-flash"
      else if String.eqb provider "OpenAI" then "gpt-4o"
      else "claude-sonnet-4-5-20250929" in
    "Invalid request for " +:+ provider +:+ ". Please check your model name (e.g. "
    +:+ example +:+ ") and that it's valid for this provider."
  else if statusCode =? 401 then
    "Invalid or missing API key for " +:+ provider
    +:+ ". Please check your API key in LoCoPilot model settings."
  else if statusCode =? 403 then
    "Access denied for " +:+ provider
    +:+ ". Your API key may not have permission to use this model."
  else if statusCode =? 404 then
    if String.eqb provider "Ollama"
    then "Model not found in Ollama. Please make sure you have pulled the model (e.g., 'ollama pull llama3') or added it in LoCoPilot Settings."
    else "Resource not found for " +:+ provider +:+ "."
  else if statusCode =? 429 then
    "Rate limit exceeded for " +:+ provider +:+ ". Please try again in a few moments."
  else if (statusCode =? 500) || (statusCode =? 502) || (statusCode =? 503) then
    if String.eqb provider "Ollama"
    then "Ollama server is not responding. Please make sure Ollama is installed and running (http://localhost:11434). You can download it from ollama.com."
    else provider +:+ " service is temporarily unavailable. Please try again later."
  else
    "Something went wrong while calling " +:+ provider +:+ " (error "
    +:+ toString statusCode +:+ "). Please try again.".

(** The provider names the adapters pass to [_getApiErrorMessage]
    (lines 251, 369, 513 and 881). *)
Definition providerLabels : list string := ["OpenAI"; "Anthropic"; "Google"; "Ollama"].

(** [c] is one of the characters of [s]. *)
Fixpoint occursIn (c : Ascii.ascii) (s : string) : bool :=
  match s with
  | EmptyString => false
  | String x rest => Ascii.eqb c x || occursIn c rest
  end.

(** No character of [d] occurs in [needle]. *)
Fixpoint foreignTo (needle d : string) : bool :=
  match d with
  | EmptyString => true
  | String c rest => negb (occursIn c needle) && foreignTo needle rest
  end.

(** The characters of a decimal numeral: the digits and the minus sign. *)
Definition decimalChar (c : Ascii.ascii) : bool :=
  let n := Ascii.nat_of_ascii c in
  ((n =? 45) || ((48 <=? n) && (n <=? 57)))%nat.

Fixpoint allChars (P : Ascii.ascii → bool) (s : string) : bool :=
  match s with
  | EmptyString => true
  | String c rest => P c && allChars P rest
  end.

End ApiErrors.

(** *** The stream of the Anthropic adapter *)

Module Anthropic.

(** [json.delta] of a [content_block_delta] event. *)
Inductive BlockDelta :=
| TextDelta (text : string)
| ThinkingDelta (thinkingText : string)
| InputJsonDelta (partial_json : string)
| OtherDelta.

(** A decoded [data: ] line, by [json.type]. *)
Inductive StreamEvent :=
| ContentBlockDelta (delta : BlockDelta)
| ToolUseBlockStart (id name : string)   (* content_block_start of a tool_use block *)
| ContentBlockStop
| OtherEvent.                            (* any other event, or a line that does not parse *)

(** [pendingToolUse] and [inputJsonAccum] (lines 375-376). *)
Record Pending := mkPending {
  pendingToolUse : option (string * string);
  inputJsonAccum : string
}.

Definition initial : Pending := mkPending None "".

Definition isStop (ev : StreamEvent) : bool :=
  match ev with ContentBlockStop => true | _ => false end.
Definition isStart (ev : StreamEvent) : bool :=
  match ev with ToolUseBlockStart _ _ => true | _ => false end.

(** The fragments of argument JSON among a block's deltas. *)
Definition partials (deltas : list BlockDelta) : list string :=
  flat_map (λ d, match d with InputJsonDelta p => [p] | _ => [] end) deltas.

Section Adapter.
Context {Json : Type} `{!JsonValue Json}.

(** Lines 406-413: the parameters of the tool call that is closed. *)
Definition parametersAtStop (accum : string) : Json :=
  if nonEmpty (trim accum)
  then match JSON_parse accum with
       | Some parsed => parsed
       | None => emptyObject
       end
  else emptyObject.

(** Lines 392-422: one event. *)
Definition onEvent (st : Pending) (ev : StreamEvent) : Pending * list (ResponsePart Json) :=
  match ev with
  | ContentBlockDelta (TextDelta text) => (st, [PartText text])
  | ContentBlockDelta (ThinkingDelta t) => (st, [PartThinking (ThinkingText t)])
  | ContentBlockDelta (InputJsonDelta p) =>
      (mkPending (pendingToolUse st) (inputJsonAccum st +:+ p), [])
  | ContentBlockDelta OtherDelta => (st, [])
  | ToolUseBlockStart id nm => (mkPending (Some (id, nm)) "", [])
  | ContentBlockStop =>
      match pendingToolUse st with
      | Some (id, nm) =>
          (mkPending None "",
           [PartToolUse (mkToolUse nm id (parametersAtStop (inputJsonAccum st)))])
      | None => (st, [])
      end
  | OtherEvent => (st, [])
  end.

Fixpoint onEvents (st : Pending) (evs : list StreamEvent)
  : Pending * list (ResponsePart Json) :=
  match evs with
  | [] => (st, [])
  | ev :: rest =>
      let '(st1, out1) := onEvent st ev in
      let '(st2, out2) := onEvents st1 rest in
      (st2, out1 ++ out2)
  end.

(** The promise of line 372: [onEnd] only resolves. *)
Definition listenAnthropic (evs : list StreamEvent) (close : Provider.StreamClose)
  : Provider.AdapterRun Json :=
  Provider.mkAdapterRun (onEvents initial evs).2
    match close with
    | Provider.CloseEnd => None
    | Provider.CloseError error => Some error
    end.

(** The text and thinking parts a block's deltas put on the stream. *)
Definition shownDeltas (deltas : list BlockDelta) : list (ResponsePart Json) :=
  flat_map (λ d, match d with
                 | TextDelta text => [PartText text]
                 | ThinkingDelta t => [PartThinking (ThinkingText t)]
                 | _ => []
                 end) deltas.

Definition toolUsesOf (ps : list (ResponsePart Json)) : list (ResponsePart Json) :=
  filter (λ p, isToolUse p = true) ps.

End Adapter.
End Anthropic.

(** *** The two cloud adapters, from the HTTP response on *)

Module Calls.
Import Provider ApiErrors Anthropic.

(** What [requestService.request] resolved with: [res.statusCode], which may
    be [undefined], and the stream, as its decoded lines and the way it
    closes. *)
Record HttpResponse (Line : Type) := mkHttpResponse {
  statusCode : option Z;
  lines : list Line;
  close : StreamClose
}.
Arguments mkHttpResponse {Line}.
Arguments statusCode {Line}.
Arguments lines {Line}.
Arguments close {Line}.

Section Adapter.
Context {Json : Type} `{!JsonValue Json}.

(** [_callOpenAI] from line 250 on: the status test, then the listener. *)
Definition _callOpenAI (response : HttpResponse SseLine) : AdapterRun Json :=
  if bool_decide (statusCode response ≠ Some 200)
  then mkAdapterRun []
         (Some (newError (_getApiErrorMessage "OpenAI" (default 0 (statusCode response)))))
  else listenOpenAI (lines response) (close response).

(** [_callAnthropic] from line 368 on. *)
Definition _callAnthropic (response : HttpResponse StreamEvent) : AdapterRun Json :=
  if bool_decide (statusCode response ≠ Some 200)
  then mkAdapterRun []
         (Some (newError (_getApiErrorMessage "Anthropic" (default 0 (statusCode response)))))
  else listenAnthropic (lines response) (close response).

(** The first two branches of the [if] chain of lines 180-191, given the
    responses the two endpoints give; the other adapters are left open. *)
Definition adaptersFor (openai : HttpResponse SseLine) (anthropic : HttpResponse StreamEvent)
    (others : string → AdapterRun Json) (provider : string) : AdapterRun Json :=
  if String.eqb provider "openai" then _callOpenAI openai
  else if String.eqb provider "anthropic" then _callAnthropic anthropic
  else others provider.

End Adapter.
End Calls.

(** ** [LoCoPilotAgentSettingsService] and the settings editor *)

Module Settings.
Import JsNumber.

Definition DEFAULT_MAX_ITERATIONS : Z := 25.

(** The value stored under [STORAGE_KEY_MAX_ITERATIONS], if any. *)
Definition Storage := option string.

Definition clamp (n : Z) : Z := Z.min 100 (Z.max 1 n).

(** [getMaxIterationsPerRequest]: the number, and the storage afterwards
    (the default is persisted when nothing usable is stored). *)
Definition getMaxIterationsPerRequest (storage : Storage) : Z * Storage :=
  match storage with
  | None | Some EmptyString =>
      (DEFAULT_MAX_ITERATIONS, Some (toString DEFAULT_MAX_ITERATIONS))
  | Some stored =>
      (match parseInt stored with
       | None => DEFAULT_MAX_ITERATIONS
       | Some n => if n <? 1 then DEFAULT_MAX_ITERATIONS else clamp n
       end, storage)
  end.

(** [setMaxIterationsPerRequest] *)
Definition setMaxIterationsPerRequest (value : Z) (storage : Storage) : Storage :=
  let clamped := clamp value in
  Some (toString clamped).

(** The check at the top of [saveAgentSettings]: the number to store, or
    [None] when the error dialog is shown and nothing is saved. *)
Definition validatedIterations (input : string) : option Z :=
  let minIterations := 10 in
  let maxIterations := 500 in
  match parseInt (trim input) with
  | None => None
  | Some n => if (n <? minIterations) || (maxIterations <? n) then None else Some n
  end.

Definition saveAgentSettings (input : string) (storage : Storage) : option Storage :=
  match validatedIterations input with
  | None => None
  | Some n => Some (setMaxIterationsPerRequest n storage)
  end.

(** The limit of the [UnifiedAgent] that the built-in agent constructs from
    the settings (lines 998-999 of the agent, line 46 of [UnifiedAgent]). *)
Definition agentLimit (storage : Storage) : nat :=
  Agent.MAX_ITERATIONS (Some (getMaxIterationsPerRequest storage).1).

End Settings.

(** ** The provider's token count and its OpenAI messages *)

Module Wire.
Import Agent Compactor.

Section Provider.
Context {Json : Type} `{!JsonValue Json}.

(** [_mapContent] *)
Definition _mapContent (content : list (MessagePart Json)) : string :=
  fold_right String.append ""
    (map (λ p, match p with MsgText value => value | _ => "" end) content).

(** [provideTokenCount]; the message is a string or an [IChatMessage]. *)
Definition provideTokenCount (message : string + ChatMessage Json) : Z :=
  let text := match message with
              | inl s => s
              | inr m => _mapContent (content m)
              end in
  Math_ceil (QArith_base.Qmake (Z.of_nat (String.length text)) 4).

(** A token counter that is the provider's own [provideTokenCount]. *)
Definition countsWithProvider (env : Compactor.Env Json) : Prop :=
  ∀ msg, computeTokenLength env msg = inr (provideTokenCount (inr msg)).

(** The number of characters in the text parts of the messages. *)
Definition textLength (messages : list (ChatMessage Json)) : Z :=
  foldr Z.add 0 (map (λ m, Z.of_nat (String.length (textOf m))) messages).

Definition isImage (p : MessagePart Json) : bool :=
  match p with MsgImage _ _ => true | _ => false end.

(** *** [_mapMessageToOpenAI] *)

(** An element of a [content] array. *)
Inductive ContentPart :=
| TextPart (text : string)
| ImageUrlPart (url : string).

(** The [content] of a message: [null], a string or an array. *)
Inductive Content :=
| ContentNull
| ContentString (text : string)
| ContentParts (contentParts : list ContentPart).

(** An element of [tool_calls]; its [type] is always ['function']. *)
Record FunctionCall := mkFunctionCall {
  call_id : string;
  function_name : string;
  function_arguments : string
}.

(** A message of the request body: [{ role, content }] with or without
    [tool_calls], or [{ role: 'tool', tool_call_id, content }]. *)
Inductive ApiMessage :=
| RoleMessage (apiRole : string) (apiContent : Content)
    (tool_calls : option (list FunctionCall))
| ToolMessage (tool_call_id : string) (toolContent : string).

Definition toolCallIdsOf (m : ApiMessage) : list string :=
  match m with
  | RoleMessage _ _ (Some calls) => map call_id calls
  | _ => []
  end.

Definition answeredIdOf (m : ApiMessage) : option string :=
  match m with
  | ToolMessage id _ => Some id
  | RoleMessage _ _ _ => None
  end.

(** [_mapRole] *)
Definition _mapRole (role : ChatMessageRole) : string :=
  match role with
  | System => "system"
  | User => "user"
  | Assistant => "assistant"
  end.

Variable encodeBase64 : string → string.

Definition imageUrlOf (mimeType data : string) : ContentPart :=
  ImageUrlPart ("data:" +:+ mimeType +:+ ";base64," +:+ encodeBase64 data).

(** The [tool_calls] an assistant message contributes: the [tool_use] parts
    with a truthy id and name. *)
Definition functionCallsOf (content : list (MessagePart Json)) : list FunctionCall :=
  flat_map (λ part,
    match part with
    | MsgToolUse tu =>
        if nonEmpty (toolCallId tu) && nonEmpty (name tu)
        then [mkFunctionCall (toolCallId tu) (name tu) (paramsKey tu)]
        else []
    | _ => []
    end) content.

Definition _mapMessageToOpenAI (message : ChatMessage Json) : list ApiMessage :=
  let role := _mapRole (Agent.role message) in
  match Agent.role message with
  | Assistant =>
      let textContent := _mapContent (content message) in
      let toolCalls := functionCallsOf (content message) in
      let content := if nonEmpty (trim textContent)
                     then ContentString (trim textContent) else ContentNull in
      match toolCalls with
      | _ :: _ => [RoleMessage "assistant" content (Some toolCalls)]
      | [] =>
          [RoleMessage role
             (match content with ContentNull => ContentString "" | c => c end) None]
      end
  | User =>
      let textParts :=
        flat_map (λ part, match part with MsgText value => [value] | _ => [] end)
          (content message) in
      let imageParts :=
        flat_map (λ part, match part with
                          | MsgImage mimeType data => [imageUrlOf mimeType data]
                          | _ => []
                          end) (content message) in
      let toolResults :=
        flat_map (λ part, match part with
                          | MsgToolResult id value _ =>
                              [(id, fold_right String.append "" value)]
                          | _ => []
                          end) (content message) in
      let out :=
        match textParts, imageParts with
        | [], [] => []
        | _, [] => [RoleMessage "user" (ContentString (join newline textParts)) None]
        | [], _ => [RoleMessage "user" (ContentParts imageParts) None]
        | _, _ =>
            [RoleMessage "user"
               (ContentParts (TextPart (join newline textParts) :: imageParts)) None]
        end
        ++ map (λ tr, ToolMessage (fst tr) (snd tr)) toolResults in
      match out with
      | [] => [RoleMessage "user" (ContentString "") None]
      | _ => out
      end
  | System =>
      let contentParts :=
        flat_map (λ part, match part with
                          | MsgText value => [TextPart value]
                          | MsgImage mimeType data => [imageUrlOf mimeType data]
                          | _ => []
                          end) (content message) in
      match contentParts with
      | [TextPart text] => [RoleMessage role (ContentString text) None]
      | _ => [RoleMessage role (ContentParts contentParts) None]
      end
  end.

(** [messages.flatMap(m => this._mapMessageToOpenAI(m))] (line 217). *)
Definition mappedMessages (messages : list (ChatMessage Json)) : list ApiMessage :=
  flat_map _mapMessageToOpenAI messages.

End Provider.

End Wire.

Module MoreSamples.
Import Agent Compactor Wire Samples.

(** A turn whose token counter is the provider's [provideTokenCount]. *)
Definition ownCounterEnv : Compactor.Env SampleJson :=
  Compactor.mkEnv (λ msg, inr (provideTokenCount (inr msg)))
    (λ _ _, respondWith []) false messagesOf (λ _, None).

(** A turn whose token counter always fails. *)
Definition noCounterEnv : Compactor.Env SampleJson :=
  Compactor.mkEnv (λ _, inl rateLimited) (λ _ _, respondWith []) false messagesOf (λ _, None).

End MoreSamples.

(** ** What the user sees of the model's thinking *)

Module Display.
Import Agent.

(** The thinking text of a sequence of progress calls, as the chat model
    merges it: by appending. *)
Definition thinkingShown (l : list ChatProgress) : string :=
  fold_right String.append ""
    (flat_map (λ p, match p with thinking value => [value] | _ => [] end) l).

(** The thinking text of the parts of one arrival, of a whole stream. *)
Definition thinkingOfParts {Json} (ps : list (ResponsePart Json * Z)) : string :=
  fold_right String.append ""
    (flat_map (λ timed, match fst timed with
                        | PartThinking value => [thinkingChunk value]
                        | _ => []
                        end) ps).

Definition thinkingArrived {Json} (arrivals : list (Arrival Json)) : string :=
  fold_right String.append "" (map (λ a, thinkingOfParts (parts a)) arrivals).

Section Loop.
Context {Json : Type} `{!JsonValue Json}.

(** What has been shown of the thinking is the part of [fullThinking] up to
    [lastEmittedThinkingLength]; [arrived] is what came in so far. *)
Definition upToDate (arrived : string) (s : Streaming Json) : Prop :=
  fullThinking s = arrived
  ∧ ∃ rest, fullThinking s = thinkingShown (shown s) +:+ rest
            ∧ String.length (thinkingShown (shown s)) = lastEmittedThinkingLength s.

End Loop.

(** A response that thinks in three chunks before it answers. *)
Definition pondering : Response Samples.SampleJson :=
  mkResponse 0 0
    [mkArrival false [(PartThinking (ThinkingText "Let me "), 0);
                      (PartThinking (ThinkingArray ["lo"; "ok"]), 50)];
     mkArrival false [(PartThinking (ThinkingText "."), 500);
                      (PartText "ok", 600)]]
    None None.

End Display.

(** ** [_sanitizeSchemaForGoogle] *)

Module GoogleSchema.

(** A schema value.  The fields of an object are its own enumerable
    properties in the order of [Object.keys]; their keys are distinct. *)
#[local] Unset Elimination Schemes.
Inductive Schema :=
| SNull
| SPrimitive (text : string)   (* undefined, a boolean, a number, a string *)
| SArray (elements : list Schema)
| SObject (fields : list (string * Schema)).
#[local] Set Elimination Schemes.

(** [_GOOGLE_SCHEMA_KEYS] *)
Definition _GOOGLE_SCHEMA_KEYS : list string :=
  ["type"; "description"; "properties"; "required"; "items"; "enum"].

Definition allowedKey (key : string) : bool :=
  bool_decide (key ∈ _GOOGLE_SCHEMA_KEYS).

(** An assignment [sanitized[prop] = v] creates an own property unless
    [prop] is [__proto__], which sets or ignores the prototype instead. *)
Definition ownKey (prop : string) : bool := negb (String.eqb prop "__proto__").

(** [_sanitizeSchemaForGoogle]; [None] is the [TypeError] of
    [Object.keys(null)], which nothing catches. *)
Fixpoint _sanitizeSchemaForGoogle (schema : Schema) : option Schema :=
  match schema with
  | SNull => Some SNull
  | SPrimitive _ => Some schema
  | SArray elements =>
      SArray <$>
        (fix each (l : list Schema) : option (list Schema) :=
           match l with
           | [] => Some []
           | item :: rest =>
               match _sanitizeSchemaForGoogle item with
               | Some item' => cons item' <$> each rest
               | None => None
               end
           end) elements
  | SObject fields =>
      SObject <$>
        (fix keys (l : list (string * Schema)) : option (list (string * Schema)) :=
           match l with
           | [] => Some []
           | (key, val) :: rest =>
               if negb (allowedKey key) then keys rest
               else
                 let value :=
                   if String.eqb key "properties" then
                     match val with
                     | SNull => None
                     | SObject props =>
                         SObject <$>
                           (fix each (l : list (string * Schema))
                              : option (list (string * Schema)) :=
                              match l with
                              | [] => Some []
                              | (prop, propSchema) :: rest =>
                                  match _sanitizeSchemaForGoogle propSchema with
                                  | Some sanitized =>
                                      (if ownKey prop then cons (prop, sanitized) else id)
                                        <$> each rest
                                  | None => None
                                  end
                              end) props
                     | _ => Some val
                     end
                   else if String.eqb key "items" then
                     match val with
                     | SArray _ | SObject _ => _sanitizeSchemaForGoogle val
                     | _ => Some val
                     end
                   else Some val in
                 match value with
                 | Some v => cons (key, v) <$> keys rest
                 | None => None
                 end
           end) fields
  end.

(** The loops of the function, by name. *)
Fixpoint sanitizeElements (l : list Schema) : option (list Schema) :=
  match l with
  | [] => Some []
  | item :: rest =>
      match _sanitizeSchemaForGoogle item with
      | Some item' => cons item' <$> sanitizeElements rest
      | None => None
      end
  end.

Fixpoint sanitizeProperties (l : list (string * Schema))
  : option (list (string * Schema)) :=
  match l with
  | [] => Some []
  | (prop, propSchema) :: rest =>
      match _sanitizeSchemaForGoogle propSchema with
      | Some sanitized =>
          (if ownKey prop then cons (prop, sanitized) else id) <$> sanitizeProperties rest
      | None => None
      end
  end.

(** What is stored under an allowed key. *)
Definition sanitizeValue (key : string) (val : Schema) : option Schema :=
  if String.eqb key "properties" then
    match val with
    | SNull => None
    | SObject props => SObject <$> sanitizeProperties props
    | _ => Some val
    end
  else if String.eqb key "items" then
    match val with
    | SArray _ | SObject _ => _sanitizeSchemaForGoogle val
    | _ => Some val
    end
  else Some val.

Fixpoint sanitizeFields (l : list (string * Schema)) : option (list (string * Schema)) :=
  match l with
  | [] => Some []
  | (key, val) :: rest =>
      if negb (allowedKey key) then sanitizeFields rest
      else match sanitizeValue key val with
           | Some v => cons (key, v) <$> sanitizeFields rest
           | None => None
           end
  end.

(** A schema Google accepts as far as its keys go: at the schema itself, in
    every property of [properties] and in [items], only the allowed keys
    occur. *)
Fixpoint onlyAllowedKeys (schema : Schema) : bool :=
  match schema with
  | SNull | SPrimitive _ => true
  | SArray elements => forallb onlyAllowedKeys elements
  | SObject fields =>
      forallb (λ kv : string * Schema,
        allowedKey (fst kv) &&
        if String.eqb (fst kv) "properties" then
          match snd kv with
          | SNull => false
          | SObject props =>
              forallb (λ pv : string * Schema,
                         ownKey (fst pv) && onlyAllowedKeys (snd pv)) props
          | _ => true
          end
        else if String.eqb (fst kv) "items" then
          match snd kv with
          | SArray _ | SObject _ => onlyAllowedKeys (snd kv)
          | _ => true
          end
        else true) fields
  end.

(** What holds of the properties of an object. *)
Definition ofProperties (P : Schema → Prop) (schema : Schema) : Prop :=
  match schema with
  | SObject props => Forall (λ pv, P pv.2) props
  | _ => True
  end.

(** The two halves of the fixed-point property. *)
Definition staysClean (schema : Schema) : Prop :=
  ∀ t, _sanitizeSchemaForGoogle schema = Some t → onlyAllowedKeys t = true.

Definition isFixed (schema : Schema) : Prop :=
  onlyAllowedKeys schema = true → _sanitizeSchemaForGoogle schema = Some schema.

(** A tool schema with the field Google rejects. *)
Definition strictSchema : Schema :=
  SObject [("type", SPrimitive "object");
           ("properties",
            SObject [("path", SObject [("type", SPrimitive "string");
                                       ("minLength", SPrimitive "1")])]);
           ("additionalProperties", SPrimitive "false")].

End GoogleSchema.

(** ** [_mapMessageToAnthropic] *)

Module AnthropicWire.
Import Agent.

Section Provider.
Context {Json : Type} `{!JsonValue Json}.

(** An element of a [content] array. *)
Inductive Block :=
| TextBlock (text : string)
| ImageBlock (media_type : string) (data : string)
| ToolUseBlock (id : string) (blockName : string) (input : Json)
| ToolResultBlock (tool_use_id : string) (resultContent : string).

(** The [content] of a message: a string or an array of blocks. *)
Inductive BlockContent :=
| ContentText (text : string)
| ContentBlocks (blocks : list Block).

Record Message := mkMessage {
  messageRole : string;
  messageContent : BlockContent
}.

Definition usedIdOf (b : Block) : option string :=
  match b with ToolUseBlock id _ _ => Some id | _ => None end.

Definition answeredIdOf (b : Block) : option string :=
  match b with ToolResultBlock id _ => Some id | _ => None end.

Definition blocksOf (m : Message) : list Block :=
  match messageContent m with
  | ContentBlocks blocks => blocks
  | ContentText _ => []
  end.

Variable encodeBase64 : string → string.

(** The loop over [message.content]. *)
Definition contentPartsOf (content : list (MessagePart Json)) : list Block :=
  flat_map (λ part,
    match part with
    | MsgText value => [TextBlock value]
    | MsgImage mimeType data => [ImageBlock mimeType (encodeBase64 data)]
    | MsgToolUse tu =>
        if nonEmpty (toolCallId tu) && nonEmpty (name tu)
        then [ToolUseBlock (toolCallId tu) (name tu)
                (if truthy (parameters tu) then parameters tu else emptyObject)]
        else []
    | MsgToolResult id value _ =>
        [ToolResultBlock id (fold_right String.append "" value)]
    end) content.

Definition _mapMessageToAnthropic (message : ChatMessage Json) : Message :=
  let role := match Agent.role message with
              | Assistant => "assistant"
              | _ => "user"
              end in
  let contentParts := contentPartsOf (content message) in
  match contentParts with
  | [TextBlock text] => mkMessage role (ContentText text)
  | [] =>
      match Agent.role message with
      | Assistant => mkMessage role (ContentBlocks [TextBlock ""])
      | _ => mkMessage role (ContentText "")
      end
  | _ => mkMessage role (ContentBlocks contentParts)
  end.

(** [body.messages] (line 343). *)
Definition isSystem (m : ChatMessage Json) : bool :=
  match Agent.role m with System => true | _ => false end.

Definition bodyMessages (messages : list (ChatMessage Json)) : list Message :=
  map _mapMessageToAnthropic (filter (λ m, isSystem m = false) messages).

End Provider.

End AnthropicWire.

(* ===================================================================== *)
(** * Part II: properties                                                 *)
(* ===================================================================== *)

(** ** The streaming adapter *)

Module ProviderFacts.
Import Provider Fragments.

Lemma append_nil_l (t : string) : "" +:+ t = t.
Proof. reflexivity. Qed.

Lemma append_cons c (s t : string) : String c s +:+ t = String c (s +:+ t).
Proof. reflexivity. Qed.

Lemma append_empty_r (s : string) : s +:+ "" = s.
Proof. induction s as [|c s IH]; [done | by rewrite append_cons, IH]. Qed.

Lemma append_assoc (a b c : string) : (a +:+ b) +:+ c = a +:+ (b +:+ c).
Proof. induction a as [|x a IH]; [done | by rewrite !append_cons, IH]. Qed.

Lemma nonEmpty_false (s : string) : nonEmpty s = false → s = "".
Proof. by destruct s. Qed.

Lemma accumulate_other m tc idx :
  indexOf tc ≠ idx → accumulate m tc !! idx = m !! idx.
Proof. intros Hne. unfold accumulate. by rewrite lookup_insert_ne. Qed.

Lemma accumulate_args m tc idx :
  argsAt (accumulate m tc) idx =
  argsAt m idx +:+ fold_right String.append "" (fragmentsFor idx [tc]).
Proof.
  unfold argsAt, fragmentsFor. simpl. case_bool_decide as Hidx.
  - subst idx. unfold accumulate. rewrite lookup_insert_eq. simpl.
    destruct (m !! indexOf tc) as [acc|]; simpl;
      destruct (tc_arguments tc); simpl; by rewrite ?append_empty_r.
  - rewrite accumulate_other by done. simpl. by rewrite append_empty_r.
Qed.

Lemma fragmentsFor_cons idx tc tcs :
  fragmentsFor idx (tc :: tcs) = fragmentsFor idx [tc] ++ fragmentsFor idx tcs.
Proof. unfold fragmentsFor. simpl. by rewrite app_nil_r. Qed.

Lemma concat_app (l1 l2 : list string) :
  fold_right String.append "" (l1 ++ l2) =
  fold_right String.append "" l1 +:+ fold_right String.append "" l2.
Proof. induction l1 as [|x l1 IH]; simpl; [done | by rewrite IH, append_assoc]. Qed.

Lemma foldl_accumulate_args tcs : ∀ m idx,
  argsAt (foldl accumulate m tcs) idx =
  argsAt m idx +:+ fold_right String.append "" (fragmentsFor idx tcs).
Proof.
  induction tcs as [|tc tcs IH]; intros m idx.
  - simpl. by rewrite append_empty_r.
  - change (foldl accumulate m (tc :: tcs)) with (foldl accumulate (accumulate m tc) tcs).
    rewrite IH, accumulate_args, (fragmentsFor_cons idx tc tcs), concat_app.
    apply append_assoc.
Qed.

Lemma accumulate_id_unsupplied m tc idx :
  (bool_decide (indexOf tc = idx) && truthyField (tc_id tc)) = false →
  idAt (accumulate m tc) idx = idAt m idx.
Proof.
  unfold idAt. intros Hno. destruct (decide (indexOf tc = idx)) as [<-|Hne].
  - rewrite bool_decide_eq_true_2 in Hno by done. simpl in Hno.
    unfold accumulate. rewrite lookup_insert_eq, Hno. simpl.
    by destruct (m !! indexOf tc).
  - by rewrite accumulate_other.
Qed.

Lemma accumulate_name_unsupplied m tc idx :
  (bool_decide (indexOf tc = idx) && truthyField (tc_name tc)) = false →
  nameAt (accumulate m tc) idx = nameAt m idx.
Proof.
  unfold nameAt. intros Hno. destruct (decide (indexOf tc = idx)) as [<-|Hne].
  - rewrite bool_decide_eq_true_2 in Hno by done. simpl in Hno.
    unfold accumulate. rewrite lookup_insert_eq, Hno. simpl.
    by destruct (m !! indexOf tc).
  - by rewrite accumulate_other.
Qed.

Lemma foldl_accumulate_id_unsupplied tcs : ∀ m idx,
  existsb (λ tc, bool_decide (indexOf tc = idx) && truthyField (tc_id tc)) tcs = false →
  idAt (foldl accumulate m tcs) idx = idAt m idx.
Proof.
  induction tcs as [|tc tcs IH]; intros m idx Hno; simpl in *; [done|].
  apply orb_false_iff in Hno as [Htc Hrest].
  rewrite IH by done. by apply accumulate_id_unsupplied.
Qed.

Lemma foldl_accumulate_name_unsupplied tcs : ∀ m idx,
  existsb (λ tc, bool_decide (indexOf tc = idx) && truthyField (tc_name tc)) tcs = false →
  nameAt (foldl accumulate m tcs) idx = nameAt m idx.
Proof.
  induction tcs as [|tc tcs IH]; intros m idx Hno; simpl in *; [done|].
  apply orb_false_iff in Hno as [Htc Hrest].
  rewrite IH by done. by apply accumulate_name_unsupplied.
Qed.

Section Adapter.
Context {Json : Type} `{!JsonValue Json}.

Lemma emitDelta_no_tool_use (d : ChoiceDelta) :
  Forall (λ p : ResponsePart Json, isToolUse p = false) (emitDelta d).
Proof.
  unfold emitDelta.
  destruct (truthyField (content d)), (truthyField (reasoning_content d));
    simpl; repeat constructor.
Qed.

Lemma onData_no_tool_use lines : ∀ m,
  Forall (λ p : ResponsePart Json, isToolUse p = false) (snd (onData m lines)).
Proof.
  induction lines as [|l lines IH]; intros m; simpl; [constructor|].
  destruct (onLine m l) as [m1 out1] eqn:Hl.
  specialize (IH m1). destruct (onData m1 lines) as [m2 out2]. simpl in *.
  apply Forall_app. split; [|done].
  destruct l; simpl in Hl; inversion Hl; subst; [constructor|].
  apply emitDelta_no_tool_use.
Qed.

Lemma onData_accumulates lines : ∀ m,
  fst (onData (Json := Json) m lines) = foldl accumulate m (deltasOf lines).
Proof.
  induction lines as [|l lines IH]; intros m; simpl; [done|].
  destruct (onLine m l) as [m1 out1] eqn:Hl.
  specialize (IH m1). destruct (onData m1 lines) as [m2 out2]. simpl in *.
  unfold deltasOf in *. simpl. rewrite foldl_app, IH.
  destruct l as [|d]; simpl in Hl; inversion Hl; subst; [done|].
  by destruct (tool_calls d).
Qed.

Lemma accumulatedAtEnd_args lines idx acc :
  accumulatedAtEnd (Json := Json) lines !! idx = Some acc →
  acc_args acc = concatFragments idx lines.
Proof.
  intros Hacc. unfold accumulatedAtEnd in Hacc. rewrite onData_accumulates in Hacc.
  pose proof (foldl_accumulate_args (deltasOf lines) ∅ idx) as Hargs.
  unfold argsAt in Hargs. rewrite Hacc, lookup_empty in Hargs. simpl in Hargs.
  by rewrite Hargs.
Qed.

Lemma finalize_Some acc p :
  finalize (Json := Json) acc = Some p →
  ∃ id nm, acc_id acc = Some id ∧ acc_name acc = Some nm
           ∧ nonEmpty id = true ∧ nonEmpty nm = true
           ∧ p = PartToolUse (mkToolUse nm id (parametersOf (acc_args acc))).
Proof.
  unfold finalize. destruct (acc_id acc) as [id|], (acc_name acc) as [nm|]; try done.
  destruct (nonEmpty id) eqn:Hid, (nonEmpty nm) eqn:Hnm; simpl; try done.
  intros [= <-]. by exists id, nm.
Qed.

Lemma finalize_None acc :
  acc_id acc = None ∨ acc_name acc = None → finalize (Json := Json) acc = None.
Proof.
  unfold finalize. intros [-> | ->]; [done|]. by destruct (acc_id acc).
Qed.

Lemma elem_of_sortedIndices (m : gmap Z Accumulated) idx :
  idx ∈ sortedIndices m ↔ is_Some (m !! idx).
Proof.
  unfold sortedIndices. rewrite merge_sort_Permutation.
  rewrite list_elem_of_fmap. split.
  - intros [[k v] [-> Hin]]. apply elem_of_map_to_list in Hin. by exists v.
  - intros [v Hv]. exists (idx, v). split; [done|]. by apply elem_of_map_to_list.
Qed.

Lemma onEnd_elem_of (m : gmap Z Accumulated) (p : ResponsePart Json) :
  p ∈ onEnd m ↔ ∃ idx acc, m !! idx = Some acc ∧ finalize acc = Some p.
Proof.
  unfold onEnd. rewrite list_elem_of_omap. split.
  - intros (idx & _ & Hf). destruct (m !! idx) as [acc|] eqn:Hacc; [|done].
    by exists idx, acc.
  - intros (idx & acc & Hacc & Hf). exists idx. split.
    + apply elem_of_sortedIndices. by exists acc.
    + by rewrite Hacc.
Qed.

Lemma onEnd_all_tool_use (m : gmap Z Accumulated) :
  Forall (λ p : ResponsePart Json, isToolUse p = true) (onEnd m).
Proof.
  apply Forall_forall. intros p Hp. apply onEnd_elem_of in Hp as (idx & acc & _ & Hf).
  apply finalize_Some in Hf as (id & nm & _ & _ & _ & _ & ->). done.
Qed.

Lemma sortedIndices_delete (m : gmap Z Accumulated) idx :
  is_Some (m !! idx) →
  ∃ before after,
    sortedIndices m = before ++ idx :: after
    ∧ sortedIndices (delete idx m) = before ++ after
    ∧ idx ∉ before ++ after.
Proof.
  intros [acc Hacc].
  assert (idx ∈ sortedIndices m) as Hin by (apply elem_of_sortedIndices; eauto).
  apply list_elem_of_split in Hin as (before & after & Hsplit).
  exists before, after. split; [done|].
  assert (NoDup (sortedIndices m)) as Hnodup.
  { unfold sortedIndices. rewrite merge_sort_Permutation. apply NoDup_fst_map_to_list. }
  assert (StronglySorted Z.le (sortedIndices m)) as Hsorted.
  { apply Sorted_StronglySorted; [apply _|]. apply Sorted_merge_sort, _. }
  rewrite Hsplit in Hnodup, Hsorted.
  assert (idx ∉ before ++ after) as Hfresh.
  { apply NoDup_app in Hnodup as (_ & Hba & Ha%NoDup_cons).
    rewrite elem_of_app. intros [Hb | Ha']; [|tauto].
    apply (Hba idx Hb). by left. }
  split; [|done].
  apply (StronglySorted_unique Z.le).
  - apply Sorted_StronglySorted; [apply _|]. apply Sorted_merge_sort, _.
  - apply StronglySorted_app in Hsorted as (Hcross & Hb & Ha%StronglySorted_cons).
    apply StronglySorted_app_2; [|done|tauto].
    intros x1 x2 H1 H2. apply Hcross; [done|]. by right.
  - apply (Permutation_cons_inv (a := idx)).
    transitivity (sortedIndices m).
    + unfold sortedIndices. rewrite !merge_sort_Permutation.
      rewrite <- (map_to_list_delete m idx acc Hacc). done.
    + rewrite Hsplit. by rewrite Permutation_middle.
Qed.

Lemma onEnd_delete (m : gmap Z Accumulated) idx :
  m !! idx ≫= finalize (Json := Json) = None →
  onEnd (Json := Json) m = onEnd (delete idx m).
Proof.
  intros Hnone. destruct (m !! idx) as [acc|] eqn:Hacc.
  - destruct (sortedIndices_delete m idx) as (before & after & Hm & Hd & Hfresh); [eauto|].
    unfold onEnd. rewrite Hm, Hd, !omap_app. simpl. rewrite Hacc. simpl in *.
    rewrite Hnone. rewrite <- !omap_app.
    apply list_omap_ext. apply Forall2_same_length_lookup_2; [done|].
    intros i x y Hx Hy. rewrite Hx in Hy. injection Hy as <-.
    rewrite lookup_delete_ne; [done|].
    intros ->. apply Hfresh. by eapply list_elem_of_lookup_2.
  - by rewrite delete_id.
Qed.

Lemma listenOpenAI_emitted lines close :
  emitted (listenOpenAI (Json := Json) lines close) =
  snd (onData ∅ lines) ++
  match close with
  | CloseEnd => onEnd (accumulatedAtEnd (Json := Json) lines)
  | CloseError _ => []
  end.
Proof.
  unfold listenOpenAI, accumulatedAtEnd.
  destruct (onData ∅ lines) as [m out]. destruct close; simpl; [done|].
  by rewrite app_nil_r.
Qed.

Lemma finalizedAt_emitted lines idx (p : ResponsePart Json) :
  finalizedAt lines idx = Some p → p ∈ emitted (listenOpenAI lines CloseEnd).
Proof.
  unfold finalizedAt. intros Hf. rewrite listenOpenAI_emitted, elem_of_app. right.
  apply onEnd_elem_of. destruct (accumulatedAtEnd (Json := Json) lines !! idx) as [acc|] eqn:Hacc; [|done].
  by exists idx, acc.
Qed.

Lemma finalizedAt_parameters lines idx (tu : ToolUse Json) :
  finalizedAt lines idx = Some (PartToolUse tu) →
  parameters tu = parametersOf (concatFragments idx lines).
Proof.
  unfold finalizedAt. intros Hf.
  destruct (accumulatedAtEnd (Json := Json) lines !! idx) as [acc|] eqn:Hacc; [|done]. simpl in Hf.
  apply finalize_Some in Hf as (id & nm & _ & _ & _ & _ & [= ->]). simpl.
  by rewrite (accumulatedAtEnd_args lines idx acc).
Qed.

Lemma not_tool_use_in_onData lines (tu : ToolUse Json) :
  PartToolUse tu ∉ snd (onData ∅ lines).
Proof.
  intros Hin. pose proof (onData_no_tool_use lines ∅) as Hall.
  rewrite Forall_forall in Hall. by specialize (Hall _ Hin).
Qed.

(** C4.  When the arguments of a tool call arrive in fragments, the
    [tool_use] event finalized for its index carries the [JSON.parse] of the
    fragments concatenated in arrival order; that event is put on the stream
    when the stream ends, and [onData] never emits it. *)
Theorem finalized_parameters_parse_the_fragments
    (lines : list SseLine) (idx : Z) (tu : ToolUse Json) (parsed : Json) :
  JSON_parse (Json := Json) "" = None →
  finalizedAt lines idx = Some (PartToolUse tu) →
  JSON_parse (concatFragments idx lines) = Some parsed →
  parameters tu = parsed
  ∧ PartToolUse tu ∈ emitted (listenOpenAI lines CloseEnd)
  ∧ PartToolUse tu ∉ snd (onData ∅ lines).
Proof.
  intros Hempty Hfinal Hparse. split; [|split].
  - rewrite (finalizedAt_parameters lines idx tu Hfinal). unfold parametersOf.
    destruct (nonEmpty (concatFragments idx lines)) eqn:Hne.
    + by rewrite Hparse.
    + apply nonEmpty_false in Hne. rewrite Hne, Hempty in Hparse. done.
  - by eapply finalizedAt_emitted.
  - apply not_tool_use_in_onData.
Qed.

(** C5, as the code has it.  [onData] puts no [tool_use] on the stream; the
    [tool_use] events are exactly those [onEnd] emits, after everything else
    and only when the stream ends without an error.  Each of them carries
    the parsed value of the complete argument text when that text is not
    empty and parses, and the empty object otherwise: the argument text
    itself never becomes the parameters. *)
Theorem tool_use_only_at_stream_end
    (lines : list SseLine) (close : StreamClose) :
  Forall (λ p : ResponsePart Json, isToolUse p = false) (snd (onData ∅ lines))
  ∧ Forall (λ p : ResponsePart Json, isToolUse p = true)
      (onEnd (accumulatedAtEnd (Json := Json) lines))
  ∧ emitted (listenOpenAI (Json := Json) lines close) =
      snd (onData ∅ lines) ++
      match close with
      | CloseEnd => onEnd (accumulatedAtEnd (Json := Json) lines)
      | CloseError _ => []
      end
  ∧ ∀ tu : ToolUse Json,
      PartToolUse tu ∈ emitted (listenOpenAI lines close) →
      close = CloseEnd
      ∧ ∃ idx, finalizedAt lines idx = Some (PartToolUse tu)
          ∧ ((∃ parsed, nonEmpty (concatFragments idx lines) = true
                        ∧ JSON_parse (concatFragments idx lines) = Some parsed
                        ∧ parameters tu = parsed)
             ∨ ((nonEmpty (concatFragments idx lines) = false
                 ∨ JSON_parse (Json := Json) (concatFragments idx lines) = None)
                ∧ parameters tu = emptyObject)).
Proof.
  split; [apply onData_no_tool_use|]. split; [apply onEnd_all_tool_use|].
  split; [apply listenOpenAI_emitted|].
  intros tu Hin. rewrite listenOpenAI_emitted, elem_of_app in Hin.
  destruct Hin as [Hin|Hin]; [by apply not_tool_use_in_onData in Hin|].
  destruct close as [|error]; [|by apply elem_of_nil in Hin]. split; [done|].
  apply onEnd_elem_of in Hin as (idx & acc & Hacc & Hf).
  assert (finalizedAt lines idx = Some (PartToolUse tu)) as Hfinal.
  { unfold finalizedAt. by rewrite Hacc. }
  exists idx. split; [done|].
  rewrite (finalizedAt_parameters lines idx tu Hfinal). unfold parametersOf.
  destruct (nonEmpty (concatFragments idx lines)) eqn:Hne; [|right; auto].
  destruct (JSON_parse (concatFragments idx lines)) as [parsed|] eqn:Hparse.
  - left. by exists parsed.
  - right. auto.
Qed.

(** Whatever filled the accumulator, [onEnd] passes over an entry that
    lacks a call id or a function name. *)
Lemma incomplete_entry_is_skipped (m : gmap Z Accumulated) (idx : Z) :
  truthyField (idAt m idx) && truthyField (nameAt m idx) = false →
  m !! idx ≫= finalize (Json := Json) = None
  ∧ onEnd (Json := Json) m = onEnd (delete idx m).
Proof.
  intros Hmissing.
  assert (m !! idx ≫= finalize (Json := Json) = None) as Hnone.
  { unfold idAt, nameAt in Hmissing. destruct (m !! idx) as [acc|]; [|done].
    simpl in *. unfold finalize.
    destruct (acc_id acc) as [id|], (acc_name acc) as [nm|]; try done.
    simpl in Hmissing. by rewrite Hmissing. }
  split; [done|]. by apply onEnd_delete.
Qed.

(** C10.  A tool call whose fragments never supplied both a call id and a
    function name leaves no trace when the stream ends: its entry in the
    accumulator lacks one of the two, nothing is finalized for its index,
    the events emitted are those of the accumulator without that index, and
    the promise is fulfilled, not rejected. *)
Theorem call_without_id_and_name_is_dropped (lines : list SseLine) (idx : Z) :
  suppliesId idx lines && suppliesName idx lines = false →
  truthyField (idAt (accumulatedAtEnd (Json := Json) lines) idx)
    && truthyField (nameAt (accumulatedAtEnd (Json := Json) lines) idx) = false
  ∧ finalizedAt (Json := Json) lines idx = None
  ∧ onEnd (Json := Json) (accumulatedAtEnd (Json := Json) lines) =
      onEnd (delete idx (accumulatedAtEnd (Json := Json) lines))
  ∧ emitted (listenOpenAI (Json := Json) lines CloseEnd) =
      snd (onData ∅ lines) ++ onEnd (delete idx (accumulatedAtEnd (Json := Json) lines))
  ∧ thrown (listenOpenAI (Json := Json) lines CloseEnd) = None.
Proof.
  intros Hmissing.
  assert (truthyField (idAt (accumulatedAtEnd (Json := Json) lines) idx)
          && truthyField (nameAt (accumulatedAtEnd (Json := Json) lines) idx) = false)
    as Hentry.
  { unfold accumulatedAtEnd. rewrite onData_accumulates.
    apply andb_false_iff in Hmissing as [Hid | Hname]; apply andb_false_iff.
    - left. by rewrite (foldl_accumulate_id_unsupplied _ ∅ idx Hid).
    - right. by rewrite (foldl_accumulate_name_unsupplied _ ∅ idx Hname). }
  destruct (incomplete_entry_is_skipped _ idx Hentry) as [Hnone Hdrop].
  repeat split; [done|done|done| |].
  - by rewrite listenOpenAI_emitted, Hdrop.
  - unfold listenOpenAI. by destruct (onData ∅ lines).
Qed.


(** *** Texts that read as a cancellation *)

Lemma toLowerAscii_app (a b : string) :
  toLowerAscii (a +:+ b) = toLowerAscii a +:+ toLowerAscii b.
Proof.
  induction a as [|c a IH]; [by rewrite !append_nil_l|].
  rewrite append_cons. simpl. by rewrite IH, append_cons.
Qed.



Lemma includes_cons (needle : string) c hay :
  includes needle (String c hay)
  = String.prefix needle (String c hay) || includes needle hay.
Proof. done. Qed.










End Adapter.

Import Samples.


Lemma finalized_parameters_witness :
  parameters listDot = SampleObject [("path", ".")]
  ∧ PartToolUse listDot ∈ emitted (listenOpenAI splitCall CloseEnd)
  ∧ PartToolUse listDot ∉ snd (onData ∅ splitCall).
Proof.
  apply (finalized_parameters_parse_the_fragments splitCall 0 listDot
           (SampleObject [("path", ".")])); reflexivity.
Defined.

Lemma call_without_name_witness :
  truthyField (idAt (accumulatedAtEnd (Json := SampleJson) namelessCall) 0)
    && truthyField (nameAt (accumulatedAtEnd (Json := SampleJson) namelessCall) 0) = false
  ∧ finalizedAt (Json := SampleJson) namelessCall 0 = None
  ∧ onEnd (Json := SampleJson) (accumulatedAtEnd (Json := SampleJson) namelessCall) =
      onEnd (delete 0 (accumulatedAtEnd (Json := SampleJson) namelessCall))
  ∧ emitted (listenOpenAI (Json := SampleJson) namelessCall CloseEnd) =
      snd (onData ∅ namelessCall) ++ onEnd (delete 0 (accumulatedAtEnd (Json := SampleJson) namelessCall))
  ∧ thrown (listenOpenAI (Json := SampleJson) namelessCall CloseEnd) = None.
Proof.
  apply (call_without_id_and_name_is_dropped namelessCall 0). reflexivity.
Defined.

(** C5, as stated, fails: the arguments of this call stop in the middle of
    a key, and a [tool_use] is emitted all the same, with the empty object
    for parameters, which no argument text of the stream parses to. *)
Lemma truncated_arguments_still_emitted :
  emitted (listenOpenAI truncatedCall CloseEnd) =
    [PartToolUse (mkToolUse "readFile" "call_1" (SampleObject []))]
  ∧ JSON_parse (Json := SampleJson) (concatFragments 0 truncatedCall) = None
  ∧ ¬ ∃ idx, JSON_parse (concatFragments idx truncatedCall) = Some (SampleObject []).
Proof.
  split; [reflexivity|]. split; [reflexivity|].
  intros [idx Hparse]. unfold concatFragments, fragmentsFor, truncatedCall in Hparse.
  simpl in Hparse. case_bool_decide; vm_compute in Hparse; discriminate.
Qed.

End ProviderFacts.

(** ** The agent loop *)

Module AgentFacts.
Import Agent Responses.

Section Loop.
Context {Json : Type} `{!JsonValue Json}.

Implicit Types (env : Env Json) (st : LoopState Json) (s : Streaming Json).
Implicit Types (evs : list (Event Json)).

(** *** Counting events *)

Lemma requestCount_app evs1 evs2 :
  requestCount (evs1 ++ evs2) = (requestCount evs1 + requestCount evs2)%nat.
Proof. unfold requestCount. by rewrite filter_app, length_app. Qed.

Lemma invocationCount_app evs1 evs2 :
  invocationCount (evs1 ++ evs2) = (invocationCount evs1 + invocationCount evs2)%nat.
Proof. unfold invocationCount. by rewrite filter_app, length_app. Qed.

Lemma requestCount_progress (l : list ChatProgress) :
  requestCount (progressEvents (Json := Json) l) = 0%nat.
Proof. unfold requestCount, progressEvents. by induction l. Qed.

Lemma invocationCount_progress (l : list ChatProgress) :
  invocationCount (progressEvents (Json := Json) l) = 0%nat.
Proof. unfold invocationCount, progressEvents. by induction l. Qed.

Lemma requestCount_invocations (calls : list (ToolUse Json)) :
  requestCount (map EvInvokeTool calls) = 0%nat.
Proof. unfold requestCount. by induction calls. Qed.

Lemma invocationCount_invocations (calls : list (ToolUse Json)) :
  invocationCount (map EvInvokeTool calls) = length calls.
Proof.
  unfold invocationCount. induction calls as [|c calls IH]; [done|].
  change (map EvInvokeTool (c :: calls)) with (EvInvokeTool c :: map EvInvokeTool calls).
  rewrite filter_cons_True by done. simpl. by rewrite IH.
Qed.

Lemma executeTools_events env calls : ∀ evs,
  (executeTools env evs calls).1.1 = evs ++ map EvInvokeTool calls.
Proof.
  induction calls as [|c calls IH]; intros evs; simpl.
  - by rewrite app_nil_r.
  - destruct (toolResultOf c (invokeTool env evs c)) as [toolResult images].
    specialize (IH (evs ++ [EvInvokeTool c])).
    destruct (executeTools env (evs ++ [EvInvokeTool c]) calls) as [[evs2 rs] imgs].
    simpl in *. by rewrite IH, <- app_assoc.
Qed.

(** *** The epilogue *)

Lemma epilogue_fields env st :
  iterationCount (epilogue env st) = iterationCount st
  ∧ conversationMessages (epilogue env st) = conversationMessages st
  ∧ requestCount (events (epilogue env st)) = requestCount (events st)
  ∧ invocationCount (events (epilogue env st)) = invocationCount (events st).
Proof.
  unfold epilogue. simpl. repeat split; rewrite ?requestCount_app, ?invocationCount_app;
    repeat case_match; simpl; unfold requestCount, invocationCount; simpl; lia.
Qed.

Lemma epilogue_limit env st :
  (MAX_ITERATIONS (maxIterations env) <= iterationCount st)%nat →
  consecutiveNoCompleteCount st = 0%nat →
  last (events (epilogue env st)) = Some (EvProgress (markdownContent iterationLimitNote)).
Proof.
  intros Hlimit Hcount. unfold epilogue. simpl. rewrite Hcount. simpl.
  apply Nat.leb_le in Hlimit. rewrite Hlimit. simpl. by rewrite last_snoc.
Qed.

(** *** One pass through the loop body *)

Lemma iteration_responds env st s :
  responds env st s →
  iteration env st =
    afterResponse env st (S (iterationCount st))
      ((events st ++ [EvRequest (conversationMessages st)]) ++ progressEvents (shown s)) s.
Proof.
  intros (r & Hsent & Hstream & Hresult & ->). unfold iteration. rewrite Hsent.
  destruct (gather r (hasEverEmitted st)) as [s0 leftEarly]. simpl in *.
  by rewrite Hstream, Hresult.
Qed.

Lemma iteration_not_thrown env st :
  (∀ e st', iteration env st ≠ Throw e st') → ∃ s, responds env st s.
Proof.
  intros Hno. unfold responds. unfold iteration in Hno.
  destruct (sendChatRequest env (events st) (conversationMessages st)) as [e|r] eqn:Hsent.
  { by edestruct Hno. }
  exists (flush (gather r (hasEverEmitted st)).1), r.
  destruct (gather r (hasEverEmitted st)) as [s0 leftEarly]. simpl in *.
  destruct (if leftEarly then None else streamError r) as [e|] eqn:Hstream.
  { by edestruct Hno. }
  destruct (result r) as [e|] eqn:Hresult.
  { by edestruct Hno. }
  done.
Qed.

Lemma afterResponse_step env st n evs s :
  iterationCount (stateOf (afterResponse env st n evs s)) = n
  ∧ requestCount (events (stateOf (afterResponse env st n evs s))) = requestCount evs.
Proof.
  unfold afterResponse. destruct (toolCalls s) as [|tc tcs] eqn:Hcalls.
  - destruct (includes TASK_COMPLETE_SIGNAL (fullText s)); [by simpl|].
    by destruct (2 <=? S (consecutiveNoCompleteCount st))%nat.
  - remember (tc :: tcs) as calls eqn:Hc.
    destruct (REPEATED_TOOL_CALL_THRESHOLD <=? _)%nat.
    + simpl. rewrite requestCount_app. unfold requestCount at 2. simpl.
      split; [done|lia].
    + pose proof (executeTools_events env calls evs) as Hevs.
      destruct (executeTools env evs calls) as [[evs' rs] imgs]. simpl in *.
      subst evs'. split; [done|].
      rewrite requestCount_app, requestCount_invocations. lia.
Qed.

Lemma iteration_step env st :
  iterationCount (stateOf (iteration env st)) = S (iterationCount st)
  ∧ requestCount (events (stateOf (iteration env st))) = S (requestCount (events st)).
Proof.
  assert (requestCount (events st ++ [EvRequest (conversationMessages st)])
          = S (requestCount (events st))) as Hone.
  { rewrite requestCount_app. unfold requestCount at 2. simpl. lia. }
  unfold iteration.
  destruct (sendChatRequest env (events st) (conversationMessages st)) as [e|r]; [done|].
  destruct (gather r (hasEverEmitted st)) as [s0 leftEarly].
  destruct (if leftEarly then None else streamError r) as [e|].
  { simpl. by rewrite requestCount_app, requestCount_progress, Hone, Nat.add_0_r. }
  destruct (result r) as [e|].
  { simpl. by rewrite requestCount_app, requestCount_progress, Hone, Nat.add_0_r. }
  destruct (afterResponse_step env st (S (iterationCount st))
              ((events st ++ [EvRequest (conversationMessages st)])
                 ++ progressEvents (shown (flush s0))) (flush s0)) as [Hn Hreq].
  rewrite Hn, Hreq. by rewrite requestCount_app, requestCount_progress, Hone, Nat.add_0_r.
Qed.

(** *** The loop *)

Lemma loop_unfold env fuel st :
  loop env (S fuel) st =
  if loopCondition env st
  then match iteration env st with
       | Continue st' => loop env fuel st'
       | Break reason st' => Some (mkRunResult (ExitBreak reason) (epilogue env st'))
       | Throw e st' => Some (mkRunResult (ExitThrow e) st')
       end
  else Some (mkRunResult ExitCondition (epilogue env st)).
Proof. done. Qed.

Lemma loopCondition_limit env st :
  loopCondition env st = true →
  (iterationCount st < MAX_ITERATIONS (maxIterations env))%nat.
Proof. unfold loopCondition. intros [H _]%andb_true_iff. by apply Nat.ltb_lt. Qed.

(** The loop ends, whatever the model and the tools do, once [fuel] covers
    the iterations that are left; it never sends more requests than that. *)
Lemma loop_terminates env fuel : ∀ st,
  (MAX_ITERATIONS (maxIterations env) - iterationCount st <= fuel)%nat →
  ∃ r, loop env fuel st = Some r
       ∧ (requestCount (events (final r)) <=
          requestCount (events st)
          + (MAX_ITERATIONS (maxIterations env) - iterationCount st))%nat
       ∧ (iterationCount (final r) <=
          Nat.max (iterationCount st) (MAX_ITERATIONS (maxIterations env)))%nat.
Proof.
  induction fuel as [|fuel IH]; intros st Hfuel.
  - simpl. destruct (loopCondition env st) eqn:Hcond.
    + apply loopCondition_limit in Hcond. lia.
    + eexists. split; [done|]. cbn [final].
      destruct (epilogue_fields env st) as (-> & _ & -> & _). lia.
  - rewrite loop_unfold. destruct (loopCondition env st) eqn:Hcond.
    + apply loopCondition_limit in Hcond.
      destruct (iteration_step env st) as [Hn Hreq].
      destruct (iteration env st) as [st'|reason st'|e st']; simpl in Hn, Hreq.
      * destruct (IH st') as (r & Hr & Hbound & Hiter); [lia|].
        exists r. split; [done|]. lia.
      * eexists. split; [done|]. cbn [final].
        destruct (epilogue_fields env st') as (-> & _ & -> & _). lia.
      * eexists. split; [done|]. cbn [final]. lia.
    + eexists. split; [done|]. cbn [final].
      destruct (epilogue_fields env st) as (-> & _ & -> & _). lia.
Qed.

Lemma MAX_ITERATIONS_range (maxIterations : option Z) :
  (1 <= MAX_ITERATIONS maxIterations <= 100)%nat.
Proof. unfold MAX_ITERATIONS. lia. Qed.

Lemma MAX_ITERATIONS_default : MAX_ITERATIONS None = 25%nat.
Proof. reflexivity. Qed.

(** *** Responses with tool calls *)

Lemma flush_keeps s :
  toolCalls (flush s) = toolCalls s ∧ fullText (flush s) = fullText s.
Proof. unfold flush. by repeat case_match. Qed.

Lemma alwaysCallsTool_responds env st :
  alwaysCallsTool env → ∃ s, responds env st s ∧ toolCalls s ≠ [].
Proof.
  intros Hcalls.
  destruct (Hcalls (events st) (conversationMessages st)) as (r & Hsent & Hs & Hr & Hne).
  exists (flush (gather r (hasEverEmitted st)).1). split.
  - exists r. repeat split; [done| |done]. rewrite Hs. by case_match.
  - destruct (flush_keeps (gather r (hasEverEmitted st)).1) as [-> _]. apply Hne.
Qed.

Lemma afterResponse_calls env st n evs s :
  toolCalls s ≠ [] →
  (∃ st', afterResponse env st n evs s = Break Repetition st')
  ∨ (∃ st', afterResponse env st n evs s = Continue st'
            ∧ consecutiveNoCompleteCount st' = 0%nat).
Proof.
  intros Hne. unfold afterResponse. destruct (toolCalls s) as [|tc tcs]; [done|].
  remember (tc :: tcs) as calls eqn:Hc.
  destruct (REPEATED_TOOL_CALL_THRESHOLD <=? _)%nat; [left; eauto|right].
  destruct (executeTools env evs calls) as [[evs' rs] imgs]. eauto.
Qed.

(** A model that always asks for a tool keeps the loop going until the
    repetition guard or the iteration limit stops it. *)
Lemma busy_loop env :
  alwaysCallsTool env → neverCancelled env →
  ∀ fuel st r,
    (fuel + iterationCount st = MAX_ITERATIONS (maxIterations env))%nat →
    consecutiveNoCompleteCount st = 0%nat →
    loop env fuel st = Some r →
    exit r = ExitBreak Repetition
    ∨ (exit r = ExitCondition
       ∧ requestCount (events (final r)) = (requestCount (events st) + fuel)%nat
       ∧ last (events (final r)) = Some (EvProgress (markdownContent iterationLimitNote))).
Proof.
  intros Hcalls Hnever. induction fuel as [|fuel IH]; intros st r Hfuel Hcount Hloop.
  - simpl in Hloop. unfold loopCondition in Hloop.
    rewrite (proj2 (Nat.ltb_ge _ _)) in Hloop by lia. simpl in Hloop.
    injection Hloop as <-. right. cbn [exit final].
    destruct (epilogue_fields env st) as (_ & _ & -> & _).
    split; [done|]. split; [lia|]. apply epilogue_limit; [lia|done].
  - rewrite loop_unfold in Hloop. unfold loopCondition in Hloop.
    rewrite (proj2 (Nat.ltb_lt _ _)), Hnever in Hloop by lia. simpl in Hloop.
    destruct (alwaysCallsTool_responds env st Hcalls) as (s & Hresp & Hne).
    destruct (iteration_step env st) as [Hn Hreq].
    rewrite (iteration_responds env st s Hresp) in Hloop, Hn, Hreq.
    destruct (afterResponse_calls env st (S (iterationCount st))
                ((events st ++ [EvRequest (conversationMessages st)])
                   ++ progressEvents (shown s)) s Hne)
      as [[st' Hstep] | (st' & Hstep & Hzero)];
      rewrite Hstep in Hloop, Hn, Hreq; simpl in Hn, Hreq.
    + injection Hloop as <-. by left.
    + destruct (IH st' r) as [Hrep | (Hexit & Hrequests & Hlast)]; [lia|done|done|by left|].
      right. split; [done|]. split; [lia|done].
Qed.

(** C2, as the code has it.  Every run ends, after at most [MAX_ITERATIONS]
    iterations and as many chat requests, a number between 1 and 100 that is
    25 when nothing is configured.  With a model that asks for at least one
    tool on every iteration, and no cancellation, the run either is stopped
    by the repetition guard or sends exactly [MAX_ITERATIONS] requests,
    leaves the loop through its condition and ends with the iteration-limit
    note. *)
Theorem run_bounded_by_max_iterations
    (env : Env Json) (messages : list (ChatMessage Json)) :
  ∃ r, run env messages = Some r
    ∧ (iterationCount (final r) <= MAX_ITERATIONS (maxIterations env))%nat
    ∧ (requestCount (events (final r)) <= MAX_ITERATIONS (maxIterations env))%nat
    ∧ (1 <= MAX_ITERATIONS (maxIterations env) <= 100)%nat
    ∧ (maxIterations env = None → MAX_ITERATIONS (maxIterations env) = 25%nat)
    ∧ (alwaysCallsTool env → neverCancelled env →
       exit r = ExitBreak Repetition
       ∨ (exit r = ExitCondition
          ∧ requestCount (events (final r)) = MAX_ITERATIONS (maxIterations env)
          ∧ last (events (final r)) =
              Some (EvProgress (markdownContent iterationLimitNote)))).
Proof.
  unfold run.
  destruct (loop_terminates env (MAX_ITERATIONS (maxIterations env)) (initialState messages))
    as (r & Hrun & Hbound & Hiter); [simpl; lia|].
  exists r. split; [done|].
  change (requestCount (events (initialState messages))) with 0%nat in Hbound.
  change (iterationCount (initialState messages)) with 0%nat in Hbound, Hiter.
  split; [lia|]. split; [lia|].
  split; [apply MAX_ITERATIONS_range|]. split; [by intros ->|].
  intros Hcalls Hnever.
  assert ((MAX_ITERATIONS (maxIterations env) + iterationCount (initialState messages)
           = MAX_ITERATIONS (maxIterations env))%nat) as Hfuel by (simpl; lia).
  destruct (busy_loop env Hcalls Hnever _ _ r Hfuel eq_refl Hrun)
    as [Hrep | (Hexit & Hrequests & Hlast)]; [by left|right].
  split; [done|]. split; [|done]. rewrite Hrequests. done.
Qed.

(** *** The sliding window *)

Lemma slideWindow_suffix (recent keys tail : list string) :
  tail `suffix_of` recent ++ keys →
  (length tail <= REPEATED_TOOL_CALL_WINDOW)%nat →
  tail `suffix_of` slideWindow recent keys.
Proof.
  intros [front Hfront] Hlen. unfold slideWindow. case_match; [|by exists front].
  rewrite Hfront, length_app.
  rewrite drop_app_le by lia. by eexists.
Qed.

Lemma sameKeyCount_three (window : list string) (k : string) :
  [k; k; k] `suffix_of` window →
  (REPEATED_TOOL_CALL_THRESHOLD <= sameKeyCount window [k])%nat.
Proof.
  intros [front ->]. unfold sameKeyCount. rewrite filter_app, length_app.
  rewrite !filter_cons_True by done. simpl. unfold REPEATED_TOOL_CALL_THRESHOLD. lia.
Qed.

Lemma afterResponse_single_continue env st n evs s tc st' :
  toolCalls s = [tc] →
  afterResponse env st n evs s = Continue st' →
  recentToolKeys st' = slideWindow (recentToolKeys st) [toolKey tc].
Proof.
  intros Hcalls. unfold afterResponse. rewrite Hcalls.
  change (map toolKey [tc]) with [toolKey tc].
  destruct (REPEATED_TOOL_CALL_THRESHOLD <=? _)%nat; [done|].
  destruct (executeTools env evs [tc]) as [[evs' rs] imgs]. by intros [= <-].
Qed.

Lemma afterResponse_single_repeated env st n evs s tc :
  toolCalls s = [tc] →
  [toolKey tc; toolKey tc] `suffix_of` recentToolKeys st →
  afterResponse env st n evs s =
    Break Repetition
      (mkLoopState n 0 (emittedAny s)
         (conversationMessages st ++ assistantMessages s)
         (slideWindow (recentToolKeys st) [toolKey tc])
         (evs ++ [EvProgress (markdownContent repetitionNote)])).
Proof.
  intros Hcalls Htwice. unfold afterResponse. rewrite Hcalls.
  change (map toolKey [tc]) with [toolKey tc].
  assert ([toolKey tc; toolKey tc; toolKey tc]
            `suffix_of` slideWindow (recentToolKeys st) [toolKey tc]) as Hthrice.
  { apply slideWindow_suffix; [|unfold REPEATED_TOOL_CALL_WINDOW; simpl; lia].
    destruct Htwice as [front ->]. exists front. by rewrite <- app_assoc. }
  apply sameKeyCount_three, Nat.leb_le in Hthrice. by rewrite Hthrice.
Qed.

Lemma toolKey_eq (tc1 tc2 : ToolUse Json) :
  name tc1 = name tc2 → paramsKey tc1 = paramsKey tc2 → toolKey tc1 = toolKey tc2.
Proof. unfold toolKey. by intros -> ->. Qed.

(** C1.  When three consecutive iterations each receive exactly one tool
    call, with the same name and the same serialized parameters, and the
    first two calls were executed, the third iteration takes the repetition
    [break]: it dispatches nothing to the tool service, its last act is the
    explanatory note, and the run ends there, in the repetition exit, without
    any further tool invocation. *)
Theorem third_identical_call_is_not_executed
    (env : Env Json) (fuel : nat) (st0 st1 st2 : LoopState Json)
    (s1 s2 s3 : Streaming Json) (tc1 tc2 tc3 : ToolUse Json) :
  loopCondition env st0 = true → responds env st0 s1 → toolCalls s1 = [tc1] →
  iteration env st0 = Continue st1 →
  loopCondition env st1 = true → responds env st1 s2 → toolCalls s2 = [tc2] →
  iteration env st1 = Continue st2 →
  loopCondition env st2 = true → responds env st2 s3 → toolCalls s3 = [tc3] →
  name tc1 = name tc2 → name tc2 = name tc3 →
  paramsKey tc1 = paramsKey tc2 → paramsKey tc2 = paramsKey tc3 →
  ∃ st3,
    iteration env st2 = Break Repetition st3
    ∧ events st3 =
        (events st2 ++ [EvRequest (conversationMessages st2)])
        ++ progressEvents (shown s3)
        ++ [EvProgress (markdownContent repetitionNote)]
    ∧ invocationCount (events st3) = invocationCount (events st2)
    ∧ loop env (3 + fuel) st0 =
        Some (mkRunResult (ExitBreak Repetition) (epilogue env st3))
    ∧ invocationCount (events (epilogue env st3)) = invocationCount (events st2).
Proof.
  intros Hc0 Hr1 Hcalls1 Hstep1 Hc1 Hr2 Hcalls2 Hstep2 Hc2 Hr3 Hcalls3
         Hn12 Hn23 Hp12 Hp23.
  pose proof (toolKey_eq tc1 tc2 Hn12 Hp12) as Hk12.
  pose proof (toolKey_eq tc2 tc3 Hn23 Hp23) as Hk23.
  pose proof Hstep1 as Hw1. rewrite (iteration_responds env st0 s1 Hr1) in Hw1.
  apply (afterResponse_single_continue _ _ _ _ _ tc1) in Hw1; [|done].
  pose proof Hstep2 as Hw2. rewrite (iteration_responds env st1 s2 Hr2) in Hw2.
  apply (afterResponse_single_continue _ _ _ _ _ tc2) in Hw2; [|done].
  assert ([toolKey tc3; toolKey tc3] `suffix_of` recentToolKeys st2) as Htwice.
  { rewrite Hw2, Hw1, <- Hk23, Hk12.
    apply slideWindow_suffix; [|unfold REPEATED_TOOL_CALL_WINDOW; simpl; lia].
    assert ([toolKey tc2] `suffix_of` slideWindow (recentToolKeys st0) [toolKey tc2])
      as [front ->].
    { apply slideWindow_suffix; [by eexists|unfold REPEATED_TOOL_CALL_WINDOW; simpl; lia]. }
    exists front. by rewrite <- app_assoc. }
  eexists. split.
  { rewrite (iteration_responds env st2 s3 Hr3).
    by apply afterResponse_single_repeated. }
  cbn [events]. split; [by rewrite <- !app_assoc|].
  assert (invocationCount
            (((events st2 ++ [EvRequest (conversationMessages st2)])
                ++ progressEvents (shown s3))
               ++ [EvProgress (markdownContent repetitionNote)])
          = invocationCount (events st2)) as Hsame.
  { rewrite !invocationCount_app, invocationCount_progress.
    unfold invocationCount at 2 3. simpl. lia. }
  split; [done|]. split.
  - change (3 + fuel)%nat with (S (S (S fuel))).
    rewrite loop_unfold, Hc0, Hstep1, loop_unfold, Hc1, Hstep2, loop_unfold, Hc2.
    rewrite (iteration_responds env st2 s3 Hr3).
    by rewrite (afterResponse_single_repeated env st2 _ _ s3 tc3).
  - match goal with |- invocationCount (events (epilogue env ?st)) = _ =>
      destruct (epilogue_fields env st) as (_ & _ & _ & ->) end.
    done.
Qed.

(** *** Plain text *)

Lemma afterResponse_plain env st n evs s :
  plainText s →
  afterResponse env st n evs s =
    if (2 <=? S (consecutiveNoCompleteCount st))%nat
    then Break Silence
           (mkLoopState n (S (consecutiveNoCompleteCount st)) (emittedAny s)
              (conversationMessages st ++ assistantMessages s) (recentToolKeys st) evs)
    else Continue
           (mkLoopState n (S (consecutiveNoCompleteCount st)) (emittedAny s)
              ((conversationMessages st ++ assistantMessages s) ++ [nudgeMessage])
              (recentToolKeys st) evs).
Proof. intros [Hcalls Hmarker]. unfold afterResponse. by rewrite Hcalls, Hmarker. Qed.

(** C3.  From a state in which no plain-text response is pending, a
    response of plain text (no tool call, no completion marker) makes the
    loop append the nudge and ask again; if the next response is plain text
    as well, the loop takes the silence [break]: the run ends after exactly
    these two requests, and the conversation has gained the first answer, one
    nudge, and the second answer, in that order. *)
Theorem two_plain_responses_stop_the_loop
    (env : Env Json) (fuel : nat) (st0 : LoopState Json) (s1 : Streaming Json) :
  consecutiveNoCompleteCount st0 = 0%nat →
  loopCondition env st0 = true → responds env st0 s1 → plainText s1 →
  ∃ st1,
    iteration env st0 = Continue st1
    ∧ conversationMessages st1 =
        conversationMessages st0 ++ assistantMessages s1 ++ [nudgeMessage]
    ∧ requestCount (events st1) = S (requestCount (events st0))
    ∧ ∀ s2, loopCondition env st1 = true → responds env st1 s2 → plainText s2 →
        ∃ st2,
          iteration env st1 = Break Silence st2
          ∧ conversationMessages st2 =
              conversationMessages st0 ++ assistantMessages s1
              ++ [nudgeMessage] ++ assistantMessages s2
          ∧ loop env (2 + fuel) st0 =
              Some (mkRunResult (ExitBreak Silence) (epilogue env st2))
          ∧ requestCount (events (epilogue env st2)) = (requestCount (events st0) + 2)%nat
          ∧ conversationMessages (epilogue env st2) = conversationMessages st2.
Proof.
  intros Hcount Hc0 Hr1 Hplain1.
  pose proof (iteration_responds env st0 s1 Hr1) as Hstep1.
  rewrite (afterResponse_plain env st0 _ _ s1 Hplain1), Hcount in Hstep1.
  simpl in Hstep1.
  match type of Hstep1 with _ = Continue ?st => remember st as st1 eqn:Hst1 end.
  destruct (iteration_step env st0) as [_ Hreq1].
  rewrite Hstep1 in Hreq1. cbn [stateOf] in Hreq1.
  assert (consecutiveNoCompleteCount st1 = 1%nat) as Hone by (by subst st1).
  assert (conversationMessages st1 =
          conversationMessages st0 ++ assistantMessages s1 ++ [nudgeMessage]) as Hconv1.
  { subst st1. cbn [conversationMessages]. by rewrite <- app_assoc. }
  exists st1. split; [done|]. split; [done|]. split; [done|].
  intros s2 Hc1 Hr2 Hplain2.
  pose proof (iteration_responds env st1 s2 Hr2) as Hstep2.
  rewrite (afterResponse_plain env st1 _ _ s2 Hplain2), Hone in Hstep2.
  change (2 <=? 2)%nat with true in Hstep2. cbv iota in Hstep2.
  destruct (iteration_step env st1) as [_ Hreq2].
  rewrite Hstep2 in Hreq2. cbn [stateOf] in Hreq2.
  eexists. split; [exact Hstep2|]. cbn [conversationMessages].
  split; [by rewrite Hconv1, <- !app_assoc|]. split; [|split].
  - change (2 + fuel)%nat with (S (S fuel)).
    by rewrite loop_unfold, Hc0, Hstep1, loop_unfold, Hc1, Hstep2.
  - match goal with |- requestCount (events (epilogue env ?st)) = _ =>
      destruct (epilogue_fields env st) as (_ & _ & -> & _) end.
    rewrite Hreq2, Hreq1. lia.
  - match goal with |- conversationMessages (epilogue env ?st) = _ =>
      by destruct (epilogue_fields env st) as (_ & -> & _ & _) end.
Qed.

End Loop.

Import Samples.

Lemma sample_responds (env : Agent.Env SampleJson) (st : LoopState SampleJson) :
  (∃ r, sendChatRequest env (events st) (conversationMessages st) = RequestSent r
        ∧ streamError r = None ∧ result r = None) →
  responds env st (gathered env st).
Proof.
  intros (r & Hsent & Hstream & Hresult). exists r. unfold gathered.
  rewrite Hsent. simpl. rewrite Hstream, Hresult. by case_match.
Qed.

Lemma stubborn_always_calls : alwaysCallsTool stubbornEnv.
Proof. intros evs conversation. eexists. by repeat split. Qed.

Lemma busy_always_calls maxIterations : alwaysCallsTool (busyEnv maxIterations).
Proof. intros evs conversation. eexists. by repeat split. Qed.

Lemma third_identical_call_witness :
  ∃ st3,
    loop stubbornEnv 3 (initialState listFiles) =
      Some (mkRunResult (ExitBreak Repetition) (epilogue stubbornEnv st3))
    ∧ invocationCount (events (epilogue stubbornEnv st3)) = 2%nat.
Proof.
  pose (st0 := initialState listFiles).
  pose (st1 := next stubbornEnv st0).
  pose (st2 := next stubbornEnv st1).
  destruct (third_identical_call_is_not_executed stubbornEnv 0 st0 st1 st2
              (gathered stubbornEnv st0) (gathered stubbornEnv st1)
              (gathered stubbornEnv st2) listDot listDot listDot)
    as (st3 & _ & _ & _ & Hloop & Hcount);
    try reflexivity;
    try (apply sample_responds; eexists; by repeat split).
  exists st3. split; [exact Hloop|]. rewrite Hcount. reflexivity.
Defined.

(** C2, as stated, fails: this model asks for a tool on every iteration and
    never writes the completion marker, nothing is cancelled, the limit is
    25, and the run ends after 3 requests, stopped by the repetition guard,
    without the iteration-limit note. *)
Lemma stubborn_model_is_stopped_after_three_requests :
  alwaysCallsTool stubbornEnv
  ∧ neverCompletes stubbornEnv
  ∧ neverCancelled stubbornEnv
  ∧ MAX_ITERATIONS (maxIterations stubbornEnv) = 25%nat
  ∧ ∃ r, run stubbornEnv listFiles = Some r
         ∧ exit r = ExitBreak Repetition
         ∧ requestCount (events (final r)) = 3%nat
         ∧ EvProgress (markdownContent iterationLimitNote) ∉ events (final r).
Proof.
  split; [apply stubborn_always_calls|].
  split; [by intros evs conversation r emitted0 [= <-]|].
  split; [done|]. split; [done|].
  eexists. split; [by vm_compute|]. split; [done|]. split; [by vm_compute|].
  cbn [final]. rewrite list_elem_of_In. vm_compute. intuition discriminate.
Qed.

Lemma run_bounded_witness :
  ∃ r, run (busyEnv (Some 4)) listFiles = Some r
       ∧ exit r = ExitCondition
       ∧ requestCount (events (final r)) = 4%nat.
Proof.
  destruct (run_bounded_by_max_iterations (busyEnv (Some 4)) listFiles)
    as (r & Hrun & _ & _ & _ & _ & Hbusy).
  exists r. split; [exact Hrun|].
  destruct (Hbusy (busy_always_calls (Some 4)) (λ _, eq_refl))
    as [Hrep | (Hexit & Hrequests & _)].
  - vm_compute in Hrun. injection Hrun as <-. discriminate Hrep.
  - split; [exact Hexit|]. rewrite Hrequests. reflexivity.
Defined.

Lemma two_plain_responses_witness :
  ∃ st2,
    loop chattyEnv 2 (initialState listFiles) =
      Some (mkRunResult (ExitBreak Silence) (epilogue chattyEnv st2))
    ∧ requestCount (events (epilogue chattyEnv st2)) = 2%nat
    ∧ conversationMessages st2 =
        listFiles ++ [mkChatMessage Assistant [MsgText "Let me think."]]
        ++ [nudgeMessage] ++ [mkChatMessage Assistant [MsgText "Let me think."]].
Proof.
  pose (st0 := initialState listFiles).
  destruct (two_plain_responses_stop_the_loop chattyEnv 0 st0 (gathered chattyEnv st0))
    as (st1 & Hstep1 & _ & _ & Hnext);
    [reflexivity | reflexivity
     | apply sample_responds; eexists; by repeat split
     | by split |].
  assert (st1 = next chattyEnv st0) as -> by (unfold next; by rewrite Hstep1).
  destruct (Hnext (gathered chattyEnv (next chattyEnv st0)))
    as (st2 & _ & Hconv & Hloop & Hrequests & _);
    [reflexivity | apply sample_responds; eexists; by repeat split | by split |].
  exists st2. split; [exact Hloop|]. split; [exact Hrequests|]. exact Hconv.
Defined.

(** The end-to-end scenario: the model lists the directory, then answers
    with the completion marker.  One tool invocation, with path [.]; the
    text shown is the answer without the marker; the run is complete. *)
Example list_files_then_done :
  ∃ r, run finishingEnv listFiles = Some r
       ∧ exit r = ExitBreak Completed
       ∧ filter (λ e, isInvokeTool e = true) (events (final r)) = [EvInvokeTool listDot]
       ∧ last (events (final r)) = Some (EvProgress (markdownContent "Done.")).
Proof. eexists. split; [by vm_compute|]. by vm_compute. Qed.

End AgentFacts.

(** ** The auto-summarizer *)

Module CompactorFacts.
Import Agent Compactor.

Lemma ceil_of_tenth (n : Z) :
  Math_ceil (QArith_base.Qmult (QArith_base.inject_Z n) RECENT_HISTORY_FRACTION)
  = - ((- n) / 10).
Proof.
  unfold Math_ceil, Qround.Qceiling, Qround.Qfloor, RECENT_HISTORY_FRACTION.
  simpl. by rewrite Z.mul_1_r.
Qed.

Lemma keepCountOf_range (history : list HistoryEntry) :
  (2 <= length history)%nat →
  (1 <= keepCountOf history < length history)%nat
  ∧ Z.of_nat (keepCountOf history) =
      Math_ceil (QArith_base.Qmult (QArith_base.inject_Z (Z.of_nat (length history)))
                   RECENT_HISTORY_FRACTION).
Proof.
  intros Hlen. unfold keepCountOf. rewrite ceil_of_tenth.
  set (n := Z.of_nat (length history)). assert (2 <= n) by lia.
  assert (1 <= - (- n / 10) < n) by (Z.div_mod_to_equations; lia). lia.
Qed.

Lemma summarizeNeeded_length totalTokens maxInputTokens history :
  summarizeNeeded totalTokens maxInputTokens history = true →
  (2 <= length history)%nat.
Proof.
  unfold summarizeNeeded. intros [_ H%Nat.ltb_lt]%andb_true_iff. lia.
Qed.

Lemma summarizeNeeded_threshold totalTokens maxInputTokens history :
  summarizeNeeded totalTokens maxInputTokens history = true →
  9 * maxInputTokens <= 10 * totalTokens.
Proof.
  unfold summarizeNeeded, AUTO_SUMMARIZE_THRESHOLD.
  intros [H _]%andb_true_iff. apply QArith_base.Qle_bool_iff in H.
  unfold QArith_base.Qle in H. simpl in H. lia.
Qed.

Lemma oldEntries_first (history : list HistoryEntry) :
  (2 <= length history)%nat →
  ∃ first rest older, history = first :: rest ∧ oldEntriesOf history = first :: older.
Proof.
  intros Hlen. destruct (keepCountOf_range history Hlen) as [Hkeep _].
  unfold oldEntriesOf. destruct history as [|first rest]; [simpl in Hlen; lia|].
  destruct (length (first :: rest) - keepCountOf (first :: rest))%nat eqn:Hn; [lia|].
  simpl. eauto.
Qed.

Section Summarizer.
Context {Json : Type} `{!JsonValue Json}.

Implicit Types (env : Env Json) (history : list HistoryEntry).
Implicit Types (messages : list (ChatMessage Json)).

(** *** Token accounting *)

Lemma countWithProvider_all env messages : ∀ total counts,
  Forall2 (λ msg n, computeTokenLength env msg = inr n) messages counts →
  countWithProvider env total messages = inr (total + foldr Z.add 0 counts).
Proof.
  induction messages as [|msg messages IH]; intros total counts Hall.
  - apply Forall2_nil_inv_l in Hall as ->. simpl. f_equal. lia.
  - apply Forall2_cons_inv_l in Hall as (n & counts' & Hn & Hrest & ->).
    simpl. rewrite Hn, (IH _ counts' Hrest). f_equal. lia.
Qed.

Lemma addCharEstimates_sum messages : ∀ total,
  addCharEstimates total messages = total + foldr Z.add 0 (map charEstimate messages).
Proof.
  unfold addCharEstimates.
  induction messages as [|msg messages IH]; intros total; simpl; [lia|].
  rewrite IH. lia.
Qed.

(** When the provider counts every message, the total is the sum of its
    counts. *)
Lemma computeTotalTokenCount_counted env messages counts :
  Forall2 (λ msg n, computeTokenLength env msg = inr n) messages counts →
  computeTotalTokenCount env messages = foldr Z.add 0 counts.
Proof.
  intros Hall. unfold computeTotalTokenCount.
  by rewrite (countWithProvider_all env messages 0 counts Hall).
Qed.

(** When the provider fails on some message, what it counted before the
    failure stays in [total], and the estimate of every message is added. *)
Lemma computeTotalTokenCount_fallback env messages e partial :
  countWithProvider env 0 messages = inl (e, partial) →
  computeTotalTokenCount env messages =
    partial + foldr Z.add 0 (map charEstimate messages).
Proof.
  intros Hfail. unfold computeTotalTokenCount. rewrite Hfail.
  apply addCharEstimates_sum.
Qed.

(** *** The compaction step *)

Lemma getHistory_cases env history maxInputTokens :
  (2 <= length history)%nat →
  ∃ first rest,
    history = first :: rest
    ∧ getHistoryWithSummarizationIfNeeded env history maxInputTokens =
      match summarizeHistoryEntries env (oldEntriesOf history)
              (maxSummaryTokensOf maxInputTokens) with
      | inl e => inl e
      | inr summaryText =>
          if negb (nonEmpty summaryText) || cancelledAfterSummary env
          then inr history
          else inr (summaryEntryOf (h_request first) summaryText
                      :: lastEntries (keepCountOf history) history)
      end.
Proof.
  intros Hlen. destruct (oldEntries_first history Hlen) as (first & rest & older & Hh & Hold).
  exists first, rest. split; [done|]. unfold getHistoryWithSummarizationIfNeeded.
  rewrite (proj2 (Nat.leb_gt _ _)) by lia. by rewrite Hold.
Qed.

(** C7, as the code has it.  For a history of at least two entries whose
    messages reach 90% of [maxInputTokens], when the summarizer returns a
    text that is not empty and cancellation has not been requested, the
    compaction step returns one summary entry followed by the most recent
    [max(1, ceil(0.1 * length))] entries, unchanged: [ceil(0.1 * length) + 1]
    entries in all. *)
Theorem compaction_keeps_a_tenth_behind_one_summary
    (env : Env Json) (history : list HistoryEntry) (maxInputTokens : Z)
    (summaryText : string) :
  summarizeNeeded (computeTotalTokenCount env (buildMessages env history))
    maxInputTokens history = true →
  summarizeHistoryEntries env (oldEntriesOf history) (maxSummaryTokensOf maxInputTokens)
    = inr summaryText →
  nonEmpty summaryText = true →
  cancelledAfterSummary env = false →
  ∃ first rest compacted,
    history = first :: rest
    ∧ maybeCompact env history maxInputTokens = inr compacted
    ∧ compacted = summaryEntryOf (h_request first) summaryText
                    :: lastEntries (keepCountOf history) history
    ∧ lastEntries (keepCountOf history) history `suffix_of` history
    ∧ length (lastEntries (keepCountOf history) history) = keepCountOf history
    ∧ Z.of_nat (keepCountOf history) =
        Z.max 1 (Math_ceil (QArith_base.Qmult
                              (QArith_base.inject_Z (Z.of_nat (length history)))
                              RECENT_HISTORY_FRACTION))
    ∧ Z.of_nat (length compacted) =
        Math_ceil (QArith_base.Qmult
                     (QArith_base.inject_Z (Z.of_nat (length history)))
                     RECENT_HISTORY_FRACTION) + 1.
Proof.
  intros Hneeded Hsummary Htext Hcancel.
  pose proof (summarizeNeeded_length _ _ _ Hneeded) as Hlen.
  destruct (getHistory_cases env history maxInputTokens Hlen) as (first & rest & Hh & Hget).
  destruct (keepCountOf_range history Hlen) as [Hkeep Hceil].
  rewrite Hsummary, Htext, Hcancel in Hget. simpl in Hget.
  exists first, rest, (summaryEntryOf (h_request first) summaryText
                         :: lastEntries (keepCountOf history) history).
  assert (length (lastEntries (keepCountOf history) history) = keepCountOf history) as Hlast.
  { unfold lastEntries. rewrite length_drop. lia. }
  split; [done|]. split.
  { unfold maybeCompact. by rewrite Hneeded. }
  split; [done|]. split; [apply suffix_drop|]. split; [done|].
  split; [lia|]. simpl. lia.
Qed.

(** The ways the compaction step can go without compacting, once the
    threshold is reached: when the summarizer returns an empty text, or
    cancellation is requested by the time it returns, the guard of line 1120
    returns the history unchanged and the turn starts the agent loop on the
    messages of that history; when the summarizer throws, nothing catches
    the exception before the [catch] of the turn. *)
Lemma summarizer_outcomes
    (env : Env Json) (history : list HistoryEntry) (metadataMaxInputTokens : option Z) :
  let maxInputTokens := default 128000 metadataMaxInputTokens in
  summarizeNeeded (computeTotalTokenCount env (buildMessages env history))
    maxInputTokens history = true →
  (∀ summaryText,
     summarizeHistoryEntries env (oldEntriesOf history) (maxSummaryTokensOf maxInputTokens)
       = inr summaryText →
     nonEmpty summaryText = false ∨ cancelledAfterSummary env = true →
     maybeCompact env history maxInputTokens = inr history
     ∧ invokeTurn env history metadataMaxInputTokens =
         mkTurnResult (Some (buildMessages env history)) None
           (unifiedAgent_run env (buildMessages env history)))
  ∧ (∀ e,
     summarizeHistoryEntries env (oldEntriesOf history) (maxSummaryTokensOf maxInputTokens)
       = inl e →
     maybeCompact env history maxInputTokens = inl e
     ∧ invokeTurn env history metadataMaxInputTokens = mkTurnResult None (Some e) None).
Proof.
  intros maxInputTokens Hneeded.
  pose proof (summarizeNeeded_length _ _ _ Hneeded) as Hlen.
  destruct (getHistory_cases env history maxInputTokens Hlen) as (first & rest & Hh & Hget).
  split.
  - intros summaryText Hsummary Hquiet. rewrite Hsummary in Hget.
    assert (negb (nonEmpty summaryText) || cancelledAfterSummary env = true) as Hcond.
    { destruct Hquiet as [-> | ->]; [done|]. apply orb_true_r. }
    rewrite Hcond in Hget.
    assert (maybeCompact env history maxInputTokens = inr history) as Hsame.
    { unfold maybeCompact. by rewrite Hneeded. }
    split; [done|]. unfold invokeTurn. fold maxInputTokens. by rewrite Hsame.
  - intros e Hsummary. rewrite Hsummary in Hget.
    assert (maybeCompact env history maxInputTokens = inl e) as Hthrown.
    { unfold maybeCompact. by rewrite Hneeded. }
    split; [done|]. unfold invokeTurn. fold maxInputTokens. by rewrite Hthrown.
Qed.

End Summarizer.

Import Samples.

(** C7, as stated, fails: three entries above the threshold, a summarizer
    that answers with blanks, and all three entries come back, where
    ceil(0.1 * 3) + 1 is 2. *)
Lemma blank_summary_returns_all_three_entries :
  let env := summarizerEnv (respondWith [PartText "  "]) false in
  summarizeNeeded (computeTotalTokenCount env (buildMessages env threeEntries))
    100 threeEntries = true
  ∧ maybeCompact env threeEntries 100 = inr threeEntries
  ∧ length threeEntries = 3%nat
  ∧ Math_ceil (QArith_base.Qmult (QArith_base.inject_Z 3) RECENT_HISTORY_FRACTION) + 1 = 2.
Proof. by vm_compute. Qed.

Lemma compaction_witness :
  ∃ first rest compacted,
    twelveEntries = first :: rest
    ∧ maybeCompact (summarizerEnv (respondWith [PartText " a summary "]) false)
        twelveEntries 100 = inr compacted
    ∧ length compacted = 3%nat.
Proof.
  destruct (compaction_keeps_a_tenth_behind_one_summary
              (summarizerEnv (respondWith [PartText " a summary "]) false)
              twelveEntries 100 "a summary")
    as (first & rest & compacted & Hh & Hc & _ & _ & _ & _ & Hlen);
    [reflexivity..|].
  exists first, rest, compacted. split; [done|]. split; [done|].
  assert (Z.of_nat (length compacted) = 3) as Hthree by (rewrite Hlen; reflexivity).
  lia.
Defined.

(** C8: the code misses the fallback it attempts.  Three entries above the
    threshold: with a summarizer that answers with blanks, and with a token
    cancelled by the time the summarizer returns, the guard of line 1120
    returns the three entries and the agent loop starts on their messages,
    as the claim says.  With a summarizer whose request is refused, or whose
    request ends in the provider's canceled-request error, the history is
    not returned: the exception reaches the [catch] of the turn, which shows
    it as an error and never starts the agent loop. *)
Theorem failed_summary_ends_the_turn :
  let blank := summarizerEnv (respondWith [PartText "  "]) false in
  let cancelled := summarizerEnv (respondWith [PartText "a summary"]) true in
  let refused := summarizerEnv (RequestThrew rateLimited) false in
  let aborted := summarizerEnv (RequestThrew (newError Provider._getCanceledMessage)) false in
  summarizeNeeded (computeTotalTokenCount refused (buildMessages refused threeEntries))
    100 threeEntries = true
  ∧ invokeTurn blank threeEntries (Some 100)
    = mkTurnResult (Some (messagesOf threeEntries)) None None
  ∧ invokeTurn cancelled threeEntries (Some 100)
    = mkTurnResult (Some (messagesOf threeEntries)) None None
  ∧ maybeCompact refused threeEntries 100 = inl rateLimited
  ∧ invokeTurn refused threeEntries (Some 100) = mkTurnResult None (Some rateLimited) None
  ∧ invokeTurn aborted threeEntries (Some 100)
    = mkTurnResult None (Some (newError Provider._getCanceledMessage)) None.
Proof.
  intros blank cancelled refused aborted.
  split; [reflexivity|].
  destruct (summarizer_outcomes blank threeEntries (Some 100) eq_refl) as [Hblank _].
  destruct (summarizer_outcomes cancelled threeEntries (Some 100) eq_refl) as [Hcancelled _].
  destruct (summarizer_outcomes refused threeEntries (Some 100) eq_refl) as [_ Hrefused].
  destruct (summarizer_outcomes aborted threeEntries (Some 100) eq_refl) as [_ Haborted].
  split; [exact (proj2 (Hblank "" eq_refl (or_introl eq_refl)))|].
  split; [exact (proj2 (Hcancelled "a summary" eq_refl (or_intror eq_refl)))|].
  split; [exact (proj1 (Hrefused rateLimited eq_refl))|].
  split; [exact (proj2 (Hrefused rateLimited eq_refl))|].
  exact (proj2 (Haborted (newError Provider._getCanceledMessage) eq_refl)).
Qed.

(** C9: the provider counts 100 tokens for the first message and fails on
    the second; the two estimates of one token each are added to the 100
    already in [total], where the estimate alone is 2. *)
Theorem fallback_adds_estimates_to_partial_count :
  computeTokenLength firstOnlyEnv (userSays "abcd") = inr 100
  ∧ computeTokenLength firstOnlyEnv (userSays "efgh") = inl rateLimited
  ∧ charEstimate (userSays "abcd") + charEstimate (userSays "efgh") = 2
  ∧ computeTotalTokenCount firstOnlyEnv [userSays "abcd"; userSays "efgh"] = 102.
Proof. by vm_compute. Qed.

End CompactorFacts.

(** ** Further properties *)

Module GatewayFacts.
Import Agent Responses AgentFacts Gateway.

Section Loop.
Context {Json : Type} `{!JsonValue Json}.

Implicit Types (env : Env Json) (st : LoopState Json) (s : Streaming Json).
Implicit Types (evs : list (Event Json)) (calls : list (ToolUse Json)).

(** *** Cancellation *)

(** X1.  When the token is cancelled at the top of the loop, the run ends
    there through the loop condition: no further chat request is sent, no
    tool is invoked, and the conversation is left as it is. *)
Theorem cancelled_loop_sends_nothing env (fuel : nat) st :
  isCancellationRequested env (events st) = true →
  ∃ r, loop env fuel st = Some r
       ∧ exit r = ExitCondition
       ∧ requestCount (events (final r)) = requestCount (events st)
       ∧ invocationCount (events (final r)) = invocationCount (events st)
       ∧ conversationMessages (final r) = conversationMessages st.
Proof.
  intros Hcancel.
  assert (loopCondition env st = false) as Hcond.
  { unfold loopCondition. rewrite Hcancel. apply andb_false_r. }
  exists (mkRunResult ExitCondition (epilogue env st)). split.
  { destruct fuel; simpl; by rewrite Hcond. }
  cbn [exit final]. destruct (epilogue_fields env st) as (_ & -> & -> & ->). done.
Qed.

(** *** The tool calls of one round *)

Lemma toolResultOf_shape (call : ToolUse Json) (o : ToolOutcome) :
  ∃ value, (toolResultOf call o).1 = MsgToolResult (toolCallId call) value (threw o)
           ∧ value ≠ [].
Proof.
  destruct o as [content|error]; simpl.
  - unfold formatContent.
    destruct (flat_map (λ i, (formatItem (Json := Json) i).1) (default [] content));
      (eexists; split; [reflexivity|done]).
  - eexists; split; [reflexivity|done].
Qed.

Lemma executeTools_results env calls : ∀ evs i call,
  calls !! i = Some call →
  ∃ value,
    (executeTools env evs calls).1.2 !! i =
      Some (MsgToolResult (toolCallId call) value
              (threw (invokeTool env (eventsBefore evs calls i) call)))
    ∧ value ≠ [].
Proof.
  induction calls as [|c calls IH]; intros evs i call Hi; [done|].
  simpl. destruct (toolResultOf c (invokeTool env evs c)) as [toolResult images] eqn:Hres.
  destruct (executeTools env (evs ++ [EvInvokeTool c]) calls) as [[evs2 rs] imgs] eqn:Hrest.
  destruct i as [|i]; simpl in *.
  - injection Hi as ->. unfold eventsBefore. simpl. rewrite app_nil_r.
    destruct (toolResultOf_shape call (invokeTool env evs call)) as (value & Hshape & Hne).
    rewrite Hres in Hshape. simpl in Hshape. subst toolResult. eauto.
  - destruct (IH (evs ++ [EvInvokeTool c]) i call Hi) as (value & Hlook & Hne).
    rewrite Hrest in Hlook. simpl in Hlook. exists value. split; [|done].
    rewrite Hlook. unfold eventsBefore. simpl. by rewrite <- app_assoc.
Qed.

Lemma executeTools_length env calls : ∀ evs,
  length (executeTools env evs calls).1.2 = length calls.
Proof.
  induction calls as [|c calls IH]; intros evs; [done|].
  simpl. destruct (toolResultOf c (invokeTool env evs c)) as [toolResult images].
  specialize (IH (evs ++ [EvInvokeTool c])).
  destruct (executeTools env (evs ++ [EvInvokeTool c]) calls) as [[evs2 rs] imgs].
  simpl in *. by rewrite IH.
Qed.

(** X2.  The tool calls of a round are dispatched one after the other, in
    order, all of them, whatever the earlier ones did.  Each call gets
    exactly one [tool_result], at the same position and with the call's id;
    the result is flagged as an error exactly when the tool threw, and it is
    never without content. *)
Theorem every_call_gets_its_result env evs calls :
  (executeTools env evs calls).1.1 = evs ++ map EvInvokeTool calls
  ∧ length (executeTools env evs calls).1.2 = length calls
  ∧ ∀ i call, calls !! i = Some call →
      ∃ value,
        (executeTools env evs calls).1.2 !! i =
          Some (MsgToolResult (toolCallId call) value
                  (threw (invokeTool env (eventsBefore evs calls i) call)))
        ∧ value ≠ [].
Proof.
  split; [apply executeTools_events|]. split; [apply executeTools_length|].
  apply executeTools_results.
Qed.

Lemma executeTools_ids env calls : ∀ evs,
  map resultIdOf (executeTools env evs calls).1.2 = map (λ c, Some (toolCallId c)) calls.
Proof.
  intros evs. apply list_eq. intros i. rewrite !list_lookup_fmap.
  destruct (calls !! i) as [call|] eqn:Hi; simpl.
  - destruct (executeTools_results env calls evs i call Hi) as (value & -> & _). done.
  - apply lookup_ge_None in Hi.
    rewrite (proj2 (lookup_ge_None _ _)); [done|]. rewrite executeTools_length. lia.
Qed.

(** *** What an iteration appends to the conversation *)

Lemma assistantMessages_content s :
  Forall (λ m : ChatMessage Json, content m ≠ []) (assistantMessages s).
Proof.
  unfold assistantMessages.
  destruct (_ ++ map MsgToolUse (toolCalls s)) eqn:Hc; repeat constructor. done.
Qed.

Lemma toolMessages_content (results images : list (MessagePart Json)) :
  Forall (λ m : ChatMessage Json, content m ≠ []) (toolMessages results images).
Proof.
  unfold toolMessages. apply Forall_app. split.
  - destruct results; repeat constructor. done.
  - destruct images; repeat constructor. done.
Qed.

Lemma afterResponse_appends env st n evs s :
  ∃ added,
    conversationMessages (stateOf (afterResponse env st n evs s))
      = conversationMessages st ++ added
    ∧ Forall (λ m : ChatMessage Json, content m ≠ []) added.
Proof.
  pose proof (assistantMessages_content s) as Hassistant.
  unfold afterResponse. destruct (toolCalls s) as [|tc tcs] eqn:Hcalls.
  - destruct (includes TASK_COMPLETE_SIGNAL (fullText s)); [by eexists|].
    destruct (2 <=? S (consecutiveNoCompleteCount st))%nat; simpl; [by eexists|].
    exists (assistantMessages s ++ [nudgeMessage]). split; [by rewrite app_assoc|].
    apply Forall_app. split; [done|]. by repeat constructor.
  - remember (tc :: tcs) as calls eqn:Hc.
    destruct (REPEATED_TOOL_CALL_THRESHOLD <=? _)%nat; [by eexists|].
    destruct (executeTools env evs calls) as [[evs' rs] imgs]. simpl.
    exists (assistantMessages s ++ toolMessages rs imgs). split; [by rewrite app_assoc|].
    apply Forall_app. split; [done|]. apply toolMessages_content.
Qed.

Lemma iteration_appends env st :
  ∃ added,
    conversationMessages (stateOf (iteration env st)) = conversationMessages st ++ added
    ∧ Forall (λ m : ChatMessage Json, content m ≠ []) added.
Proof.
  unfold iteration.
  destruct (sendChatRequest env (events st) (conversationMessages st)) as [e|r].
  { exists []. by rewrite app_nil_r. }
  destruct (gather r (hasEverEmitted st)) as [s0 leftEarly].
  destruct (if leftEarly then None else streamError r).
  { exists []. by rewrite app_nil_r. }
  destruct (result r).
  { exists []. by rewrite app_nil_r. }
  apply afterResponse_appends.
Qed.

(** A property that holds before the loop, that every pass through the
    body keeps and that the epilogue keeps, holds when the run is over. *)
Lemma loop_invariant env (P : LoopState Json → Prop) :
  (∀ st, P st → P (stateOf (iteration env st))) →
  (∀ st, P st → P (epilogue env st)) →
  ∀ fuel st r, P st → loop env fuel st = Some r → P (final r).
Proof.
  intros Hstep Hepilogue. induction fuel as [|fuel IH]; intros st r HP Hloop.
  - simpl in Hloop. destruct (loopCondition env st); [done|].
    injection Hloop as <-. by apply Hepilogue.
  - rewrite loop_unfold in Hloop. destruct (loopCondition env st).
    + specialize (Hstep st HP).
      destruct (iteration env st) as [st'|reason st'|e st']; simpl in Hstep.
      * exact (IH st' r Hstep Hloop).
      * injection Hloop as <-. by apply Hepilogue.
      * by injection Hloop as <-.
    + injection Hloop as <-. by apply Hepilogue.
Qed.

(** X3.  A run only ever appends to the conversation it was given, and no
    message it appends is without content parts (in particular no empty
    assistant message). *)
Theorem run_only_appends_messages_with_content env (messages : list (ChatMessage Json)) r :
  run env messages = Some r →
  ∃ added,
    conversationMessages (final r) = messages ++ added
    ∧ Forall (λ m : ChatMessage Json, content m ≠ []) added.
Proof.
  intros Hrun.
  refine (loop_invariant env
            (λ st, ∃ added, conversationMessages st = messages ++ added
                            ∧ Forall (λ m : ChatMessage Json, content m ≠ []) added)
            _ _ _ (initialState messages) r _ Hrun).
  - intros st (added & Hconv & Hall).
    destruct (iteration_appends env st) as (more & Hmore & Hmore_all).
    exists (added ++ more). split; [by rewrite Hmore, Hconv, app_assoc|].
    by apply Forall_app.
  - intros st HP. by destruct (epilogue_fields env st) as (_ & -> & _ & _).
  - exists []. split; [by rewrite app_nil_r|constructor].
Qed.

(** *** Tool results answer the tool calls *)

(** X4.  When a round with tool calls goes on, the conversation gains the
    assistant message that carries the calls and, right after it, one user
    message holding a [tool_result] for each call, in the order of the calls
    and with their ids; an image message may follow, nothing else. *)
Theorem tool_results_follow_their_calls env st s st' :
  responds env st s → toolCalls s ≠ [] → iteration env st = Continue st' →
  ∃ results images,
    conversationMessages st' =
      conversationMessages st
      ++ [mkChatMessage Assistant
            ((if nonEmpty (fullText s) then [MsgText (fullText s)] else [])
             ++ map MsgToolUse (toolCalls s));
          mkChatMessage User results]
      ++ match images with
         | [] => []
         | _ => [mkChatMessage User
                   (MsgText "Image(s) from readFile — view below for vision:" :: images)]
         end
    ∧ map resultIdOf results = map (λ c, Some (toolCallId c)) (toolCalls s).
Proof.
  intros Hresp Hcalls Hstep. rewrite (iteration_responds env st s Hresp) in Hstep.
  unfold afterResponse in Hstep. destruct (toolCalls s) as [|tc tcs] eqn:Htc; [done|].
  remember (tc :: tcs) as calls eqn:Hc.
  destruct (REPEATED_TOOL_CALL_THRESHOLD <=? _)%nat; [done|].
  pose proof (executeTools_ids env calls
                ((events st ++ [EvRequest (conversationMessages st)])
                   ++ progressEvents (shown s))) as Hids.
  pose proof (executeTools_length env calls
                ((events st ++ [EvRequest (conversationMessages st)])
                   ++ progressEvents (shown s))) as Hlen.
  destruct (executeTools env _ calls) as [[evs' rs] imgs]. simpl in Hids, Hlen.
  injection Hstep as <-. exists rs, imgs. cbn [conversationMessages].
  split; [|done].
  unfold assistantMessages, toolMessages. rewrite Htc.
  destruct rs as [|r rs]; [subst calls; simpl in Hlen; lia|].
  destruct (_ ++ map MsgToolUse calls) eqn:Hcontent.
  { apply app_eq_nil in Hcontent as [_ Hnil]. by subst calls. }
  by rewrite <- !app_assoc.
Qed.

(** *** The window *)

Lemma slideWindow_length (recent keys : list string) :
  (length (slideWindow recent keys) <= REPEATED_TOOL_CALL_WINDOW)%nat.
Proof.
  unfold slideWindow. case_match eqn:Hlong.
  - rewrite length_drop. apply Nat.ltb_lt in Hlong. lia.
  - apply Nat.ltb_ge in Hlong. lia.
Qed.

Lemma afterResponse_window env st n evs s :
  (length (recentToolKeys st) <= REPEATED_TOOL_CALL_WINDOW)%nat →
  (length (recentToolKeys (stateOf (afterResponse env st n evs s)))
   <= REPEATED_TOOL_CALL_WINDOW)%nat.
Proof.
  intros Hst. unfold afterResponse. destruct (toolCalls s) as [|tc tcs].
  - destruct (includes TASK_COMPLETE_SIGNAL (fullText s)); [done|].
    by destruct (2 <=? S (consecutiveNoCompleteCount st))%nat.
  - remember (tc :: tcs) as calls eqn:Hc.
    destruct (REPEATED_TOOL_CALL_THRESHOLD <=? _)%nat; [apply slideWindow_length|].
    destruct (executeTools env evs calls) as [[evs' rs] imgs]. apply slideWindow_length.
Qed.

(** X5.  The keys remembered for the repetition guard never number more
    than [REPEATED_TOOL_CALL_WINDOW], however many tool calls the rounds of
    a run bring. *)
Theorem window_never_exceeds_six env (messages : list (ChatMessage Json)) r :
  run env messages = Some r →
  (length (recentToolKeys (final r)) <= 6)%nat.
Proof.
  intros Hrun.
  refine (loop_invariant env
            (λ st, (length (recentToolKeys st) <= REPEATED_TOOL_CALL_WINDOW)%nat)
            _ _ _ (initialState messages) r _ Hrun).
  - intros st Hst. unfold iteration.
    destruct (sendChatRequest env (events st) (conversationMessages st)) as [e|resp];
      [done|].
    destruct (gather resp (hasEverEmitted st)) as [s0 leftEarly].
    destruct (if leftEarly then None else streamError resp); [done|].
    destruct (result resp); [done|]. by apply afterResponse_window.
  - done.
  - simpl. unfold REPEATED_TOOL_CALL_WINDOW. lia.
Qed.

(** *** Completion *)

(** X6.  A response without tool calls that contains the completion marker
    ends the run in the completed exit.  Nothing is shown after it, except
    when this was the last iteration the limit allows: then the
    iteration-limit note is shown all the same. *)
Theorem completed_run_and_the_limit_note env (fuel : nat) st s :
  loopCondition env st = true →
  (consecutiveNoCompleteCount st <= 1)%nat →
  responds env st s → toolCalls s = [] →
  includes TASK_COMPLETE_SIGNAL (fullText s) = true →
  ∃ st',
    iteration env st = Break Completed st'
    ∧ loop env (S fuel) st = Some (mkRunResult (ExitBreak Completed) (epilogue env st'))
    ∧ conversationMessages (epilogue env st') =
        conversationMessages st ++ assistantMessages s
    ∧ events (epilogue env st') =
        events st'
        ++ if bool_decide (S (iterationCount st) = MAX_ITERATIONS (maxIterations env))
           then [EvProgress (markdownContent iterationLimitNote)]
           else [].
Proof.
  intros Hcond Hcount Hresp Hcalls Hmarker.
  pose proof (iteration_responds env st s Hresp) as Hstep.
  unfold afterResponse in Hstep. rewrite Hcalls, Hmarker in Hstep.
  eexists. split; [exact Hstep|]. split.
  { by rewrite loop_unfold, Hcond, Hstep. }
  split; [done|]. apply loopCondition_limit in Hcond.
  unfold epilogue. cbn [events iterationCount consecutiveNoCompleteCount hasEverEmitted].
  f_equal. rewrite (proj2 (Nat.leb_gt 2 _)) by lia. rewrite orb_false_r. simpl.
  case_bool_decide as Hlast.
  - by rewrite (proj2 (Nat.leb_le _ _)) by lia.
  - by rewrite (proj2 (Nat.leb_gt _ _)) by lia.
Qed.

(** *** Cancellation seen while the stream is read *)

Lemma consume_left_early (before after : list (Arrival Json)) (a : Arrival Json) : ∀ s,
  Forall (λ b, cancelSeen b = false) before → cancelSeen a = true →
  consume s (before ++ a :: after) = ((consume s before).1, true).
Proof.
  induction before as [|b before IH]; intros s Hbefore Ha; simpl.
  - by rewrite Ha.
  - apply Forall_cons in Hbefore as [-> Hbefore]. by apply IH.
Qed.

(** X7.  When the token is seen cancelled while the stream is read, what
    arrives from then on is discarded, but the round goes on with what was
    gathered before: if that holds tool calls (and the repetition guard does
    not fire), every one of them is still dispatched. *)
Theorem calls_gathered_before_cancellation_are_dispatched
    env st (r : Response Json) (before after : list (Arrival Json)) (a : Arrival Json) :
  sendChatRequest env (events st) (conversationMessages st) = RequestSent r →
  stream r = before ++ a :: after →
  Forall (λ b, cancelSeen b = false) before → cancelSeen a = true →
  result r = None →
  let s := flush (consume (startStreaming r (hasEverEmitted st)) before).1 in
  toolCalls s ≠ [] →
  (sameKeyCount (slideWindow (recentToolKeys st) (map toolKey (toolCalls s)))
     (map toolKey (toolCalls s)) < REPEATED_TOOL_CALL_THRESHOLD)%nat →
  ∃ st',
    iteration env st = Continue st'
    ∧ events st' =
        (events st ++ [EvRequest (conversationMessages st)])
        ++ progressEvents (shown s) ++ map EvInvokeTool (toolCalls s).
Proof.
  intros Hsent Hstream Hbefore Ha Hresult s Hcalls Hguard.
  assert (responds env st s) as Hresp.
  { exists r. unfold gather. rewrite Hstream, (consume_left_early before after a) by done.
    by repeat split. }
  rewrite (iteration_responds env st s Hresp). unfold afterResponse.
  destruct (toolCalls s) as [|tc tcs] eqn:Htc; [done|].
  remember (tc :: tcs) as calls eqn:Hc.
  rewrite (proj2 (Nat.leb_gt _ _)) by lia.
  pose proof (executeTools_events env calls
                ((events st ++ [EvRequest (conversationMessages st)])
                   ++ progressEvents (shown s))) as Hevs.
  destruct (executeTools env _ calls) as [[evs' rs] imgs]. simpl in Hevs.
  eexists. split; [done|]. cbn [events]. by rewrite Hevs, <- !app_assoc.
Qed.

End Loop.

Import Samples.

Lemma cancelled_loop_witness :
  ∃ r, run cancelledEnv listFiles = Some r
       ∧ exit r = ExitCondition
       ∧ requestCount (events (final r)) = 0%nat
       ∧ invocationCount (events (final r)) = 0%nat.
Proof.
  destruct (cancelled_loop_sends_nothing cancelledEnv 25 (initialState listFiles) eq_refl)
    as (r & Hloop & Hexit & Hreq & Hinv & _).
  exists r. by repeat split.
Defined.

Lemma every_call_witness :
  (executeTools brokenReadEnv [] [listDot; readMissing]).1.1
    = [EvInvokeTool listDot; EvInvokeTool readMissing]
  ∧ ∃ value,
      (executeTools brokenReadEnv [] [listDot; readMissing]).1.2 !! 1%nat
        = Some (MsgToolResult "call_7" value true)
      ∧ value ≠ [].
Proof.
  destruct (every_call_gets_its_result brokenReadEnv [] [listDot; readMissing])
    as (Hevents & _ & Hresults).
  split; [exact Hevents|]. exact (Hresults 1%nat readMissing eq_refl).
Defined.

Lemma run_appends_witness :
  ∃ added, listFiles ++ added =
           listFiles ++ [mkChatMessage Assistant [MsgText "Done. [TASK_COMPLETE]"]]
           ∧ Forall (λ m : ChatMessage SampleJson, content m ≠ []) added.
Proof.
  destruct (run_only_appends_messages_with_content (doneEnv None) listFiles
              (mkRunResult (ExitBreak Completed)
                 (epilogue (doneEnv None) (next (doneEnv None) (initialState listFiles))))
              eq_refl)
    as (added & Hconv & Hall).
  exists added. split; [|done]. rewrite <- Hconv. reflexivity.
Defined.

Lemma tool_results_witness :
  ∃ results,
    map resultIdOf results = [Some "call_1"]
    ∧ (mkChatMessage User results : ChatMessage SampleJson)
        ∈ conversationMessages (next stubbornEnv (initialState listFiles)).
Proof.
  destruct (tool_results_follow_their_calls stubbornEnv (initialState listFiles)
              (gathered stubbornEnv (initialState listFiles))
              (next stubbornEnv (initialState listFiles)))
    as (results & images & Hconv & Hids);
    [apply sample_responds; eexists; by repeat split | done | reflexivity |].
  exists results. split; [exact Hids|]. rewrite Hconv.
  apply elem_of_app. right. apply elem_of_app. left.
  apply elem_of_cons. right. apply elem_of_cons. by left.
Defined.

Lemma window_witness :
  (length (recentToolKeys
             (epilogue (busyEnv (Some 9%Z))
                (Nat.iter 9 (next (busyEnv (Some 9%Z))) (initialState listFiles)))) <= 6)%nat.
Proof.
  apply (window_never_exceeds_six (busyEnv (Some 9%Z)) listFiles
           (mkRunResult ExitCondition
              (epilogue (busyEnv (Some 9%Z))
                 (Nat.iter 9 (next (busyEnv (Some 9%Z))) (initialState listFiles))))).
  by vm_compute.
Defined.

Lemma completed_on_last_iteration_witness :
  ∃ st',
    loop (doneEnv (Some 1)) 1 (initialState listFiles) =
      Some (mkRunResult (ExitBreak Completed) (epilogue (doneEnv (Some 1)) st'))
    ∧ last (events (epilogue (doneEnv (Some 1)) st')) =
        Some (EvProgress (markdownContent iterationLimitNote)).
Proof.
  destruct (completed_run_and_the_limit_note (doneEnv (Some 1)) 0 (initialState listFiles)
              (gathered (doneEnv (Some 1)) (initialState listFiles)))
    as (st' & Hstep & Hloop & _ & Hevents);
    [reflexivity | simpl; lia
     | apply sample_responds; eexists; by repeat split
     | reflexivity | reflexivity |].
  exists st'. split; [exact Hloop|]. rewrite Hevents.
  change (bool_decide _) with true. cbv iota. apply last_snoc.
Defined.

Lemma cancelled_midstream_witness :
  ∃ st',
    iteration interruptedEnv (initialState listFiles) = Continue st'
    ∧ invocationCount (events st') = 1%nat.
Proof.
  destruct (calls_gathered_before_cancellation_are_dispatched interruptedEnv
              (initialState listFiles) interrupted
              [mkArrival false [(PartToolUse listDot, 0)]] []
              (mkArrival true [(PartToolUse readMissing, 0)]))
    as (st' & Hstep & Hevents);
    [reflexivity | reflexivity | by repeat constructor | reflexivity | reflexivity
     | done | vm_compute; lia |].
  exists st'. split; [exact Hstep|]. rewrite Hevents. reflexivity.
Defined.

End GatewayFacts.

Module StreamFacts.
Import Provider Fragments ProviderFacts Anthropic.

Section Adapter.
Context {Json : Type} `{!JsonValue Json}.

(** *** The order of the finalized calls *)

Lemma omap_cons_Some {A B} (f : A → option B) x y (l : list A) :
  f x = Some y → omap f (x :: l) = y :: omap f l.
Proof. intros Hx. change (omap f (x :: l)) with (match f x with Some y => y :: omap f l | None => omap f l end). by rewrite Hx. Qed.

(** X8.  [onEnd] emits the finalized tool calls by ascending index, whatever
    the order in which their fragments arrived: of two calls that are both
    finalized, the one with the smaller index comes first. *)
Theorem finalized_calls_come_in_index_order
    (lines : list SseLine) (idx1 idx2 : Z) (p1 p2 : ResponsePart Json) :
  idx1 < idx2 →
  finalizedAt lines idx1 = Some p1 →
  finalizedAt lines idx2 = Some p2 →
  ∃ l1 l2 l3,
    onEnd (Json := Json) (accumulatedAtEnd (Json := Json) lines)
      = l1 ++ p1 :: l2 ++ p2 :: l3.
Proof.
  unfold finalizedAt. set (m := accumulatedAtEnd (Json := Json) lines).
  intros Hlt H1 H2.
  assert (idx1 ∈ sortedIndices m) as Hin1.
  { apply elem_of_sortedIndices. destruct (m !! idx1); [eauto|done]. }
  assert (idx2 ∈ sortedIndices m) as Hin2.
  { apply elem_of_sortedIndices. destruct (m !! idx2); [eauto|done]. }
  assert (StronglySorted Z.le (sortedIndices m)) as Hsorted.
  { apply Sorted_StronglySorted; [apply _|]. apply Sorted_merge_sort, _. }
  apply list_elem_of_split in Hin2 as (front & back & Hsplit).
  rewrite Hsplit in Hin1, Hsorted.
  apply elem_of_app in Hin1 as [Hfront | Hback].
  - apply list_elem_of_split in Hfront as (a & b & ->).
    unfold onEnd. rewrite Hsplit, !omap_app.
    rewrite (omap_cons_Some _ idx1 p1 b H1), (omap_cons_Some _ idx2 p2 back H2).
    rewrite <- app_assoc. by eexists _, _, _.
  - apply elem_of_cons in Hback as [-> | Hback]; [lia|].
    apply StronglySorted_app_1_r in Hsorted.
    apply StronglySorted_cons in Hsorted as [Hall _].
    rewrite Forall_forall in Hall. specialize (Hall idx1 Hback). lia.
Qed.

(** *** The Anthropic stream *)

Lemma onEvents_app (evs1 evs2 : list StreamEvent) : ∀ st,
  onEvents (Json := Json) st (evs1 ++ evs2) =
  ((onEvents (onEvents (Json := Json) st evs1).1 evs2).1,
   (onEvents (Json := Json) st evs1).2 ++ (onEvents (onEvents (Json := Json) st evs1).1 evs2).2).
Proof.
  induction evs1 as [|ev evs1 IH]; intros st; simpl.
  - by destruct (onEvents st evs2).
  - destruct (onEvent st ev) as [st1 out1]. rewrite IH.
    destruct (onEvents st1 evs1) as [st2 out2]. simpl.
    destruct (onEvents st2 evs2) as [st3 out3]. simpl. by rewrite app_assoc.
Qed.

Lemma onEvents_deltas (deltas : list BlockDelta) : ∀ st,
  onEvents (Json := Json) st (map ContentBlockDelta deltas) =
  (mkPending (pendingToolUse st)
     (inputJsonAccum st +:+ foldr String.append "" (partials deltas)),
   shownDeltas deltas).
Proof.
  induction deltas as [|d deltas IH]; intros st.
  - simpl. rewrite append_empty_r. by destruct st.
  - change (map ContentBlockDelta (d :: deltas))
      with (ContentBlockDelta d :: map ContentBlockDelta deltas).
    cbn [onEvents]. destruct d as [text|t|p|]; cbn [onEvent]; rewrite IH; try done.
    cbn [pendingToolUse inputJsonAccum]. unfold partials. simpl.
    by rewrite append_assoc.
Qed.

(** X9.  A tool call of the Anthropic stream, from its [content_block_start]
    over any number of deltas to its [content_block_stop], puts on the stream
    the text and thinking of those deltas and then, at the stop, exactly one
    [tool_use] with the block's id and name.  Its parameters are the
    [JSON.parse] of the [partial_json] fragments concatenated in arrival
    order, or the empty object when that text is blank or does not parse;
    afterwards nothing is pending. *)
Theorem anthropic_block_yields_one_tool_use
    (st : Pending) (id nm : string) (deltas : list BlockDelta) :
  let args := foldr String.append "" (partials deltas) in
  onEvents (Json := Json) st
    (ToolUseBlockStart id nm :: map ContentBlockDelta deltas ++ [ContentBlockStop])
  = (initial,
     shownDeltas deltas ++ [PartToolUse (mkToolUse nm id (parametersAtStop args))])
  ∧ (∀ parsed, nonEmpty (trim args) = true → JSON_parse args = Some parsed →
       parametersAtStop (Json := Json) args = parsed)
  ∧ (nonEmpty (trim args) = false ∨ JSON_parse (Json := Json) args = None →
       parametersAtStop (Json := Json) args = emptyObject).
Proof.
  intros args. split; [|split].
  - cbn [onEvents onEvent]. rewrite onEvents_app, onEvents_deltas. simpl.
    by rewrite append_nil_l.
  - intros parsed Hne Hparse. unfold parametersAtStop. by rewrite Hne, Hparse.
  - intros [Hblank | Hbad]; unfold parametersAtStop.
    + by rewrite Hblank.
    + rewrite Hbad. by case_match.
Qed.

Lemma onEvents_open_block (deltas : list BlockDelta) (id nm : string) : ∀ st,
  toolUsesOf (onEvents (Json := Json) st
                (ToolUseBlockStart id nm :: map ContentBlockDelta deltas)).2 = [].
Proof.
  intros st. cbn [onEvents onEvent]. rewrite onEvents_deltas. simpl.
  unfold toolUsesOf, shownDeltas. induction deltas as [|d deltas IH]; [done|].
  simpl. rewrite filter_app, IH, app_nil_r. by destruct d.
Qed.

(** X10.  A tool call of the Anthropic stream whose [content_block_stop]
    never arrives is dropped when the stream ends: the [tool_use] events are
    those of the events before its start, and the promise is fulfilled. *)
Theorem anthropic_open_block_is_dropped
    (before : list StreamEvent) (id nm : string) (deltas : list BlockDelta) :
  let evs := before ++ ToolUseBlockStart id nm :: map ContentBlockDelta deltas in
  toolUsesOf (emitted (listenAnthropic (Json := Json) evs CloseEnd))
    = toolUsesOf (emitted (listenAnthropic (Json := Json) before CloseEnd))
  ∧ thrown (listenAnthropic (Json := Json) evs CloseEnd) = None.
Proof.
  intros evs. split; [|done]. subst evs. unfold listenAnthropic. cbn [emitted].
  rewrite onEvents_app. cbn [snd]. unfold toolUsesOf at 1. rewrite filter_app.
  fold (toolUsesOf (onEvents (Json := Json) initial before).2).
  fold (toolUsesOf (onEvents (Json := Json) (onEvents (Json := Json) initial before).1
                      (ToolUseBlockStart id nm :: map ContentBlockDelta deltas)).2).
  by rewrite onEvents_open_block, app_nil_r.
Qed.

Lemma onEvents_counts (evs : list StreamEvent) : ∀ st,
  (length (toolUsesOf (onEvents (Json := Json) st evs).2)
   <= length (filter (λ ev, isStop ev = true) evs))%nat
  ∧ (length (toolUsesOf (onEvents (Json := Json) st evs).2)
     <= match pendingToolUse st with Some _ => 1 | None => 0 end
        + length (filter (λ ev, isStart ev = true) evs))%nat.
Proof.
  induction evs as [|ev evs IH]; intros st; [simpl; lia|].
  cbn [onEvents]. destruct (onEvent st ev) as [st1 out1] eqn:Hev.
  specialize (IH st1). destruct (onEvents st1 evs) as [st2 out2]. cbn [snd] in *.
  unfold toolUsesOf in *. rewrite filter_app, length_app, !filter_cons.
  destruct ev as [[text|t|p|]| id nm | |]; cbn [onEvent] in Hev;
    [| | | | |destruct (pendingToolUse st) as [[id nm]|] eqn:Hp|];
    injection Hev as <- <-; rewrite ?Hp in IH;
    repeat case_decide; try done; cbn in *; repeat case_decide; try done;
    cbn in *; lia.
Qed.

(** X11.  The Anthropic adapter never emits more [tool_use] events than the
    stream has tool-use block starts, nor more than it has
    [content_block_stop] events; a stream without a stop yields none. *)
Theorem anthropic_tool_uses_are_bounded (evs : list StreamEvent) (close : StreamClose) :
  (length (toolUsesOf (emitted (listenAnthropic (Json := Json) evs close)))
   <= length (filter (λ ev, isStart ev = true) evs))%nat
  ∧ (length (toolUsesOf (emitted (listenAnthropic (Json := Json) evs close)))
     <= length (filter (λ ev, isStop ev = true) evs))%nat.
Proof.
  destruct (onEvents_counts evs initial) as [Hstops Hstarts].
  unfold listenAnthropic. cbn [emitted]. simpl in Hstarts. split; lia.
Qed.

End Adapter.

Import Samples Gateway.

Lemma index_order_witness :
  ∃ l1 l2 l3,
    onEnd (accumulatedAtEnd (Json := SampleJson) twoCalls)
    = l1 ++ PartToolUse listDot :: l2 ++ PartToolUse readAll :: l3.
Proof.
  apply (finalized_calls_come_in_index_order (Json := SampleJson) twoCalls 0 1);
    [lia | reflexivity | reflexivity].
Defined.

Lemma anthropic_block_witness :
  onEvents (Json := SampleJson) initial
    (ToolUseBlockStart "call_1" "listDirectory"
     :: map ContentBlockDelta
          [InputJsonDelta ("{" +:+ quote +:+ "path" +:+ quote);
           TextDelta "Looking";
           InputJsonDelta (":" +:+ quote +:+ "." +:+ quote +:+ "}")]
     ++ [ContentBlockStop])
  = (initial, [PartText "Looking"; PartToolUse listDot]).
Proof.
  destruct (anthropic_block_yields_one_tool_use (Json := SampleJson) initial
              "call_1" "listDirectory"
              [InputJsonDelta ("{" +:+ quote +:+ "path" +:+ quote);
               TextDelta "Looking";
               InputJsonDelta (":" +:+ quote +:+ "." +:+ quote +:+ "}")])
    as (Hrun & Hparsed & _).
  pose proof (Hparsed (SampleObject [("path", ".")]) eq_refl eq_refl) as Hp.
  rewrite Hrun, Hp. reflexivity.
Defined.

End StreamFacts.

Module ApiErrorFacts.
Import Provider ProviderFacts JsNumber ApiErrors Anthropic Calls.

(** *** Text search *)

Lemma prefix_app_foreign (needle : string) : ∀ (a : string) c r,
  occursIn c needle = false →
  String.prefix needle (a +:+ String c r) = true → String.prefix needle a = true.
Proof.
  induction needle as [|x needle IH]; intros a c r Hc Hp; [by destruct a|].
  simpl in Hc. apply orb_false_elim in Hc as [Hx Hrest].
  destruct a as [|y a].
  - rewrite append_nil_l in Hp. simpl in Hp.
    destruct (Ascii.ascii_dec x c) as [->|]; [|done].
    by rewrite Ascii.eqb_refl in Hx.
  - rewrite append_cons in Hp. simpl in *.
    destruct (Ascii.ascii_dec x y); [|done]. by eapply IH.
Qed.

Lemma includes_app_foreign (needle : string) c r : ∀ a : string,
  occursIn c needle = false →
  includes needle a = false →
  includes needle (a +:+ String c r) = includes needle (String c r).
Proof.
  induction a as [|y a IH]; intros Hc Ha; [by rewrite append_nil_l|].
  rewrite includes_cons in Ha. apply orb_false_elim in Ha as [Hp Ha].
  rewrite append_cons, includes_cons, (IH Hc Ha).
  destruct (String.prefix needle (String y (a +:+ String c r))) eqn:Hpre; [|done].
  rewrite <- append_cons in Hpre. apply prefix_app_foreign in Hpre; [|done].
  congruence.
Qed.

Lemma includes_foreign_run (needle : string) (b : string) : ∀ d : string,
  nonEmpty needle = true →
  foreignTo needle d = true →
  includes needle (d +:+ b) = includes needle b.
Proof.
  intros d Hne. induction d as [|c d IH]; intros Hd; [by rewrite append_nil_l|].
  simpl in Hd. apply andb_prop in Hd as [Hc Hd]. apply negb_true_iff in Hc.
  rewrite append_cons, includes_cons, (IH Hd).
  destruct needle as [|x needle]; [done|]. simpl in Hc.
  apply orb_false_elim in Hc as [Hx _]. simpl.
  destruct (Ascii.ascii_dec x c) as [->|]; [|done].
  by rewrite Ascii.eqb_refl in Hx.
Qed.

(** A needle is not found across a non-empty run of characters it does not
    contain. *)
Lemma includes_around (needle a d b : string) :
  nonEmpty needle = true → nonEmpty d = true → foreignTo needle d = true →
  includes needle a = false → includes needle b = false →
  includes needle (a +:+ d +:+ b) = false.
Proof.
  intros Hne Hd Hforeign Ha Hb. destruct d as [|c d]; [done|].
  rewrite append_cons.
  simpl in Hforeign. apply andb_prop in Hforeign as [Hc Hrest].
  apply negb_true_iff in Hc.
  rewrite includes_app_foreign by done.
  rewrite <- append_cons, includes_foreign_run; [done..|].
  simpl. by rewrite Hc.
Qed.

(** *** Decimal numerals *)

Lemma string_of_uint_chars (d : Decimal.uint) :
  allChars decimalChar (DecimalString.NilEmpty.string_of_uint d) = true.
Proof. induction d; simpl; try done. Qed.

Lemma toString_chars (n : Z) : allChars decimalChar (toString n) = true.
Proof.
  unfold toString.
  assert (∀ d, allChars decimalChar (DecimalString.NilZero.string_of_uint d) = true) as H.
  { intros d. destruct d; try done; apply (string_of_uint_chars (_ d)). }
  destruct (Z.to_int n) as [d|d]; simpl; [apply H|]. apply H.
Qed.

Lemma toString_nonEmpty (n : Z) : nonEmpty (toString n) = true.
Proof.
  unfold toString. destruct (Z.to_int n) as [d|d]; [|done].
  by destruct d.
Qed.

Lemma decimalChar_lower (c : Ascii.ascii) : decimalChar c = true → lowerAscii c = c.
Proof. destruct c as [[] [] [] [] [] [] [] []]; by vm_compute. Qed.

Lemma decimalChar_foreign (c : Ascii.ascii) :
  decimalChar c = true →
  occursIn c "canceled" = false ∧ occursIn c "cancellation" = false.
Proof. destruct c as [[] [] [] [] [] [] [] []]; by vm_compute. Qed.

Lemma decimal_lower (s : string) : allChars decimalChar s = true → toLowerAscii s = s.
Proof.
  induction s as [|c s IH]; [done|]. simpl. intros [Hc Hs]%andb_prop.
  by rewrite decimalChar_lower, IH.
Qed.

Lemma decimal_foreign (s : string) :
  allChars decimalChar s = true →
  foreignTo "canceled" s = true ∧ foreignTo "cancellation" s = true.
Proof.
  induction s as [|c s IH]; [done|]. intros [Hc Hs]%andb_prop.
  destruct (decimalChar_foreign c Hc) as [H1 H2], (IH Hs) as [H3 H4].
  cbn [foreignTo]. by rewrite H1, H2, H3, H4.
Qed.

Lemma default_message_not_canceled (before after : string) (n : Z) :
  _isCanceledError before = false → _isCanceledError after = false →
  _isCanceledError (before +:+ toString n +:+ after) = false.
Proof.
  unfold _isCanceledError. intros [H1 H2]%orb_false_elim [H3 H4]%orb_false_elim.
  rewrite !toLowerAscii_app, (decimal_lower (toString n)) by apply toString_chars.
  destruct (decimal_foreign (toString n) (toString_chars n)) as [F1 F2].
  rewrite !includes_around; try done; apply toString_nonEmpty.
Qed.

Lemma api_message_is_kept (provider : string) (statusCode : Z) :
  provider ∈ providerLabels →
  _isCanceledError (_getApiErrorMessage provider statusCode) = false.
Proof.
  intros Hin. unfold _getApiErrorMessage.
  repeat (case_match; [
    repeat (apply elem_of_cons in Hin as [->|Hin]; [by vm_compute|]);
    by apply elem_of_nil in Hin |]).
  rewrite <- !append_assoc.
  rewrite (append_assoc _ (toString statusCode)).
  apply default_message_not_canceled; [|by vm_compute].
  repeat (apply elem_of_cons in Hin as [->|Hin]; [by vm_compute|]).
  by apply elem_of_nil in Hin.
Qed.

(** X12.  The message built for a failed API call never reads as a
    cancellation, for each of the four provider names the adapters pass and
    for every status code (the default branch prints the code): the [catch]
    block of [_doSendChatRequest] leaves such an error as it is. *)
Theorem api_error_is_not_a_cancellation (provider : string) (statusCode : Z) :
  provider ∈ providerLabels →
  _isCanceledError (_getApiErrorMessage provider statusCode) = false
  ∧ toThrow (newError (_getApiErrorMessage provider statusCode))
    = newError (_getApiErrorMessage provider statusCode).
Proof.
  intros Hin. pose proof (api_message_is_kept provider statusCode Hin) as Hmsg.
  split; [done|]. unfold toThrow. cbn [errMsgOf newError message]. by rewrite Hmsg.
Qed.

Lemma api_error_witness :
  _isCanceledError (_getApiErrorMessage "Anthropic" 418) = false
  ∧ toThrow (newError (_getApiErrorMessage "Anthropic" 418))
    = newError (_getApiErrorMessage "Anthropic" 418).
Proof. apply (api_error_is_not_a_cancellation "Anthropic" 418). vm_compute. set_solver. Defined.

Section Request.
Context {Json : Type} `{!JsonValue Json}.

(** X13.  When the OpenAI or the Anthropic endpoint answers with a status
    other than 200 (or with none), the request puts nothing on the stream,
    whatever the response stream holds, rejects the stream once with the API
    error message for that status, and the promise rejects with the same
    error.  With status 200 the response stream is listened to instead: when
    it ends, all its parts are on the stream, which is resolved. *)
Theorem failed_status_rejects_with_the_api_message
    (openai : HttpResponse SseLine) (anthropic : HttpResponse StreamEvent)
    (others : string → AdapterRun Json) :
  let adapters := adaptersFor openai anthropic others in
  (statusCode openai ≠ Some 200 →
   _doSendChatRequest adapters "openai"
   = ([OpReject (newError (_getApiErrorMessage "OpenAI" (default 0 (statusCode openai))))],
      Some (newError (_getApiErrorMessage "OpenAI" (default 0 (statusCode openai))))))
  ∧ (statusCode anthropic ≠ Some 200 →
     _doSendChatRequest adapters "anthropic"
     = ([OpReject
           (newError (_getApiErrorMessage "Anthropic" (default 0 (statusCode anthropic))))],
        Some (newError (_getApiErrorMessage "Anthropic" (default 0 (statusCode anthropic))))))
  ∧ (statusCode openai = Some 200 → close openai = CloseEnd →
     _doSendChatRequest adapters "openai"
     = (map OpEmit (emitted (listenOpenAI (lines openai) CloseEnd)) ++ [OpResolve], None))
  ∧ (statusCode anthropic = Some 200 → close anthropic = CloseEnd →
     _doSendChatRequest adapters "anthropic"
     = (map OpEmit (emitted (listenAnthropic (lines anthropic) CloseEnd)) ++ [OpResolve],
        None)).
Proof.
  intros adapters. subst adapters.
  assert (∀ label statusCode, label ∈ providerLabels →
            toThrow (newError (_getApiErrorMessage label statusCode))
            = newError (_getApiErrorMessage label statusCode)) as Hkept.
  { intros label statusCode Hlabel. unfold toThrow. cbn [errMsgOf newError message].
    by rewrite (api_message_is_kept label statusCode Hlabel). }
  unfold _doSendChatRequest, dispatch, adaptersFor.
  change (supportedProvider "openai") with true.
  change (supportedProvider "anthropic") with true.
  cbn [String.eqb Ascii.eqb Bool.eqb andb].
  unfold _callOpenAI, _callAnthropic. repeat split.
  - intros Hstatus. rewrite bool_decide_true by done.
    cbn [thrown emitted map app negb]. rewrite Hkept; [done|]. unfold providerLabels. set_solver.
  - intros Hstatus. rewrite bool_decide_true by done.
    cbn [thrown emitted map app negb]. rewrite Hkept; [done|]. unfold providerLabels. set_solver.
  - intros Hstatus Hclose. rewrite bool_decide_false by (by rewrite Hstatus; intros []).
    rewrite Hclose. unfold listenOpenAI. by destruct (onData ∅ (lines openai)).
  - intros Hstatus Hclose. rewrite bool_decide_false by (by rewrite Hstatus; intros []).
    by rewrite Hclose.
Qed.

End Request.

Import Samples.

Lemma failed_status_witness :
  _doSendChatRequest (Json := Samples.SampleJson)
    (adaptersFor (mkHttpResponse (Some 429) Samples.splitCall CloseEnd)
       (mkHttpResponse None [] CloseEnd) (λ _, mkAdapterRun [] None))
    "openai"
  = ([OpReject Samples.rateLimited], Some Samples.rateLimited)
  ∧ snd (_doSendChatRequest (Json := Samples.SampleJson)
           (adaptersFor (mkHttpResponse (Some 200) Samples.splitCall CloseEnd)
              (mkHttpResponse None [] CloseEnd) (λ _, mkAdapterRun [] None))
           "openai") = None.
Proof.
  split.
  - apply (failed_status_rejects_with_the_api_message (Json := Samples.SampleJson)
             (mkHttpResponse (Some 429) Samples.splitCall CloseEnd)
             (mkHttpResponse None [] CloseEnd) (λ _, mkAdapterRun [] None)).
    by vm_compute.
  - destruct (failed_status_rejects_with_the_api_message (Json := Samples.SampleJson)
                (mkHttpResponse (Some 200) Samples.splitCall CloseEnd)
                (mkHttpResponse None [] CloseEnd) (λ _, mkAdapterRun [] None))
      as (_ & _ & Hok & _).
    by rewrite (Hok eq_refl eq_refl).
Defined.

End ApiErrorFacts.

Module SettingsFacts.
Import Agent AgentFacts JsNumber Settings.

Lemma clamp_range (n : Z) : 1 <= clamp n <= 100.
Proof. unfold clamp. lia. Qed.

Lemma clamp_fixed (n : Z) : 1 <= n <= 100 → clamp n = n.
Proof. unfold clamp. lia. Qed.

(** [parseInt] reads back what [String] prints, for the numbers the service
    can store. *)
Lemma parseInt_toString (n : Z) : 1 <= n <= 100 → parseInt (toString n) = Some n.
Proof.
  intros Hn.
  assert (Forall (λ z, parseInt (toString z) = Some z) (seqZ 1 100)) as Hall
    by (apply (bool_decide_unpack _); by vm_compute).
  rewrite Forall_forall in Hall. apply Hall, elem_of_seqZ. lia.
Qed.

Lemma toString_stored (n : Z) : 1 <= n <= 100 → nonEmpty (toString n) = true.
Proof.
  intros Hn.
  assert (Forall (λ z, nonEmpty (toString z) = true) (seqZ 1 100)) as Hall
    by (apply (bool_decide_unpack _); by vm_compute).
  rewrite Forall_forall in Hall. apply Hall, elem_of_seqZ. lia.
Qed.

Lemma getMaxIterationsPerRequest_range (storage : Storage) :
  1 <= (getMaxIterationsPerRequest storage).1 <= 100.
Proof.
  unfold getMaxIterationsPerRequest, DEFAULT_MAX_ITERATIONS, clamp.
  destruct storage as [[|c s]|]; cbn [fst]; [lia| |lia].
  destruct (parseInt (String c s)) as [n|]; [|lia].
  destruct (n <? 1); lia.
Qed.

Lemma get_after_set (value : Z) (storage : Storage) :
  getMaxIterationsPerRequest (setMaxIterationsPerRequest value storage)
  = (clamp value, Some (toString (clamp value))).
Proof.
  pose proof (clamp_range value) as Hrange.
  unfold setMaxIterationsPerRequest, getMaxIterationsPerRequest.
  pose proof (toString_stored _ Hrange) as Hne.
  destruct (toString (clamp value)) as [|c s] eqn:Hs; [done|].
  rewrite <- Hs, (parseInt_toString _ Hrange).
  destruct (clamp value <? 1) eqn:Hlt; [lia|]. by rewrite clamp_fixed.
Qed.

Section Loop.
Context {Json : Type} `{!JsonValue Json}.

(** X14.  Whatever the storage holds (nothing, an empty text, text that is
    no number, any number), the value the settings service hands out lies
    between 1 and 100, the agent built from it uses exactly that value as its
    limit, and no run of this agent sends more than 100 chat requests. *)
Theorem stored_limit_is_always_usable
    (storage : Storage) (env : Env Json) (messages : list (ChatMessage Json)) :
  maxIterations env = Some (getMaxIterationsPerRequest storage).1 →
  1 <= (getMaxIterationsPerRequest storage).1 <= 100
  ∧ MAX_ITERATIONS (maxIterations env)
    = Z.to_nat (getMaxIterationsPerRequest storage).1
  ∧ ∃ r, run env messages = Some r
       ∧ (requestCount (events (final r))
          <= Z.to_nat (getMaxIterationsPerRequest storage).1 <= 100)%nat.
Proof.
  intros Henv. pose proof (getMaxIterationsPerRequest_range storage) as Hrange.
  assert (MAX_ITERATIONS (maxIterations env)
          = Z.to_nat (getMaxIterationsPerRequest storage).1) as Hmax.
  { rewrite Henv. unfold MAX_ITERATIONS, default. cbn [from_option id]. f_equal. lia. }
  split; [done|]. split; [done|].
  destruct (loop_terminates env (MAX_ITERATIONS (maxIterations env)) (initialState messages))
    as (r & Hrun & Hbound & _); [simpl; lia|].
  exists r. split; [done|].
  change (requestCount (events (initialState messages))) with 0%nat in Hbound.
  change (iterationCount (initialState messages)) with 0%nat in Hbound.
  rewrite Hmax in Hbound. lia.
Qed.

End Loop.

(** X15.  What [setMaxIterationsPerRequest] stores is read back by
    [getMaxIterationsPerRequest] as the value clamped to 1..100, whatever
    was stored before, and reading does not change the storage again. *)
Theorem stored_limit_round_trip (value : Z) (storage : Storage) :
  let stored := setMaxIterationsPerRequest value storage in
  (getMaxIterationsPerRequest stored).1 = Z.min 100 (Z.max 1 value)
  ∧ (getMaxIterationsPerRequest stored).2 = stored.
Proof.
  intros stored. subst stored. by rewrite get_after_set.
Qed.

(** X16.  The settings editor accepts exactly the inputs that read as a
    number from 10 to 500, and the agent then runs with the smaller of that
    number and 100: an accepted number above 100 is saved as 100. *)
Theorem editor_limit_is_capped_at_100 (input : string) (storage : Storage) :
  match saveAgentSettings input storage with
  | Some stored =>
      ∃ n, parseInt (trim input) = Some n ∧ 10 <= n <= 500
           ∧ (getMaxIterationsPerRequest stored).1 = Z.min n 100
           ∧ agentLimit stored = Z.to_nat (Z.min n 100)
  | None =>
      match parseInt (trim input) with
      | Some n => n < 10 ∨ 500 < n
      | None => True
      end
  end.
Proof.
  unfold saveAgentSettings, validatedIterations.
  destruct (parseInt (trim input)) as [n|]; [|done].
  destruct ((n <? 10) || (500 <? n)) eqn:Hcheck.
  - apply orb_true_iff in Hcheck as [?%Z.ltb_lt | ?%Z.ltb_lt]; lia.
  - apply orb_false_elim in Hcheck as [?%Z.ltb_ge ?%Z.ltb_ge].
    exists n. split; [done|]. split; [lia|].
    unfold agentLimit. rewrite get_after_set. cbn [fst].
    unfold MAX_ITERATIONS, clamp, default. cbn [from_option id]. split; [lia|]. f_equal. lia.
Qed.

Import Samples Gateway.

Lemma stored_limit_witness :
  ∃ r, run (doneEnv (Some (getMaxIterationsPerRequest (Some "250")).1))
         listFiles = Some r
       ∧ (requestCount (events (final r)) <= 100)%nat.
Proof.
  destruct (stored_limit_is_always_usable (Some "250")
              (doneEnv (Some (getMaxIterationsPerRequest (Some "250")).1))
              listFiles eq_refl)
    as (_ & _ & r & Hrun & Hbound).
  exists r. split; [exact Hrun|]. lia.
Defined.

End SettingsFacts.

Module TokenFacts.
Import Agent Compactor CompactorFacts Wire.

Lemma ceil_of_quarter (n : Z) : Math_ceil (QArith_base.Qmake n 4) = - ((- n) / 4).
Proof. unfold Math_ceil, Qround.Qceiling, Qround.Qfloor. by simpl. Qed.

Section Summarizer.
Context {Json : Type} `{!JsonValue Json}.
Implicit Types (env : Compactor.Env Json) (messages : list (ChatMessage Json)).

Lemma charEstimate_bounds (msg : ChatMessage Json) :
  Z.of_nat (String.length (textOf msg)) <= 4 * charEstimate msg
    <= Z.of_nat (String.length (textOf msg)) + 3.
Proof.
  unfold charEstimate. rewrite ceil_of_quarter.
  set (n := Z.of_nat _). Z.div_mod_to_equations. lia.
Qed.

Lemma estimates_bounds messages :
  textLength messages <= 4 * foldr Z.add 0 (map charEstimate messages)
    <= textLength messages + 3 * Z.of_nat (length messages).
Proof.
  unfold textLength. induction messages as [|msg messages IH]; [simpl; lia|].
  pose proof (charEstimate_bounds msg). cbn [map foldr length] in *. lia.
Qed.

Lemma provideTokenCount_estimate (msg : ChatMessage Json) :
  provideTokenCount (inr msg) = charEstimate msg.
Proof. done. Qed.

(** X17.  When the token counter is the provider's own [provideTokenCount],
    the try block never fails and the total is the sum over the messages of
    a quarter of the text length, rounded up: four times the total lies
    between the number of text characters and that number plus three for
    each message. *)
Theorem own_count_is_the_character_estimate env messages :
  countsWithProvider env →
  computeTotalTokenCount env messages = foldr Z.add 0 (map charEstimate messages)
  ∧ textLength messages <= 4 * computeTotalTokenCount env messages
      <= textLength messages + 3 * Z.of_nat (length messages).
Proof.
  intros Hown.
  assert (computeTotalTokenCount env messages = foldr Z.add 0 (map charEstimate messages))
    as Htotal.
  { apply computeTotalTokenCount_counted. apply Forall2_fmap_r, Forall_Forall2_diag.
    apply Forall_forall. intros msg _. rewrite Hown. by rewrite provideTokenCount_estimate. }
  split; [done|]. rewrite Htotal. apply estimates_bounds.
Qed.

(** X18.  When the token counter fails on the first message already, nothing
    was counted before the fallback and the total is exactly the character
    estimate of the conversation. *)
Theorem fallback_is_exact_when_nothing_was_counted env (msg : ChatMessage Json) rest e :
  computeTokenLength env msg = inl e →
  computeTotalTokenCount env (msg :: rest)
    = foldr Z.add 0 (map charEstimate (msg :: rest)).
Proof.
  intros Hfail.
  rewrite (computeTotalTokenCount_fallback env (msg :: rest) e 0); [lia|].
  simpl. by rewrite Hfail.
Qed.

(** *** Below the threshold *)

Lemma summarizeNeeded_false totalTokens maxInputTokens history :
  10 * totalTokens < 9 * maxInputTokens ∨ (length history <= 1)%nat →
  summarizeNeeded totalTokens maxInputTokens history = false.
Proof.
  intros Hlow. destruct (summarizeNeeded _ _ _) eqn:Hneeded; [|done].
  pose proof (summarizeNeeded_threshold _ _ _ Hneeded).
  pose proof (summarizeNeeded_length _ _ _ Hneeded). lia.
Qed.

(** X19.  A history whose messages count fewer tokens than nine tenths of
    the model's input limit, or that has at most one entry, is not touched:
    the turn goes on with it, whatever the summarizer would have answered. *)
Theorem history_below_threshold_is_left_alone
    env (history : list HistoryEntry) (metadataMaxInputTokens : option Z) :
  let maxInputTokens := default 128000 metadataMaxInputTokens in
  10 * computeTotalTokenCount env (buildMessages env history) < 9 * maxInputTokens
  ∨ (length history <= 1)%nat →
  maybeCompact env history maxInputTokens = inr history
  ∧ invokeTurn env history metadataMaxInputTokens =
      mkTurnResult (Some (buildMessages env history)) None
        (unifiedAgent_run env (buildMessages env history)).
Proof.
  intros maxInputTokens Hlow.
  assert (maybeCompact env history maxInputTokens = inr history) as Hsame.
  { unfold maybeCompact. by rewrite summarizeNeeded_false. }
  split; [done|]. unfold invokeTurn. fold maxInputTokens. by rewrite Hsame.
Qed.

End Summarizer.

(** X20.  The compaction step splits a history of two or more entries into
    the entries it summarizes and the entries it keeps: together they are the
    history, in order, none is in both and neither part is empty; the kept
    part has [ceil(length / 10)] entries. *)
Theorem compaction_splits_the_history (history : list HistoryEntry) :
  (2 <= length history)%nat →
  oldEntriesOf history ++ lastEntries (keepCountOf history) history = history
  ∧ oldEntriesOf history ≠ []
  ∧ length (lastEntries (keepCountOf history) history) = keepCountOf history
  ∧ (10 * (keepCountOf history - 1) < length history <= 10 * keepCountOf history)%nat.
Proof.
  intros Hlen. destruct (keepCountOf_range history Hlen) as [Hkeep Hceil].
  rewrite ceil_of_tenth in Hceil.
  split; [apply take_drop|]. split.
  { destruct (oldEntries_first history Hlen) as (first & rest & older & _ & ->). done. }
  split; [unfold lastEntries; rewrite length_drop; lia|].
  Z.div_mod_to_equations. lia.
Qed.

Import Samples MoreSamples.

Lemma own_count_witness :
  computeTotalTokenCount ownCounterEnv [userSays "abcd"; userSays "efghi"] = 3.
Proof.
  destruct (own_count_is_the_character_estimate ownCounterEnv
              [userSays "abcd"; userSays "efghi"]) as [Htotal _];
    [by intros msg|].
  rewrite Htotal. reflexivity.
Defined.

Lemma fallback_witness :
  computeTotalTokenCount noCounterEnv [userSays "abcd"; userSays "efghi"] = 3.
Proof.
  rewrite (fallback_is_exact_when_nothing_was_counted noCounterEnv
             (userSays "abcd") [userSays "efghi"] rateLimited eq_refl).
  reflexivity.
Defined.

Lemma below_threshold_witness :
  maybeCompact (summarizerEnv (respondWith [PartText "a summary"]) false)
    threeEntries 128000 = inr threeEntries.
Proof.
  apply (history_below_threshold_is_left_alone
           (summarizerEnv (respondWith [PartText "a summary"]) false) threeEntries None).
  left. vm_compute. reflexivity.
Defined.

Lemma split_witness :
  oldEntriesOf twelveEntries ++ lastEntries 2 twelveEntries = twelveEntries
  ∧ length (oldEntriesOf twelveEntries) = 10%nat.
Proof.
  destruct (compaction_splits_the_history twelveEntries) as (Hsplit & _);
    [vm_compute; lia|].
  split; [exact Hsplit | reflexivity].
Defined.

End TokenFacts.

Module WireFacts.
Import Agent Provider Fragments ProviderFacts Wire Gateway GatewayFacts.

Section Provider.
Context {Json : Type} `{!JsonValue Json}.
Variable encodeBase64 : string → string.

Lemma formatContent_images (items : list ToolItem) :
  Forall (λ p, isImage p = true) (formatContent (Json := Json) items).2.
Proof.
  unfold formatContent. cbn [snd]. induction items as [|i items IH]; [constructor|].
  simpl. apply Forall_app. split; [|done].
  destruct i as [v|mime data|]; simpl; try constructor.
  destruct (isImageMime mime); simpl; by repeat constructor.
Qed.

Lemma toolResultOf_images (call : ToolUse Json) (o : ToolOutcome) :
  Forall (λ p, isImage p = true) (toolResultOf call o).2.
Proof.
  destruct o as [c|e]; [|constructor].
  pose proof (formatContent_images (default [] c)) as H.
  unfold toolResultOf. by destruct (formatContent (default [] c)).
Qed.

Lemma executeTools_shape env calls : ∀ evs,
  Forall2 (λ (c : ToolUse Json) r, ∃ value err, r = MsgToolResult (toolCallId c) value err)
    calls (executeTools env evs calls).1.2
  ∧ Forall (λ p, isImage p = true) (executeTools env evs calls).2.
Proof.
  induction calls as [|c calls IH]; intros evs; [by split; constructor|].
  simpl. pose proof (toolResultOf_shape c (invokeTool env evs c)) as (value & Hshape & _).
  pose proof (toolResultOf_images c (invokeTool env evs c)) as Himages.
  destruct (toolResultOf c (invokeTool env evs c)) as [toolResult images].
  destruct (IH (evs ++ [EvInvokeTool c])) as [Hrs Himgs].
  destruct (executeTools env (evs ++ [EvInvokeTool c]) calls) as [[evs2 rs] imgs].
  simpl in *. subst toolResult. split.
  - constructor; [by eexists _, _|done].
  - by apply Forall_app.
Qed.

(** *** One message *)

Lemma functionCallsOf_app (a b : list (MessagePart Json)) :
  functionCallsOf (a ++ b) = functionCallsOf a ++ functionCallsOf b.
Proof. unfold functionCallsOf. by rewrite flat_map_app. Qed.

Lemma functionCallsOf_calls (calls : list (ToolUse Json)) :
  Forall (λ c, nonEmpty (toolCallId c) = true ∧ nonEmpty (name c) = true) calls →
  functionCallsOf (map MsgToolUse calls)
  = map (λ c, mkFunctionCall (toolCallId c) (name c) (paramsKey c)) calls.
Proof.
  induction 1 as [|c calls [Hid Hname] _ IH]; [done|].
  cbn [map]. change (functionCallsOf (MsgToolUse c :: map MsgToolUse calls))
    with ((if nonEmpty (toolCallId c) && nonEmpty (name c)
           then [mkFunctionCall (toolCallId c) (name c) (paramsKey c)] else [])
          ++ functionCallsOf (map MsgToolUse calls)).
  by rewrite Hid, Hname, IH.
Qed.

Lemma results_only (calls : list (ToolUse Json)) (results : list (MessagePart Json)) :
  Forall2 (λ (c : ToolUse Json) r, ∃ value err, r = MsgToolResult (toolCallId c) value err)
    calls results →
  flat_map (λ part, match part with MsgText value => [value] | _ => [] end) results = []
  ∧ flat_map (λ part, match part with
                      | MsgImage mimeType data => [imageUrlOf encodeBase64 mimeType data]
                      | _ => []
                      end) results = []
  ∧ map fst (flat_map (λ part, match part with
                               | MsgToolResult id value _ =>
                                   [(id, fold_right String.append "" value)]
                               | _ => []
                               end) results)
    = map toolCallId calls.
Proof.
  induction 1 as [|c r calls results (value & err & ->) _ (IH1 & IH2 & IH3)]; [done|].
  simpl. by rewrite IH1, IH2, IH3.
Qed.

Lemma images_only (images : list (MessagePart Json)) :
  Forall (λ p, isImage p = true) images →
  flat_map (λ part, match part with MsgText value => [value] | _ => [] end) images = []
  ∧ flat_map (λ part, match part with
                      | MsgToolResult id value _ =>
                          [(id, fold_right String.append "" value)]
                      | _ => []
                      end) images = []
  ∧ (images ≠ [] →
     flat_map (λ part, match part with
                       | MsgImage mimeType data => [imageUrlOf encodeBase64 mimeType data]
                       | _ => []
                       end) images ≠ []).
Proof.
  induction 1 as [|p images Hp _ (IH1 & IH2 & IH3)]; [done|].
  destruct p; done.
Qed.

(** X21.  Every chat message becomes at least one message of the OpenAI
    request, exactly one unless it is a user message; [tool] messages come
    only from the [tool_result] parts of user messages, one for each part,
    in order and with the part's id. *)
Theorem tool_messages_are_the_tool_results (m : ChatMessage Json) :
  _mapMessageToOpenAI encodeBase64 m ≠ []
  ∧ omap answeredIdOf (_mapMessageToOpenAI encodeBase64 m)
    = match Agent.role m with
      | User => omap resultIdOf (Agent.content m)
      | _ => []
      end
  ∧ match Agent.role m with
    | User => True
    | _ => length (_mapMessageToOpenAI encodeBase64 m) = 1%nat
    end.
Proof.
  destruct m as [r parts]. unfold _mapMessageToOpenAI. cbn [Agent.role Agent.content].
  destruct r.
  - split; [by repeat case_match|]. split; by repeat case_match.
  - set (texts := flat_map _ parts). set (imgs := flat_map _ parts).
    set (trs := flat_map _ parts).
    assert (omap answeredIdOf (map (λ tr : string * string, ToolMessage tr.1 tr.2) trs)
            = omap resultIdOf parts) as Hids.
    { subst trs. clear. induction parts as [|p parts IH]; [done|].
      destruct p; simpl; [exact IH | exact IH | f_equal; exact IH | exact IH]. }
    split; [|split; [|done]].
    + destruct texts, imgs, trs; done.
    + rewrite <- Hids. destruct texts, imgs, trs; done.
  - split; [by repeat case_match|]. split; by repeat case_match.
Qed.

(** Every [tool_use] of the OpenAI adapter has an id and a name. *)
Lemma emitted_tool_use_named (lines : list SseLine) (close : StreamClose)
    (tu : ToolUse Json) :
  PartToolUse tu ∈ emitted (listenOpenAI lines close) →
  nonEmpty (toolCallId tu) = true ∧ nonEmpty (name tu) = true.
Proof.
  rewrite listenOpenAI_emitted. intros [Hin|Hin]%elem_of_app.
  { by apply not_tool_use_in_onData in Hin. }
  destruct close; [|by apply elem_of_nil in Hin].
  apply onEnd_elem_of in Hin as (idx & acc & _ & Hf).
  apply finalize_Some in Hf as (id & nm & _ & _ & Hid & Hnm & [= ->]). done.
Qed.

Lemma assistant_round (s : Streaming Json) :
  toolCalls s ≠ [] →
  Forall (λ c : ToolUse Json,
            nonEmpty (toolCallId c) = true ∧ nonEmpty (name c) = true) (toolCalls s) →
  ∃ text,
    flat_map (_mapMessageToOpenAI encodeBase64) (assistantMessages s)
    = [RoleMessage "assistant" text
         (Some (map (λ c, mkFunctionCall (toolCallId c) (name c) (paramsKey c))
                  (toolCalls s)))].
Proof.
  intros Hcalls Hnamed. unfold assistantMessages.
  set (textPart := if nonEmpty (fullText s) then [MsgText (fullText s)] else []).
  assert (functionCallsOf (textPart ++ map MsgToolUse (toolCalls s))
          = map (λ c, mkFunctionCall (toolCallId c) (name c) (paramsKey c)) (toolCalls s))
    as Hfc.
  { rewrite functionCallsOf_app, functionCallsOf_calls by done.
    subst textPart. by destruct (nonEmpty (fullText s)). }
  destruct (textPart ++ map MsgToolUse (toolCalls s)) as [|part parts] eqn:Hcontent.
  { apply app_eq_nil in Hcontent as [_ Hnil]. by destruct (toolCalls s). }
  cbn [flat_map]. rewrite app_nil_r. unfold _mapMessageToOpenAI.
  cbn [Agent.role Agent.content]. rewrite Hfc.
  destruct (toolCalls s) as [|c calls]; [done|]. cbn [map]. by eexists.
Qed.

Lemma results_round (calls : list (ToolUse Json)) (results : list (MessagePart Json)) :
  calls ≠ [] →
  Forall2 (λ (c : ToolUse Json) r, ∃ value err, r = MsgToolResult (toolCallId c) value err)
    calls results →
  ∃ answers,
    flat_map (_mapMessageToOpenAI encodeBase64)
      (match results with [] => [] | _ => [mkChatMessage User results] end) = answers
    ∧ map answeredIdOf answers = map (λ c, Some (toolCallId c)) calls.
Proof.
  intros Hcalls Hresults.
  destruct (results_only _ _ Hresults) as (Htexts & Himgs & Hids).
  destruct results as [|r results].
  { apply Forall2_nil_inv_r in Hresults. done. }
  remember (r :: results) as rs eqn:Hrs.
  eexists. split; [reflexivity|].
  assert (∃ r' rs', rs = r' :: rs') as (r' & rs' & Hcons) by (subst; eauto).
  rewrite Hcons at 1. rewrite <- Hcons. cbn [flat_map]. rewrite app_nil_r.
  unfold _mapMessageToOpenAI. cbn [Agent.role Agent.content].
  rewrite Htexts, Himgs. cbn [app]. clear Htexts Himgs.
  set (trs := flat_map _ rs) in *.
  assert (map answeredIdOf (map (λ tr : string * string, ToolMessage tr.1 tr.2) trs)
          = map Some (map fst trs)) as Hanswered.
  { clear. induction trs as [|tr trs IH]; [done|]. simpl. by rewrite IH. }
  rewrite Hids in Hanswered.
  destruct (map (λ tr : string * string, ToolMessage tr.1 tr.2) trs)
    as [|a answers] eqn:Hmapped.
  { by destruct calls. }
  rewrite Hanswered. by rewrite <- list_fmap_compose.
Qed.

Lemma images_round (images : list (MessagePart Json)) :
  Forall (λ p, isImage p = true) images →
  Forall (λ m, answeredIdOf m = None ∧ toolCallIdsOf m = [])
    (flat_map (_mapMessageToOpenAI encodeBase64)
       (match images with
        | [] => []
        | _ => [mkChatMessage User
                  (MsgText "Image(s) from readFile — view below for vision:" :: images)]
        end)).
Proof.
  intros Himages. destruct (images_only _ Himages) as (Itexts & Iresults & Iimgs).
  destruct images as [|i images]; [constructor|].
  remember (i :: images) as imgs eqn:Himgs.
  assert (imgs ≠ []) as Hsome by (by subst).
  specialize (Iimgs Hsome).
  assert (∃ i' imgs', imgs = i' :: imgs') as (i' & imgs' & Hcons) by (subst; eauto).
  rewrite Hcons at 1. rewrite <- Hcons.
  cbn [flat_map]. rewrite app_nil_r. unfold _mapMessageToOpenAI.
  cbn [Agent.role Agent.content flat_map]. rewrite Itexts, Iresults.
  cbn [app] in *.
  destruct (flat_map (λ part : MessagePart Json,
                        match part with
                        | MsgImage mimeType data => [imageUrlOf encodeBase64 mimeType data]
                        | _ => []
                        end) imgs); [done|]. cbn. by repeat constructor.
Qed.

(** X22.  A round of tool calls that came from the OpenAI adapter is sent
    back to OpenAI as one assistant message whose [tool_calls] are the calls
    of the round, followed at once by one [tool] message for each call, in
    the same order and with the same ids; what follows (the images) holds no
    further [tool] message and no [tool_calls]. *)
Theorem openai_round_answers_every_call
    (env : Env Json) (evs : list (Event Json)) (s : Streaming Json)
    (lines : list SseLine) (close : StreamClose) :
  toolCalls s ≠ [] →
  Forall (λ c, PartToolUse c ∈ emitted (listenOpenAI lines close)) (toolCalls s) →
  ∃ text calls answers rest,
    mappedMessages encodeBase64
      (assistantMessages s
       ++ toolMessages (executeTools env evs (toolCalls s)).1.2
            (executeTools env evs (toolCalls s)).2)
    = RoleMessage "assistant" text (Some calls) :: answers ++ rest
    ∧ calls = map (λ c, mkFunctionCall (toolCallId c) (name c) (paramsKey c)) (toolCalls s)
    ∧ map answeredIdOf answers = map (λ c, Some (toolCallId c)) (toolCalls s)
    ∧ Forall (λ m, answeredIdOf m = None ∧ toolCallIdsOf m = []) rest.
Proof.
  intros Hcalls Hfrom.
  assert (Forall (λ c : ToolUse Json,
                    nonEmpty (toolCallId c) = true ∧ nonEmpty (name c) = true)
            (toolCalls s)) as Hnamed.
  { eapply Forall_impl; [exact Hfrom|]. intros c Hc.
    exact (emitted_tool_use_named lines close c Hc). }
  destruct (executeTools_shape env (toolCalls s) evs) as [Hresults Himages].
  destruct (executeTools env evs (toolCalls s)) as [[evs' results] images]. cbn [fst snd] in *.
  destruct (assistant_round s Hcalls Hnamed) as (text & Hassistant).
  destruct (results_round _ _ Hcalls Hresults) as (answers & Hanswers & Hids).
  pose proof (images_round images Himages) as Hrest.
  unfold mappedMessages, toolMessages. rewrite !flat_map_app, Hassistant, Hanswers.
  eexists text, _, answers, _. split; [reflexivity|]. done.
Qed.

End Provider.

Import Samples.

Lemma openai_round_witness :
  ∃ text answers rest,
    mappedMessages (Json := SampleJson) id
      (conversationMessages (next stubbornEnv (initialState listFiles)))
    = mappedMessages (Json := SampleJson) id listFiles
      ++ RoleMessage "assistant" text
           (Some [mkFunctionCall "call_1" "listDirectory" pathDotText])
         :: answers ++ rest
    ∧ map answeredIdOf answers = [Some "call_1"].
Proof.
  destruct (openai_round_answers_every_call (Json := SampleJson) id stubbornEnv
              (events (initialState listFiles) ++ [EvRequest listFiles])
              (gathered stubbornEnv (initialState listFiles)) splitCall CloseEnd)
    as (text & calls & answers & rest & Hmapped & -> & Hids & _).
  { done. }
  { repeat constructor. }
  exists text, answers, rest. split; [|exact Hids].
  assert (conversationMessages (next stubbornEnv (initialState listFiles))
          = listFiles
            ++ (assistantMessages (gathered stubbornEnv (initialState listFiles))
                ++ toolMessages
                     (executeTools stubbornEnv
                        (events (initialState listFiles) ++ [EvRequest listFiles])
                        (toolCalls (gathered stubbornEnv (initialState listFiles)))).1.2
                     (executeTools stubbornEnv
                        (events (initialState listFiles) ++ [EvRequest listFiles])
                        (toolCalls (gathered stubbornEnv (initialState listFiles)))).2))
    as -> by reflexivity.
  unfold mappedMessages in *. rewrite flat_map_app, Hmapped. reflexivity.
Defined.

End WireFacts.

Module DisplayFacts.
Import Agent ProviderFacts Display.

Lemma length_append (a b : string) :
  String.length (a +:+ b) = (String.length a + String.length b)%nat.
Proof.
  induction a as [|c a IH]; [by rewrite append_nil_l|].
  rewrite append_cons. simpl. by rewrite IH.
Qed.

Lemma slice_append (a b : string) : slice (String.length a) (a +:+ b) = b.
Proof.
  induction a as [|c a IH]; [rewrite append_nil_l; by destruct b|].
  rewrite append_cons. simpl. exact IH.
Qed.

Lemma thinkingShown_app (l1 l2 : list ChatProgress) :
  thinkingShown (l1 ++ l2) = thinkingShown l1 +:+ thinkingShown l2.
Proof.
  unfold thinkingShown. rewrite flat_map_app.
  induction (flat_map _ l1) as [|x xs IH]; [by rewrite append_nil_l|].
  simpl. by rewrite IH, append_assoc.
Qed.

Lemma thinkingShown_markdown (l : list ChatProgress) (text : string) :
  thinkingShown (l ++ [markdownContent text]) = thinkingShown l.
Proof. rewrite thinkingShown_app. apply append_empty_r. Qed.

Lemma thinkingShown_thinking (l : list ChatProgress) (text : string) :
  thinkingShown (l ++ [thinking text]) = thinkingShown l +:+ text.
Proof.
  rewrite thinkingShown_app. unfold thinkingShown at 2. simpl.
  by rewrite append_empty_r.
Qed.

Section Loop.
Context {Json : Type} `{!JsonValue Json}.

Lemma onPart_upToDate arrived (s : Streaming Json) (timed : ResponsePart Json * Z) :
  upToDate arrived s →
  upToDate (arrived +:+ thinkingOfParts [timed]) (onPart s timed).
Proof.
  intros (Harrived & rest & Hfull & Hlen). destruct timed as [p now].
  unfold thinkingOfParts, upToDate.
  destruct p as [value|value|tu|]; cbn [onPart flat_map fst app fold_right].
  - rewrite append_empty_r.
    case_match; (split; [done|]); exists rest; cbn [fullThinking shown lastEmittedThinkingLength];
      by rewrite ?thinkingShown_markdown.
  - rewrite append_empty_r.
    destruct (thinkingTruthy value) eqn:Htruthy.
    + case_match eqn:Hemit; cbn [fullThinking shown lastEmittedThinkingLength].
      * split; [by rewrite Harrived|]. exists "".
        rewrite thinkingShown_thinking, Hfull, <- Hlen, append_assoc, slice_append.
        by rewrite append_empty_r.
      * split; [by rewrite Harrived|]. exists (rest +:+ thinkingChunk value).
        by rewrite Hfull, append_assoc.
    + destruct value as [text|l]; [|done]. apply nonEmpty_false in Htruthy as ->.
      simpl. rewrite append_empty_r. split; [done|]. by exists rest.
  - rewrite append_empty_r. split; [done|]. by exists rest.
  - rewrite append_empty_r. split; [done|]. by exists rest.
Qed.

Lemma thinkingOfParts_cons (timed : ResponsePart Json * Z) ps :
  thinkingOfParts (timed :: ps) = thinkingOfParts [timed] +:+ thinkingOfParts ps.
Proof.
  unfold thinkingOfParts. cbn [flat_map]. rewrite app_nil_r.
  induction (match timed.1 with PartThinking value => [thinkingChunk value] | _ => [] end)
    as [|x xs IH]; [by rewrite append_nil_l|].
  simpl. by rewrite IH, append_assoc.
Qed.

Lemma foldl_onPart_upToDate ps : ∀ arrived (s : Streaming Json),
  upToDate arrived s →
  upToDate (arrived +:+ thinkingOfParts ps) (foldl onPart s ps).
Proof.
  induction ps as [|timed ps IH]; intros arrived s Hs.
  - simpl. unfold thinkingOfParts. simpl. by rewrite append_empty_r.
  - cbn [foldl]. rewrite thinkingOfParts_cons, <- append_assoc.
    apply IH. by apply onPart_upToDate.
Qed.

Lemma consume_upToDate arrivals : ∀ arrived (s : Streaming Json),
  upToDate arrived s →
  (∃ arrived', upToDate arrived' (consume s arrivals).1)
  ∧ (Forall (λ a, cancelSeen a = false) arrivals →
     upToDate (arrived +:+ thinkingArrived arrivals) (consume s arrivals).1).
Proof.
  induction arrivals as [|a arrivals IH]; intros arrived s Hs.
  - split; [by exists arrived|]. intros _. unfold thinkingArrived. simpl.
    by rewrite append_empty_r.
  - cbn [consume]. destruct (cancelSeen a) eqn:Hcancel.
    + split; [by exists arrived|]. intros Hall. apply Forall_cons in Hall as [Ha _].
      congruence.
    + destruct (IH _ _ (foldl_onPart_upToDate (parts a) arrived s Hs)) as [Hany Hall].
      split; [done|]. intros Hnone. apply Forall_cons in Hnone as [_ Hnone].
      unfold thinkingArrived. cbn [map foldr fold_right]. rewrite <- append_assoc.
      by apply Hall.
Qed.

Lemma flush_thinking (s : Streaming Json) arrived :
  upToDate arrived s →
  thinkingShown (shown (flush s)) = fullThinking s ∧ fullThinking (flush s) = fullThinking s.
Proof.
  intros (_ & rest & Hfull & Hlen). unfold flush.
  assert (slice (lastEmittedThinkingLength s) (fullThinking s) = rest) as ->
    by (rewrite Hfull, <- Hlen; apply slice_append).
  set (shown1 := if nonEmpty rest then shown s ++ [thinking rest] else shown s).
  assert (thinkingShown shown1 = fullThinking s) as Hshown.
  { subst shown1. destruct (nonEmpty rest) eqn:Hrest.
    - by rewrite thinkingShown_thinking.
    - apply nonEmpty_false in Hrest as ->. by rewrite Hfull, append_empty_r. }
  repeat case_match; cbn [shown fullThinking]; by rewrite ?thinkingShown_markdown.
Qed.

(** X23.  The model's thinking is shown exactly once: the thinking deltas
    passed to [progress] while a response is read and flushed concatenate to
    the whole thinking text gathered, whatever the clock readings were, and
    when the stream was read to its end that is the thinking of all parts in
    arrival order. *)
Theorem thinking_is_shown_exactly_once (r : Response Json) (hasEverEmitted0 : bool) :
  let s := flush (gather r hasEverEmitted0).1 in
  thinkingShown (shown s) = fullThinking s
  ∧ (Forall (λ a, cancelSeen a = false) (stream r) →
     fullThinking s = thinkingArrived (stream r)).
Proof.
  intros s. subst s. unfold gather.
  assert (upToDate "" (startStreaming r hasEverEmitted0)) as Hstart.
  { split; [done|]. by exists "". }
  destruct (consume_upToDate (stream r) "" _ Hstart) as [(arrived & Hany) Hall].
  destruct (flush_thinking _ _ Hany) as [Hshown Hfull]. split.
  - by rewrite Hshown, Hfull.
  - intros Hnone. rewrite Hfull. destruct (Hall Hnone) as [-> _]. apply append_nil_l.
Qed.

(** X24.  The second emission of [flush], meant as a safety net for content
    that was never shown, is never taken: when nothing of the display text is
    left to show although nothing was shown, the display text is empty.  So
    [flush] shows the rest of the thinking, then the rest of the display
    text, and nothing else. *)
Theorem flush_safety_branch_is_dead (s : Streaming Json) :
  let displayText := if includes TASK_COMPLETE_SIGNAL (fullText s)
                     then stripSignal (fullText s) else fullText s in
  let finalThinkingDelta := slice (lastEmittedThinkingLength s) (fullThinking s) in
  let finalDelta := slice (lastEmittedDisplayLength s) displayText in
  shown (flush s)
  = shown s
    ++ (if nonEmpty finalThinkingDelta then [thinking finalThinkingDelta] else [])
    ++ (if nonEmpty finalDelta then [markdownContent finalDelta] else [])
  ∧ emittedAny (flush s) = emittedAny s || nonEmpty finalDelta.
Proof.
  intros displayText finalThinkingDelta finalDelta. unfold flush.
  fold displayText. fold finalThinkingDelta. fold finalDelta.
  destruct (nonEmpty finalDelta) eqn:Hdelta.
  - cbn [shown emittedAny]. rewrite orb_true_r. split; [|done].
    destruct (nonEmpty finalThinkingDelta); by rewrite <- ?app_assoc.
  - assert ((0 <? String.length displayText)%nat
            && (lastEmittedDisplayLength s =? 0)%nat = false) as ->.
    { destruct (lastEmittedDisplayLength s =? 0)%nat eqn:Hzero;
        [|apply andb_false_r].
      apply Nat.eqb_eq in Hzero. subst finalDelta. rewrite Hzero in Hdelta.
      simpl in Hdelta. apply nonEmpty_false in Hdelta as ->. done. }
    cbn [shown emittedAny]. rewrite orb_false_r. split; [|done].
    destruct (nonEmpty finalThinkingDelta); by rewrite ?app_nil_r.
Qed.

End Loop.

Import Samples.

Lemma thinking_witness :
  thinkingShown (shown (flush (gather pondering false).1)) = "Let me look.".
Proof.
  destruct (thinking_is_shown_exactly_once pondering false) as [Hshown Hall].
  rewrite Hshown, Hall; [reflexivity | by repeat constructor].
Defined.

End DisplayFacts.

Module GoogleSchemaFacts.
Import GoogleSchema.

Lemma Schema_ind (P : Schema → Prop) :
  P SNull →
  (∀ text, P (SPrimitive text)) →
  (∀ elements, Forall P elements → P (SArray elements)) →
  (∀ fields, Forall (λ kv, P kv.2) fields → P (SObject fields)) →
  ∀ schema, P schema.
Proof.
  intros HNull HPrimitive HArray HObject. fix IH 1. intros [|text|elements|fields].
  - exact HNull.
  - apply HPrimitive.
  - apply HArray.
    induction elements as [|item rest IHrest]; constructor; [apply IH | exact IHrest].
  - apply HObject.
    induction fields as [|[key val] rest IHrest]; constructor; [apply IH | exact IHrest].
Qed.

(** Induction that reaches the properties held under a key as well. *)
Lemma Schema_ind_deep (P : Schema → Prop) :
  P SNull →
  (∀ text, P (SPrimitive text)) →
  (∀ elements, Forall P elements → P (SArray elements)) →
  (∀ fields, Forall (λ kv, P kv.2 ∧ ofProperties P kv.2) fields → P (SObject fields)) →
  ∀ schema, P schema.
Proof.
  intros HNull HPrimitive HArray HObject schema.
  assert (P schema ∧ ofProperties P schema) as [H _]; [|exact H].
  induction schema as [|text|elements IH|fields IH] using Schema_ind.
  - done.
  - split; [apply HPrimitive | done].
  - split; [|done]. apply HArray. eapply Forall_impl; [exact IH|]. by intros s [Hs _].
  - split.
    + by apply HObject.
    + simpl. eapply Forall_impl; [exact IH|]. by intros kv [Hkv _].
Qed.

(** The loops of the function are the named ones. *)
Lemma sanitize_array (elements : list Schema) :
  _sanitizeSchemaForGoogle (SArray elements) = SArray <$> sanitizeElements elements.
Proof. reflexivity. Qed.

Lemma sanitize_object (fields : list (string * Schema)) :
  _sanitizeSchemaForGoogle (SObject fields) = SObject <$> sanitizeFields fields.
Proof. reflexivity. Qed.

Lemma forallb_Forall {A} (f : A → bool) (l : list A) :
  forallb f l = true ↔ Forall (λ x, f x = true) l.
Proof.
  induction l as [|x l IH]; simpl; [by split; [constructor|]|].
  by rewrite andb_true_iff, IH, Forall_cons.
Qed.

(** *** The result has only allowed keys *)

Lemma sanitizeElements_clean elements out :
  Forall staysClean elements →
  sanitizeElements elements = Some out → Forall (λ t, onlyAllowedKeys t = true) out.
Proof.
  intros Hall. revert out. induction Hall as [|item rest Hitem _ IH]; intros out Hout.
  - injection Hout as <-. constructor.
  - simpl in Hout. destruct (_sanitizeSchemaForGoogle item) as [item'|] eqn:Hi; [|done].
    destruct (sanitizeElements rest) as [rest'|]; [|done]. injection Hout as <-.
    constructor; [by apply Hitem | by apply IH].
Qed.

Lemma sanitizeProperties_clean props out :
  Forall (λ pv : string * Schema, staysClean pv.2) props →
  sanitizeProperties props = Some out →
  Forall (λ pv : string * Schema, ownKey pv.1 && onlyAllowedKeys pv.2 = true) out.
Proof.
  intros Hall. revert out. induction Hall as [|[prop val] rest Hval _ IH]; intros out Hout.
  - injection Hout as <-. constructor.
  - simpl in Hout, Hval. destruct (_sanitizeSchemaForGoogle val) as [val'|] eqn:Hv; [|done].
    destruct (sanitizeProperties rest) as [rest'|]; [|done]. simpl in Hout.
    destruct (ownKey prop) eqn:Hown; injection Hout as <-.
    + constructor; [|by apply IH]. simpl. by rewrite Hown, (Hval val').
    + by apply IH.
Qed.

Lemma sanitizeValue_clean key val v :
  staysClean val → ofProperties staysClean val →
  sanitizeValue key val = Some v →
  (if String.eqb key "properties" then
     match v with
     | SNull => false
     | SObject props =>
         forallb (λ pv : string * Schema, ownKey pv.1 && onlyAllowedKeys pv.2) props
     | _ => true
     end
   else if String.eqb key "items" then
     match v with
     | SArray _ | SObject _ => onlyAllowedKeys v
     | _ => true
     end
   else true) = true.
Proof.
  intros Hval Hprops Hv. unfold sanitizeValue in Hv.
  destruct (String.eqb key "properties").
  - destruct val as [|text|elements|props]; try done; try by injection Hv as <-.
    destruct (sanitizeProperties props) as [props'|] eqn:Hprops'; [|done].
    injection Hv as <-. apply forallb_Forall. by eapply sanitizeProperties_clean.
  - destruct (String.eqb key "items"); [|done].
    destruct val as [|text|elements|props]; try by injection Hv as <-.
    + specialize (Hval v Hv). by destruct v.
    + specialize (Hval v Hv). by destruct v.
Qed.

Lemma sanitizeFields_clean fields : ∀ out,
  Forall (λ kv : string * Schema, staysClean kv.2 ∧ ofProperties staysClean kv.2) fields →
  sanitizeFields fields = Some out →
  onlyAllowedKeys (SObject out) = true.
Proof.
  intros out Hall. revert out.
  induction Hall as [|[key val] rest [Hval Hprops] _ IH]; intros out Hout.
  - by injection Hout as <-.
  - cbn [sanitizeFields] in Hout.
    destruct (allowedKey key) eqn:Hkey; cbn [negb] in Hout; [|by apply IH].
    destruct (sanitizeValue key val) as [v|] eqn:Hv; [|done].
    destruct (sanitizeFields rest) as [rest'|]; [|done]. injection Hout as <-.
    specialize (IH rest' eq_refl).
    cbn [onlyAllowedKeys forallb fst snd] in *. rewrite Hkey, IH.
    by rewrite (sanitizeValue_clean key val v Hval Hprops Hv).
Qed.

Lemma sanitized_clean (schema : Schema) : staysClean schema.
Proof.
  induction schema as [|text|elements IH|fields IH] using Schema_ind_deep; intros t Ht.
  - by injection Ht as <-.
  - by injection Ht as <-.
  - rewrite sanitize_array in Ht.
    destruct (sanitizeElements elements) as [out|] eqn:Hout; [|done].
    injection Ht as <-. simpl. apply forallb_Forall. by eapply sanitizeElements_clean.
  - rewrite sanitize_object in Ht.
    destruct (sanitizeFields fields) as [out|] eqn:Hout; [|done].
    injection Ht as <-. by eapply sanitizeFields_clean.
Qed.

(** *** A schema with only allowed keys is left as it is *)

Lemma sanitizeElements_fixed elements :
  Forall isFixed elements → forallb onlyAllowedKeys elements = true →
  sanitizeElements elements = Some elements.
Proof.
  induction 1 as [|item rest Hitem _ IH]; [done|]. simpl.
  intros [Hi Hrest]%andb_prop. by rewrite (Hitem Hi), (IH Hrest).
Qed.

Lemma sanitizeProperties_fixed props :
  Forall (λ pv : string * Schema, isFixed pv.2) props →
  forallb (λ pv : string * Schema, ownKey pv.1 && onlyAllowedKeys pv.2) props = true →
  sanitizeProperties props = Some props.
Proof.
  induction 1 as [|[prop val] rest Hval _ IH]; [done|]. simpl in *.
  intros [[Hown Hclean]%andb_prop Hrest]%andb_prop.
  by rewrite (Hval Hclean), (IH Hrest), Hown.
Qed.

Lemma sanitizeFields_fixed fields :
  Forall (λ kv : string * Schema, isFixed kv.2 ∧ ofProperties isFixed kv.2) fields →
  onlyAllowedKeys (SObject fields) = true →
  sanitizeFields fields = Some fields.
Proof.
  induction 1 as [|[key val] rest [Hval Hprops] _ IH]; [done|].
  cbn [onlyAllowedKeys forallb fst snd sanitizeFields] in *.
  intros [[Hkey Hvalue]%andb_prop Hrest]%andb_prop.
  rewrite Hkey, (IH Hrest). cbn [negb].
  assert (sanitizeValue key val = Some val) as ->; [|done].
  unfold sanitizeValue. destruct (String.eqb key "properties").
  - destruct val as [|text|elements|props]; try done.
    by rewrite (sanitizeProperties_fixed props Hprops Hvalue).
  - destruct (String.eqb key "items"); [|done].
    destruct val as [|text|elements|props]; try done; by apply Hval.
Qed.

Lemma clean_fixed (schema : Schema) : isFixed schema.
Proof.
  induction schema as [|text|elements IH|fields IH] using Schema_ind_deep; intros Hclean.
  - done.
  - done.
  - rewrite sanitize_array, sanitizeElements_fixed; done.
  - rewrite sanitize_object, sanitizeFields_fixed; done.
Qed.

(** X25.  What [_sanitizeSchemaForGoogle] returns has only the six allowed
    keys, at the schema itself, in every property under [properties] and
    under [items], through all levels; and sanitizing it again changes
    nothing. *)
Theorem sanitized_schema_is_clean_and_stable (schema t : Schema) :
  _sanitizeSchemaForGoogle schema = Some t →
  onlyAllowedKeys t = true ∧ _sanitizeSchemaForGoogle t = Some t.
Proof.
  intros Ht. pose proof (sanitized_clean schema t Ht) as Hclean.
  split; [exact Hclean|]. by apply clean_fixed.
Qed.

Lemma sanitizeFields_keys fields : ∀ out,
  sanitizeFields fields = Some out →
  map fst out = filter (λ key, allowedKey key = true) (map fst fields)
  ∧ Forall (λ kv : string * Schema,
              String.eqb kv.1 "properties" = false → String.eqb kv.1 "items" = false →
              kv ∈ fields) out.
Proof.
  induction fields as [|[key val] rest IH]; intros out Hout.
  - injection Hout as <-. by split; [|constructor].
  - cbn [sanitizeFields] in Hout. cbn [map fst]. rewrite filter_cons.
    destruct (allowedKey key) eqn:Hkey; cbn [negb] in Hout.
    + destruct (sanitizeValue key val) as [v|] eqn:Hv; [|done].
      destruct (sanitizeFields rest) as [rest'|]; [|done]. injection Hout as <-.
      destruct (IH rest' eq_refl) as [Hkeys Hvalues].
      rewrite decide_True by done. cbn [map fst]. split; [by rewrite Hkeys|].
      constructor.
      * cbn [fst]. intros Hp Hi. unfold sanitizeValue in Hv. rewrite Hp, Hi in Hv.
        injection Hv as <-. apply elem_of_cons. by left.
      * eapply Forall_impl; [exact Hvalues|]. intros kv Hkv Hp Hi.
        apply elem_of_cons. right. by apply Hkv.
    + destruct (IH out Hout) as [Hkeys Hvalues].
      rewrite decide_False by done. split; [done|].
      eapply Forall_impl; [exact Hvalues|]. intros kv Hkv Hp Hi.
      apply elem_of_cons. right. by apply Hkv.
Qed.

(** X26.  Of an object, [_sanitizeSchemaForGoogle] keeps exactly the fields
    whose key is allowed, in their order; what is stored under [type],
    [description], [required] and [enum] is the value as it was. *)
Theorem sanitized_object_keeps_the_allowed_fields
    (fields : list (string * Schema)) (t : Schema) :
  _sanitizeSchemaForGoogle (SObject fields) = Some t →
  ∃ out, t = SObject out
    ∧ map fst out = filter (λ key, allowedKey key = true) (map fst fields)
    ∧ Forall (λ kv : string * Schema,
                String.eqb kv.1 "properties" = false → String.eqb kv.1 "items" = false →
                kv ∈ fields) out.
Proof.
  rewrite sanitize_object. intros Ht.
  destruct (sanitizeFields fields) as [out|] eqn:Hout; [|done].
  injection Ht as <-. exists out. split; [done|]. by apply sanitizeFields_keys.
Qed.

(** X27.  An object whose [properties] is [null] makes
    [_sanitizeSchemaForGoogle] throw, wherever the field stands among the
    others. *)
Theorem null_properties_throw (fields : list (string * Schema)) :
  ("properties", SNull) ∈ fields →
  _sanitizeSchemaForGoogle (SObject fields) = None.
Proof.
  intros Hin. rewrite sanitize_object.
  assert (sanitizeFields fields = None) as ->; [|done].
  induction fields as [|[key val] rest IH]; [by apply elem_of_nil in Hin|].
  apply elem_of_cons in Hin as [[= <- <-]|Hin]; [done|].
  cbn [sanitizeFields]. rewrite (IH Hin).
  destruct (negb (allowedKey key)); [done|]. by destruct (sanitizeValue key val).
Qed.

Lemma sanitized_witness :
  ∃ out,
    SObject [("type", SPrimitive "object");
             ("properties",
              SObject [("path", SObject [("type", SPrimitive "string")])])]
    = SObject out
    ∧ map fst out = ["type"; "properties"].
Proof.
  destruct (sanitized_object_keeps_the_allowed_fields
              [("type", SPrimitive "object");
               ("properties",
                SObject [("path", SObject [("type", SPrimitive "string");
                                           ("minLength", SPrimitive "1")])]);
               ("additionalProperties", SPrimitive "false")]
              (SObject [("type", SPrimitive "object");
                        ("properties",
                         SObject [("path", SObject [("type", SPrimitive "string")])])])
              eq_refl) as (out & Hout & Hkeys & _).
  exists out. split; [exact Hout | exact Hkeys].
Defined.

Lemma stable_witness :
  onlyAllowedKeys
    (SObject [("type", SPrimitive "object");
              ("properties",
               SObject [("path", SObject [("type", SPrimitive "string")])])]) = true.
Proof.
  apply (sanitized_schema_is_clean_and_stable strictSchema). reflexivity.
Defined.

Lemma null_properties_witness :
  _sanitizeSchemaForGoogle
    (SObject [("type", SPrimitive "object"); ("properties", SNull)]) = None.
Proof.
  apply (null_properties_throw [("type", SPrimitive "object"); ("properties", SNull)]).
  apply elem_of_cons. right. apply elem_of_cons. by left.
Defined.

End GoogleSchemaFacts.

Module AnthropicWireFacts.
Import Agent Wire Gateway GatewayFacts WireFacts AnthropicWire.

Section Provider.
Context {Json : Type} `{!JsonValue Json}.
Variable encodeBase64 : string → string.

Lemma contentPartsOf_app (a b : list (MessagePart Json)) :
  contentPartsOf encodeBase64 (a ++ b)
  = contentPartsOf encodeBase64 a ++ contentPartsOf encodeBase64 b.
Proof. unfold contentPartsOf. by rewrite flat_map_app. Qed.

Lemma contentPartsOf_results (parts : list (MessagePart Json)) :
  omap answeredIdOf (contentPartsOf encodeBase64 parts) = omap resultIdOf parts.
Proof.
  induction parts as [|p parts IH]; [done|].
  change (p :: parts) with ([p] ++ parts).
  rewrite contentPartsOf_app, !omap_app, IH. f_equal.
  destruct p as [value|tu|id value err|mime data]; try done.
  unfold contentPartsOf. simpl. by destruct (nonEmpty (toolCallId tu) && nonEmpty (name tu)).
Qed.

(** X28.  No message of the Anthropic request has an empty content array,
    and its [tool_result] blocks are the [tool_result] parts of the chat
    message, one for each, in order and with the part's id. *)
Theorem anthropic_content_is_never_empty (m : ChatMessage Json) :
  messageContent (_mapMessageToAnthropic encodeBase64 m) ≠ ContentBlocks []
  ∧ omap answeredIdOf (blocksOf (_mapMessageToAnthropic encodeBase64 m))
    = omap resultIdOf (Agent.content m).
Proof.
  rewrite <- contentPartsOf_results. unfold _mapMessageToAnthropic.
  destruct (contentPartsOf encodeBase64 (Agent.content m)) as [|b [|b' bs]].
  - by destruct (Agent.role m).
  - by destruct b.
  - by destruct b.
Qed.

Lemma contentPartsOf_calls (calls : list (ToolUse Json)) :
  Forall (λ c, nonEmpty (toolCallId c) = true ∧ nonEmpty (name c) = true) calls →
  contentPartsOf encodeBase64 (map MsgToolUse calls)
  = map (λ c, ToolUseBlock (toolCallId c) (name c)
                (if truthy (parameters c) then parameters c else emptyObject)) calls.
Proof.
  induction 1 as [|c calls [Hid Hname] _ IH]; [done|].
  cbn [map]. change (MsgToolUse c :: map MsgToolUse calls)
    with ([MsgToolUse c] ++ map MsgToolUse calls).
  rewrite contentPartsOf_app, IH. unfold contentPartsOf at 1. simpl.
  by rewrite Hid, Hname.
Qed.

Lemma contentPartsOf_tool_results
    (calls : list (ToolUse Json)) (results : list (MessagePart Json)) :
  Forall2 (λ (c : ToolUse Json) r, ∃ value err, r = MsgToolResult (toolCallId c) value err)
    calls results →
  map answeredIdOf (contentPartsOf encodeBase64 results)
  = map (λ c, Some (toolCallId c)) calls.
Proof.
  induction 1 as [|c r calls results (value & err & ->) _ IH]; [done|].
  change (MsgToolResult (toolCallId c) value err :: results)
    with ([MsgToolResult (Json := Json) (toolCallId c) value err] ++ results).
  rewrite contentPartsOf_app. cbn. by rewrite IH.
Qed.

Lemma contentPartsOf_images (images : list (MessagePart Json)) :
  Forall (λ p, isImage p = true) images →
  Forall (λ b, usedIdOf b = None ∧ answeredIdOf b = None)
    (contentPartsOf encodeBase64 images).
Proof.
  induction 1 as [|p images Hp _ IH]; [constructor|].
  destruct p; try done. constructor; done.
Qed.

(** X29.  A round of tool calls that all have an id and a name is sent back
    to Anthropic as an assistant message whose [tool_use] blocks are the
    calls of the round, followed at once by a user message whose blocks are
    one [tool_result] for each call, in the same order and with the same
    ids; what follows holds no [tool_use] and no [tool_result]. *)
Theorem anthropic_round_answers_every_call
    (env : Env Json) (evs : list (Event Json)) (s : Streaming Json) :
  toolCalls s ≠ [] →
  Forall (λ c, nonEmpty (toolCallId c) = true ∧ nonEmpty (name c) = true) (toolCalls s) →
  ∃ asked answered rest,
    bodyMessages encodeBase64
      (assistantMessages s
       ++ toolMessages (executeTools env evs (toolCalls s)).1.2
            (executeTools env evs (toolCalls s)).2)
    = mkMessage "assistant" (ContentBlocks asked)
      :: mkMessage "user" (ContentBlocks answered) :: rest
    ∧ omap usedIdOf asked = map toolCallId (toolCalls s)
    ∧ map answeredIdOf answered = map (λ c, Some (toolCallId c)) (toolCalls s)
    ∧ Forall (λ m, Forall (λ b, usedIdOf b = None ∧ answeredIdOf b = None) (blocksOf m))
        rest.
Proof.
  intros Hcalls Hnamed.
  destruct (executeTools_shape env (toolCalls s) evs) as [Hresults Himages].
  destruct (executeTools env evs (toolCalls s)) as [[evs' results] images]. cbn [fst snd] in *.
  pose proof (contentPartsOf_tool_results _ _ Hresults) as Hanswered.
  pose proof (contentPartsOf_images _ Himages) as Hrest.
  pose proof (contentPartsOf_calls _ Hnamed) as Hasked.
  unfold assistantMessages, toolMessages, bodyMessages.
  destruct (toolCalls s) as [|c calls] eqn:Hc; [done|].
  destruct results as [|r results]; [by apply Forall2_nil_inv_r in Hresults|].
  remember (c :: calls) as cs eqn:Hcs. remember (r :: results) as rs eqn:Hrs.
  set (textPart := if nonEmpty (fullText s) then [MsgText (fullText s)] else []).
  destruct (textPart ++ map MsgToolUse cs) as [|part parts] eqn:Hcontent.
  { apply app_eq_nil in Hcontent as [_ Hnil]. by subst cs. }
  rewrite <- Hcontent. clear part parts Hcontent.
  exists (contentPartsOf encodeBase64 (textPart ++ map MsgToolUse cs)),
         (contentPartsOf encodeBase64 rs),
         (match images with
          | [] => []
          | _ => [mkMessage "user"
                    (ContentBlocks
                       (TextBlock "Image(s) from readFile — view below for vision:"
                        :: contentPartsOf encodeBase64 images))]
          end).
  split; [|split; [|split]].
  - cbn [app]. rewrite filter_cons. rewrite decide_True by done.
    rewrite filter_cons. rewrite decide_True by done.
    cbn [map]. f_equal; [|f_equal].
    + unfold _mapMessageToAnthropic. cbn [Agent.role Agent.content].
      rewrite contentPartsOf_app, Hasked. subst textPart cs.
      destruct (nonEmpty (fullText s)); [|done]. done.
    + unfold _mapMessageToAnthropic. cbn [Agent.role Agent.content].
      subst cs rs.
      apply Forall2_cons_1 in Hresults as [(value & err & ->) _]. done.
    + destruct images as [|i images]; [done|].
      rewrite filter_cons. rewrite decide_True by done. cbn [filter map].
      unfold _mapMessageToAnthropic. cbn [Agent.role Agent.content].
      apply Forall_cons in Himages as [Hi _]. by destruct i.
  - rewrite contentPartsOf_app, omap_app, Hasked.
    assert (omap usedIdOf (contentPartsOf encodeBase64 textPart) = []) as ->.
    { subst textPart. by destruct (nonEmpty (fullText s)). }
    cbn [app]. clear. induction cs as [|x l IH]; [done|]. simpl. f_equal. exact IH.
  - exact Hanswered.
  - destruct images as [|i images]; constructor; [|constructor].
    cbn [blocksOf messageContent]. constructor; [done|exact Hrest].
Qed.

End Provider.

Import Samples.

Lemma anthropic_round_witness :
  ∃ asked answered rest,
    bodyMessages (Json := SampleJson) id
      (conversationMessages (next stubbornEnv (initialState listFiles)))
    = mkMessage "user" (ContentText "list files")
      :: mkMessage "assistant" (ContentBlocks asked)
      :: mkMessage "user" (ContentBlocks answered) :: rest
    ∧ omap usedIdOf asked = ["call_1"]
    ∧ map answeredIdOf answered = [Some "call_1"].
Proof.
  destruct (anthropic_round_answers_every_call (Json := SampleJson) id stubbornEnv
              (events (initialState listFiles) ++ [EvRequest listFiles])
              (gathered stubbornEnv (initialState listFiles)))
    as (asked & answered & rest & Hbody & Hasked & Hanswered & _).
  { done. }
  { by repeat constructor. }
  exists asked, answered, rest. split; [|split; [exact Hasked | exact Hanswered]].
  rewrite <- Hbody. reflexivity.
Defined.

End AnthropicWireFacts.

Module LedgerFacts.
Import Agent AgentFacts Gateway GatewayFacts Wire WireFacts.

Section Loop.
Context {Json : Type} `{!JsonValue Json}.
Implicit Types (env : Env Json) (st : LoopState Json) (s : Streaming Json).

Lemma invokedIds_app (evs1 evs2 : list (Event Json)) :
  invokedIds (evs1 ++ evs2) = invokedIds evs1 ++ invokedIds evs2.
Proof. apply omap_app. Qed.

Lemma resultIds_app (c1 c2 : list (ChatMessage Json)) :
  resultIds (c1 ++ c2) = resultIds c1 ++ resultIds c2.
Proof. apply flat_map_app. Qed.

Lemma invokedIds_progress (l : list ChatProgress) :
  invokedIds (progressEvents (Json := Json) l) = [].
Proof. unfold invokedIds, progressEvents. by induction l. Qed.

Lemma invokedIds_invocations (calls : list (ToolUse Json)) :
  invokedIds (map EvInvokeTool calls) = map toolCallId calls.
Proof.
  unfold invokedIds. induction calls as [|c calls IH]; [done|]. simpl. f_equal. exact IH.
Qed.

Lemma resultIds_assistant s : resultIds (assistantMessages s) = [].
Proof.
  unfold assistantMessages.
  set (textPart := if nonEmpty (fullText s) then [MsgText (fullText s)] else []).
  assert (omap resultIdOf (textPart ++ map MsgToolUse (toolCalls s)) = []) as Hnone.
  { rewrite omap_app. subst textPart.
    assert (omap resultIdOf (map (MsgToolUse (Json := Json)) (toolCalls s)) = []) as ->
      by (by induction (toolCalls s)).
    by destruct (nonEmpty (fullText s)). }
  destruct (textPart ++ map MsgToolUse (toolCalls s)); [done|].
  unfold resultIds. cbn [flat_map content]. by rewrite Hnone.
Qed.

Lemma omap_results (calls : list (ToolUse Json)) (results : list (MessagePart Json)) :
  Forall2 (λ (c : ToolUse Json) r, ∃ value err, r = MsgToolResult (toolCallId c) value err)
    calls results →
  omap resultIdOf results = map toolCallId calls.
Proof.
  induction 1 as [|c r calls results (value & err & ->) _ IH]; [done|].
  simpl. f_equal. exact IH.
Qed.

Lemma omap_images (images : list (MessagePart Json)) :
  Forall (λ p, isImage p = true) images → omap resultIdOf images = [].
Proof. induction 1 as [|p images Hp _ IH]; [done|]. by destruct p. Qed.

Lemma resultIds_tools env evs (calls : list (ToolUse Json)) :
  resultIds (toolMessages (executeTools env evs calls).1.2 (executeTools env evs calls).2)
  = map toolCallId calls.
Proof.
  destruct (executeTools_shape env calls evs) as [Hresults Himages].
  destruct (executeTools env evs calls) as [[evs' results] images]. cbn [fst snd] in *.
  pose proof (omap_results _ _ Hresults) as Hids.
  pose proof (omap_images _ Himages) as Hnone.
  unfold toolMessages. rewrite resultIds_app.
  assert (resultIds (match images with
                     | [] => []
                     | _ => [mkChatMessage (Json := Json) User
                               (MsgText "Image(s) from readFile — view below for vision:"
                                :: images)]
                     end) = []) as ->.
  { destruct images; [done|]. unfold resultIds. cbn [flat_map content]. simpl.
    simpl in Hnone. by rewrite Hnone. }
  rewrite app_nil_r. destruct results as [|r results].
  - apply Forall2_nil_inv_r in Hresults as ->. done.
  - unfold resultIds. cbn [flat_map content]. by rewrite app_nil_r.
Qed.

(** What one pass adds to the two ledgers is the same list of ids. *)
Lemma afterResponse_ledger env st (n : nat) evs s :
  ∃ ids,
    resultIds (conversationMessages (stateOf (afterResponse env st n evs s)))
      = resultIds (conversationMessages st) ++ ids
    ∧ invokedIds (events (stateOf (afterResponse env st n evs s))) = invokedIds evs ++ ids.
Proof.
  unfold afterResponse. destruct (toolCalls s) as [|tc tcs] eqn:Hcalls.
  - exists []. rewrite !app_nil_r.
    destruct (includes TASK_COMPLETE_SIGNAL (fullText s));
      [|destruct (2 <=? S (consecutiveNoCompleteCount st))%nat];
      cbn [stateOf conversationMessages events];
      rewrite ?resultIds_app, resultIds_assistant, ?app_nil_r; done.
  - remember (tc :: tcs) as calls eqn:Hc.
    destruct (REPEATED_TOOL_CALL_THRESHOLD <=? _)%nat.
    + exists []. cbn [stateOf conversationMessages events].
      by rewrite resultIds_app, resultIds_assistant, invokedIds_app, !app_nil_r.
    + exists (map toolCallId calls).
      pose proof (resultIds_tools env evs calls) as Hids.
      pose proof (executeTools_events env calls evs) as Hevents.
      destruct (executeTools env evs calls) as [[evs' results] images]. cbn [fst snd] in *.
      cbn [stateOf conversationMessages events].
      rewrite !resultIds_app, resultIds_assistant, Hids, Hevents, app_nil_r.
      by rewrite invokedIds_app, invokedIds_invocations.
Qed.

Lemma iteration_ledger env st :
  ∃ ids,
    resultIds (conversationMessages (stateOf (iteration env st)))
      = resultIds (conversationMessages st) ++ ids
    ∧ invokedIds (events (stateOf (iteration env st))) = invokedIds (events st) ++ ids.
Proof.
  unfold iteration.
  destruct (sendChatRequest env (events st) (conversationMessages st)) as [e|r].
  { exists []. cbn [stateOf conversationMessages events].
    by rewrite invokedIds_app, !app_nil_r. }
  destruct (gather r (hasEverEmitted st)) as [s0 leftEarly].
  destruct (if leftEarly then None else streamError r).
  { exists []. cbn [stateOf conversationMessages events].
    by rewrite !invokedIds_app, invokedIds_progress, !app_nil_r. }
  destruct (result r).
  { exists []. cbn [stateOf conversationMessages events].
    by rewrite !invokedIds_app, invokedIds_progress, !app_nil_r. }
  destruct (afterResponse_ledger env st (S (iterationCount st))
              ((events st ++ [EvRequest (conversationMessages st)])
               ++ progressEvents (shown (flush s0))) (flush s0)) as (ids & Hconv & Hevents).
  exists ids. split; [exact Hconv|]. rewrite Hevents.
  by rewrite !invokedIds_app, invokedIds_progress, !app_nil_r.
Qed.

Lemma epilogue_ledger env st :
  invokedIds (events (epilogue env st)) = invokedIds (events st).
Proof.
  unfold epilogue. cbn [events]. rewrite invokedIds_app.
  repeat case_match; by rewrite app_nil_r.
Qed.

(** X30.  The conversation is a faithful ledger of the tools a run invoked:
    the [tool_result] parts the run added to the conversation carry, in
    order, exactly the ids of the calls it dispatched to the tool service. *)
Theorem every_invocation_is_answered_in_the_conversation
    env (messages : list (ChatMessage Json)) r :
  run env messages = Some r →
  resultIds (conversationMessages (final r))
  = resultIds messages ++ invokedIds (events (final r)).
Proof.
  intros Hrun.
  refine (loop_invariant env
            (λ st, resultIds (conversationMessages st)
                   = resultIds messages ++ invokedIds (events st))
            _ _ _ (initialState messages) r _ Hrun).
  - intros st Hst. destruct (iteration_ledger env st) as (ids & -> & ->).
    by rewrite Hst, app_assoc.
  - intros st Hst. rewrite epilogue_ledger.
    by destruct (epilogue_fields env st) as (_ & -> & _).
  - cbn [initialState conversationMessages events]. by rewrite app_nil_r.
Qed.

End Loop.

Import Samples.

Lemma ledger_witness :
  let r := mkRunResult (ExitBreak Repetition)
             (epilogue stubbornEnv (Nat.iter 3 (next stubbornEnv) (initialState listFiles))) in
  run stubbornEnv listFiles = Some r
  ∧ resultIds (conversationMessages (final r)) = ["call_1"; "call_1"]
  ∧ invocationCount (events (final r)) = 2%nat.
Proof.
  intros r. assert (run stubbornEnv listFiles = Some r) as Hrun by reflexivity.
  split; [exact Hrun|]. split; [|reflexivity].
  rewrite (every_invocation_is_answered_in_the_conversation stubbornEnv listFiles r Hrun).
  reflexivity.
Defined.

End LedgerFacts.
